(** * accel_dsa: dispatch and flow control over shared DSA devices

    A shallow embedding of [module/accel/dsa/accel_dsa.c]: the round-robin
    device selector, the per-channel submission / queueing protocol, the
    completion handler and the capability query, together with the
    properties the design document states about them.

    Conventions.
    - C integers are [Z].  [int] return codes and completion statuses are
      passed on as they are; [uint32_t] counters are reduced with [uint32]
      wherever the C code increments or decrements them; a [uint32_t]
      passed for an [int] parameter goes through [int_of_uint32].
    - Pointers are [Z] addresses with [NULL = 0]; the devices of the
      [g_dsa_devices] tail queue are named by their position in the queue.
    - The intrusive [STAILQ] of tasks is a [list], head first.
    - The idxd driver, the software DIF library and the environment are
      external: they are the fields of the [Env] class.
    - Everything observable the module does to the outside (driver calls,
      trace points, error log lines, task completions, failed assertions)
      is appended to the [log] of the [world].
    - [assert] follows the release build: a violated assertion is logged
      as [EvAssertFail] and execution continues with the next statement.
    - A function that dereferences a pointer it has not checked returns an
      [outcome]: [NullDeref] where the pointer is null, and nothing of the
      function runs after that. *)

From stdpp Require Import gmap list strings.
From Stdlib Require Import ZArith Lia.

Local Open Scope Z_scope.

(** ** Integers and error numbers *)

Definition UINT32_MAX : Z := 4294967295.

Definition uint32 (n : Z) : Z := n mod 2 ^ 32.


(** The conversion of a [uint32_t] to [int]: the value congruent to it
    modulo 2^32 in the range of [int]. *)
Definition int_of_uint32 (n : Z) : Z := (n + 2 ^ 31) mod 2 ^ 32 - 2 ^ 31.

(** [errno.h] (Linux values). *)
Definition EIO : Z := 5.
Definition EBUSY : Z := 16.
Definition ENODEV : Z := 19.
Definition EINVAL : Z := 22.

Definition NULL : Z := 0.

(** ** Data model *)

Inductive channel_state :=
  | IDXD_CHANNEL_ACTIVE
  | IDXD_CHANNEL_ERROR.

(** [enum spdk_accel_opcode] comes from [spdk/accel_module.h]; the eight
    operations this module names are constructors of their own, every other
    value of the enumeration is [SPDK_ACCEL_OPC_OTHER]. *)
Inductive spdk_accel_opcode :=
  | SPDK_ACCEL_OPC_COPY
  | SPDK_ACCEL_OPC_FILL
  | SPDK_ACCEL_OPC_DUALCAST
  | SPDK_ACCEL_OPC_COMPARE
  | SPDK_ACCEL_OPC_CRC32C
  | SPDK_ACCEL_OPC_COPY_CRC32C
  | SPDK_ACCEL_OPC_DIF_VERIFY
  | SPDK_ACCEL_OPC_DIF_GENERATE_COPY
  | SPDK_ACCEL_OPC_OTHER (code : Z).

Record iovec := { iov_base : Z; iov_len : Z }.

(** A buffer descriptor of a task: the [iovs] array and its [iovcnt]. *)
Record accel_iovs := { iovs : list iovec; iovcnt : Z }.

(** [iovs[0]].  The module reads it only after checking [iovcnt == 1]; on an
    array without elements the model reads a zero region. *)
Definition iovs0 (a : accel_iovs) : iovec :=
  nth 0 (iovs a) {| iov_base := NULL; iov_len := 0 |}.

Record accel_dif := {
  dif_ctx : Z;          (* const struct spdk_dif_ctx * *)
  dif_err : Z;          (* struct spdk_dif_error *     *)
  num_blocks : Z
}.

(** The fields of [struct spdk_accel_task] the module reads.  [cb_arg]
    stands for the caller's completion continuation. *)
Record spdk_accel_task := {
  cb_arg : Z;
  op_code : spdk_accel_opcode;
  s : accel_iovs;
  s2 : accel_iovs;
  d : accel_iovs;
  d2 : accel_iovs;
  fill_pattern : Z;
  seed : Z;
  crc_dst : Z;
  dif : accel_dif
}.

Record spdk_dif_error := {
  err_type : Z;
  expected : Z;
  actual : Z;
  err_offset : Z
}.

Record idxd_device := { dsa : Z }.

Record idxd_io_channel := {
  chan : Z;                               (* struct spdk_idxd_io_channel * *)
  dev : option nat;                       (* struct idxd_device *          *)
  state : channel_state;
  num_outstanding : Z;                    (* uint32_t                      *)
  queued_tasks : list spdk_accel_task
}.

(** ** The driver interface *)

(** One constructor per driver submission entry point, with the arguments the
    module passes.  The completion callback is always [dsa_done]; the last
    argument is the task it will be called back with. *)
Inductive idxd_request :=
  | spdk_idxd_submit_copy (ch : Z) (diov : list iovec) (diovcnt : Z)
      (siov : list iovec) (siovcnt : Z) (flags : Z) (tok : spdk_accel_task)
  | spdk_idxd_submit_dualcast (ch : Z) (dst1 dst2 src : Z) (nbytes : Z)
      (flags : Z) (tok : spdk_accel_task)
  | spdk_idxd_submit_compare (ch : Z) (siov1 : list iovec) (siov1cnt : Z)
      (siov2 : list iovec) (siov2cnt : Z) (flags : Z) (tok : spdk_accel_task)
  | spdk_idxd_submit_fill (ch : Z) (diov : list iovec) (diovcnt : Z)
      (pattern : Z) (flags : Z) (tok : spdk_accel_task)
  | spdk_idxd_submit_crc32c (ch : Z) (siov : list iovec) (siovcnt : Z)
      (seed0 : Z) (dst : Z) (flags : Z) (tok : spdk_accel_task)
  | spdk_idxd_submit_copy_crc32c (ch : Z) (diov : list iovec) (diovcnt : Z)
      (siov : list iovec) (siovcnt : Z) (seed0 : Z) (dst : Z) (flags : Z)
      (tok : spdk_accel_task)
  | spdk_idxd_submit_dif_check (ch : Z) (siov : list iovec) (siovcnt : Z)
      (nblocks : Z) (ctx : Z) (flags : Z) (tok : spdk_accel_task)
  | spdk_idxd_submit_dif_insert (ch : Z) (diov : list iovec) (diovcnt : Z)
      (siov : list iovec) (siovcnt : Z) (nblocks : Z) (ctx : Z) (flags : Z)
      (tok : spdk_accel_task).

(** The external collaborators of the module.  [drv] is the state of the
    platform outside the module (the driver, the hardware queues, the data
    buffers); a submission returns [0] (accepted), [-EBUSY] (no descriptor
    free) or another negative error. *)
Class Env := {
  drv : Type;
  spdk_idxd_get_socket : Z → Z;
  spdk_idxd_get_channel : Z → drv → Z * drv;
  spdk_idxd_submit : idxd_request → drv → Z * drv;
  (** the completions the driver hands to the completion callback, in
      order, and the count it returns *)
  spdk_idxd_process_events : Z → drv → list (spdk_accel_task * Z) * Z * drv;
  spdk_env_get_current_core : Z;
  spdk_env_get_socket_id : Z → Z;
  (** software DIF verification, [spdk_dif_verify (iovs, iovcnt,
      num_blocks, ctx, err_blk)], over the buffers as they are in the state
      of the platform: the return code, and the record it stores through
      [err_blk] when it stores one; the library stores nothing through a
      null [err_blk] *)
  spdk_dif_verify : list iovec → Z → Z → Z → Z → drv → Z * option spdk_dif_error;
  spdk_iommu_is_enabled : bool
}.

(** What a C function that can dereference a null pointer does: return a
    value, or have no defined behaviour.  [OutOfFuel] is the model's own: a
    loop was cut before the C loop would have ended. *)
Inductive outcome (A : Type) :=
  | Returned (a : A)
  | NullDeref
  | OutOfFuel.
Arguments Returned {A} a.
Arguments NullDeref {A}.
Arguments OutOfFuel {A}.

Definition SPDK_POLLER_IDLE : Z := 0.
Definition SPDK_POLLER_BUSY : Z := 1.

(** ** Observable events *)

Inductive tpoint :=
  | TRACE_ACCEL_DSA_OP_SUBMIT
  | TRACE_ACCEL_DSA_OP_COMPLETE.

Inductive assert_site :=
  | AssertOutstandingPositive     (* dsa_done *)
  | AssertKnownOpcode             (* _process_single_task, default case *)
  | AssertInitialized.            (* dsa_supports_opcode *)

Inductive errlog :=
  | LogAllocFailed
  | LogNoMoreDevices
  | LogDifError (err : option spdk_dif_error)
  | LogFailedGetChannel.

Inductive event :=
  | EvCursor (d : nat)                              (* g_next_dev moved to d *)
  | EvGetChannel (d : nat) (ch : Z)                 (* spdk_idxd_get_channel *)
  | EvSubmit (req : idxd_request) (rc : Z)          (* a driver submission   *)
  | EvDifVerify (iov : list iovec) (cnt nblocks ctx err : Z) (rc : Z)
  | EvTrace (tp : tpoint) (arg : Z)                 (* spdk_trace_record     *)
  | EvErrlog (m : errlog)                           (* SPDK_ERRLOG           *)
  | EvAssertFail (a : assert_site)
  | EvTaskComplete (t : spdk_accel_task) (status : Z) (* spdk_accel_task_complete *)
  | EvCallback (t : spdk_accel_task) (status : Z).  (* the driver calls cb_fn *)

(** ** A state monad *)

Definition State (S A : Type) : Type := S → A * S.

Definition ret {S A} (a : A) : State S A := λ w, (a, w).

Definition bind {S A B} (m : State S A) (k : A → State S B) : State S B :=
  λ w, let (a, w1) := m w in k a w1.

Definition gets {S A} (f : S → A) : State S A := λ w, (f w, w).

Definition modify {S} (f : S → S) : State S unit := λ w, (tt, f w).

Notation "'do' x <- m ; k" := (bind m (λ x, k))
  (at level 10, x name, m at level 99, k at level 200,
   format "'[v' 'do'  x  <-  m ; '/' k ']'").
Notation "m ;; k" := (bind m (λ _, k))
  (at level 100, k at level 200, right associativity).

(** ** The world: module globals, one channel, the driver, the log *)

Section Model.
Context {E : Env}.

Record world := {
  g_dsa_initialized : bool;
  g_dsa_devices : list idxd_device;          (* TAILQ, head first          *)
  g_next_dev : option nat;                   (* cursor; None is NULL       *)
  g_num_devices : Z;                         (* uint32_t                   *)
  channel : idxd_io_channel;                 (* the channel context        *)
  driver : drv;
  mem : gmap Z spdk_dif_error;               (* the callers' error records *)
  log : list event
}.

Definition with_channel (f : idxd_io_channel → idxd_io_channel) (w : world) : world :=
  {| g_dsa_initialized := g_dsa_initialized w; g_dsa_devices := g_dsa_devices w;
     g_next_dev := g_next_dev w; g_num_devices := g_num_devices w;
     channel := f (channel w); driver := driver w; mem := mem w; log := log w |}.

Definition with_driver (dr : drv) (w : world) : world :=
  {| g_dsa_initialized := g_dsa_initialized w; g_dsa_devices := g_dsa_devices w;
     g_next_dev := g_next_dev w; g_num_devices := g_num_devices w;
     channel := channel w; driver := dr; mem := mem w; log := log w |}.

Definition with_mem (m : gmap Z spdk_dif_error) (w : world) : world :=
  {| g_dsa_initialized := g_dsa_initialized w; g_dsa_devices := g_dsa_devices w;
     g_next_dev := g_next_dev w; g_num_devices := g_num_devices w;
     channel := channel w; driver := driver w; mem := m; log := log w |}.

Definition with_log (l : list event) (w : world) : world :=
  {| g_dsa_initialized := g_dsa_initialized w; g_dsa_devices := g_dsa_devices w;
     g_next_dev := g_next_dev w; g_num_devices := g_num_devices w;
     channel := channel w; driver := driver w; mem := mem w; log := l |}.

Definition with_next_dev (c : option nat) (w : world) : world :=
  {| g_dsa_initialized := g_dsa_initialized w; g_dsa_devices := g_dsa_devices w;
     g_next_dev := c; g_num_devices := g_num_devices w;
     channel := channel w; driver := driver w; mem := mem w; log := log w |}.

Definition with_devices (l : list idxd_device) (n : Z) (w : world) : world :=
  {| g_dsa_initialized := g_dsa_initialized w; g_dsa_devices := l;
     g_next_dev := g_next_dev w; g_num_devices := n;
     channel := channel w; driver := driver w; mem := mem w; log := log w |}.

Definition set_chan (c : Z) (ch : idxd_io_channel) : idxd_io_channel :=
  {| chan := c; dev := dev ch; state := state ch;
     num_outstanding := num_outstanding ch; queued_tasks := queued_tasks ch |}.

Definition set_dev (dv : option nat) (ch : idxd_io_channel) : idxd_io_channel :=
  {| chan := chan ch; dev := dv; state := state ch;
     num_outstanding := num_outstanding ch; queued_tasks := queued_tasks ch |}.

Definition set_state (st : channel_state) (ch : idxd_io_channel) : idxd_io_channel :=
  {| chan := chan ch; dev := dev ch; state := st;
     num_outstanding := num_outstanding ch; queued_tasks := queued_tasks ch |}.

Definition set_num_outstanding (n : Z) (ch : idxd_io_channel) : idxd_io_channel :=
  {| chan := chan ch; dev := dev ch; state := state ch;
     num_outstanding := n; queued_tasks := queued_tasks ch |}.

Definition set_queued_tasks (q : list spdk_accel_task) (ch : idxd_io_channel) : idxd_io_channel :=
  {| chan := chan ch; dev := dev ch; state := state ch;
     num_outstanding := num_outstanding ch; queued_tasks := q |}.

Local Abbreviation M := (State world).

Definition emit (e : event) : M unit := modify (λ w, with_log (log w ++ [e]) w).

(** The framework and the driver, as seen from the module. *)

Definition spdk_accel_task_complete (t : spdk_accel_task) (status : Z) : M unit :=
  emit (EvTaskComplete t status).

Definition spdk_trace_record (tp : tpoint) (arg : Z) : M unit :=
  emit (EvTrace tp arg).

Definition SPDK_ERRLOG (m : errlog) : M unit := emit (EvErrlog m).

Definition assert (b : bool) (a : assert_site) : M unit :=
  if b then ret tt else emit (EvAssertFail a).

Definition idxd_submit (req : idxd_request) : M Z :=
  λ w, let (rc, dr) := spdk_idxd_submit req (driver w) in
       (rc, with_log (log w ++ [EvSubmit req rc]) (with_driver dr w)).

(** The task queue of the channel. *)

Definition STAILQ_EMPTY : M bool :=
  gets (λ w, match queued_tasks (channel w) with [] => true | _ => false end).

Definition STAILQ_FIRST : M (option spdk_accel_task) :=
  gets (λ w, head (queued_tasks (channel w))).

Definition STAILQ_INSERT_TAIL (t : spdk_accel_task) : M unit :=
  modify (with_channel (λ c, set_queued_tasks (queued_tasks c ++ [t]) c)).

Definition STAILQ_REMOVE_HEAD : M unit :=
  modify (with_channel (λ c, set_queued_tasks (tail (queued_tasks c)) c)).

(** ** Capability query *)

Definition dsa_supports_opcode (opc : spdk_accel_opcode) : M bool :=
  do init <- gets g_dsa_initialized;
  if negb init then
    assert false AssertInitialized ;;
    ret false
  else
    match opc with
    | SPDK_ACCEL_OPC_COPY
    | SPDK_ACCEL_OPC_FILL
    | SPDK_ACCEL_OPC_DUALCAST
    | SPDK_ACCEL_OPC_COMPARE
    | SPDK_ACCEL_OPC_CRC32C
    | SPDK_ACCEL_OPC_COPY_CRC32C => ret true
    | SPDK_ACCEL_OPC_DIF_VERIFY
    | SPDK_ACCEL_OPC_DIF_GENERATE_COPY => ret spdk_iommu_is_enabled
    | _ => ret false
    end.

(** ** Task dispatcher *)

Definition idxd_submit_dualcast (task : spdk_accel_task) (flags : Z) : M Z :=
  if negb (iovcnt (d task) =? 1) || negb (iovcnt (d2 task) =? 1)
     || negb (iovcnt (s task) =? 1) then
    ret (- EINVAL)
  else if negb (iov_len (iovs0 (d task)) =? iov_len (iovs0 (s task)))
          || negb (iov_len (iovs0 (d task)) =? iov_len (iovs0 (d2 task))) then
    ret (- EINVAL)
  else
    do ch <- gets (λ w, chan (channel w));
    idxd_submit (spdk_idxd_submit_dualcast ch (iov_base (iovs0 (d task)))
                   (iov_base (iovs0 (d2 task))) (iov_base (iovs0 (s task)))
                   (iov_len (iovs0 (d task))) flags task).

(** The [switch (task->op_code)] of [_process_single_task]. *)
Definition process_switch (task : spdk_accel_task) (flags : Z) : M Z :=
  do ch <- gets (λ w, chan (channel w));
  match op_code task with
  | SPDK_ACCEL_OPC_COPY =>
      idxd_submit (spdk_idxd_submit_copy ch (iovs (d task)) (iovcnt (d task))
                     (iovs (s task)) (iovcnt (s task)) flags task)
  | SPDK_ACCEL_OPC_DUALCAST =>
      idxd_submit_dualcast task flags
  | SPDK_ACCEL_OPC_COMPARE =>
      idxd_submit (spdk_idxd_submit_compare ch (iovs (s task)) (iovcnt (s task))
                     (iovs (s2 task)) (iovcnt (s2 task)) flags task)
  | SPDK_ACCEL_OPC_FILL =>
      idxd_submit (spdk_idxd_submit_fill ch (iovs (d task)) (iovcnt (d task))
                     (fill_pattern task) flags task)
  | SPDK_ACCEL_OPC_CRC32C =>
      idxd_submit (spdk_idxd_submit_crc32c ch (iovs (s task)) (iovcnt (s task))
                     (seed task) (crc_dst task) flags task)
  | SPDK_ACCEL_OPC_COPY_CRC32C =>
      idxd_submit (spdk_idxd_submit_copy_crc32c ch (iovs (d task)) (iovcnt (d task))
                     (iovs (s task)) (iovcnt (s task)) (seed task) (crc_dst task)
                     flags task)
  | SPDK_ACCEL_OPC_DIF_VERIFY =>
      idxd_submit (spdk_idxd_submit_dif_check ch (iovs (s task)) (iovcnt (s task))
                     (num_blocks (dif task)) (dif_ctx (dif task)) flags task)
  | SPDK_ACCEL_OPC_DIF_GENERATE_COPY =>
      idxd_submit (spdk_idxd_submit_dif_insert ch (iovs (d task)) (iovcnt (d task))
                     (iovs (s task)) (iovcnt (s task)) (num_blocks (dif task))
                     (dif_ctx (dif task)) flags task)
  | SPDK_ACCEL_OPC_OTHER _ =>
      assert false AssertKnownOpcode ;;
      ret (- EINVAL)
  end.

(** [idxd_task->chan = chan] stores the channel for [dsa_done] to find; the
    world holds the one channel the task is submitted on, so the back
    pointer needs no field. *)
Definition _process_single_task (task : spdk_accel_task) : M Z :=
  do rc <- process_switch task 0;
  (if rc =? 0 then
     modify (with_channel (λ c, set_num_outstanding (uint32 (num_outstanding c + 1)) c)) ;;
     do n <- gets (λ w, num_outstanding (channel w));
     spdk_trace_record TRACE_ACCEL_DSA_OP_SUBMIT n
   else ret tt) ;;
  ret rc.

(** ** Submission and draining *)

(** [assert(STAILQ_NEXT(task, link) == NULL)] at the top of the C function
    is about the link field of the intrusive queue, which the list leaves
    out. *)
Definition dsa_submit_task (task : spdk_accel_task) : M Z :=
  do st <- gets (λ w, state (channel w));
  match st with
  | IDXD_CHANNEL_ERROR =>
      spdk_accel_task_complete task (- EINVAL) ;;
      ret 0
  | IDXD_CHANNEL_ACTIVE =>
      do empty <- STAILQ_EMPTY;
      if negb empty then
        STAILQ_INSERT_TAIL task ;;
        ret 0
      else
        do rc <- _process_single_task task;
        (if rc =? - EBUSY then STAILQ_INSERT_TAIL task
         else if negb (rc =? 0) then spdk_accel_task_complete task rc
         else ret tt) ;;
        ret 0
  end.

(** [while ((task = STAILQ_FIRST(...))) { REMOVE_HEAD; complete(-EINVAL); }].
    Every iteration shortens the queue, so its length at entry is enough
    fuel: see [fail_queued_tasks_spec]. *)
Fixpoint fail_queued_tasks (fuel : nat) : M unit :=
  match fuel with
  | O => ret tt
  | S fuel' =>
      do first <- STAILQ_FIRST;
      match first with
      | None => ret tt
      | Some task =>
          STAILQ_REMOVE_HEAD ;;
          spdk_accel_task_complete task (- EINVAL) ;;
          fail_queued_tasks fuel'
      end
  end.

(** [STAILQ_FOREACH_SAFE(task, &chan->queued_tasks, link, tmp) { ... }]: the
    iteration follows the links from [task]; the argument is the part of the
    queue from [task] on, so [tmp] is its tail. *)
Fixpoint submit_queued_from (cursor : list spdk_accel_task) : M Z :=
  match cursor with
  | [] => ret 0
  | task :: tmp =>
      do rc <- _process_single_task task;
      if rc =? - EBUSY then ret rc
      else
        STAILQ_REMOVE_HEAD ;;
        (if negb (rc =? 0) then spdk_accel_task_complete task rc else ret tt) ;;
        submit_queued_from tmp
  end.

Definition dsa_submit_queued_tasks : M Z :=
  do st <- gets (λ w, state (channel w));
  match st with
  | IDXD_CHANNEL_ERROR =>
      do q <- gets (λ w, queued_tasks (channel w));
      fail_queued_tasks (length q) ;;
      ret 0
  | IDXD_CHANNEL_ACTIVE =>
      do q <- gets (λ w, queued_tasks (channel w));
      submit_queued_from q
  end.


(** ** Completion handler and poller *)

(** Sequencing for code that can fault: the rest runs only when the first
    part returned. *)
Definition and_then {A B} (m : M (outcome A)) (k : A → M (outcome B))
  : M (outcome B) :=
  do r <- m;
  match r with
  | Returned a => k a
  | NullDeref => ret NullDeref
  | OutOfFuel => ret OutOfFuel
  end.

(** [dsa_done]; [chan = idxd_task->chan] is the channel of the world.
    [s.iovcnt] is a [uint32_t] and the second parameter of
    [spdk_dif_verify] an [int].  The [SPDK_ERRLOG] reads [err_type] and
    [err_offset] through [task.dif.err] without a check. *)
Definition dsa_done (task : spdk_accel_task) (status : Z) : M (outcome unit) :=
  and_then
    (if status =? - EIO then
       match op_code task with
       | SPDK_ACCEL_OPC_DIF_VERIFY =>
           do dr <- gets driver;
           let (rc, stored) :=
             spdk_dif_verify (iovs (s task)) (int_of_uint32 (iovcnt (s task)))
               (num_blocks (dif task)) (dif_ctx (dif task)) (dif_err (dif task)) dr in
           emit (EvDifVerify (iovs (s task)) (int_of_uint32 (iovcnt (s task)))
                   (num_blocks (dif task)) (dif_ctx (dif task))
                   (dif_err (dif task)) rc) ;;
           match stored with
           | Some e =>
               if dif_err (dif task) =? NULL then ret tt
               else modify (λ w, with_mem (<[dif_err (dif task) := e]> (mem w)) w)
           | None => ret tt
           end ;;
           if negb (rc =? 0) then
             if dif_err (dif task) =? NULL then ret NullDeref
             else
               do e <- gets (λ w, mem w !! dif_err (dif task));
               SPDK_ERRLOG (LogDifError e) ;;
               ret (Returned tt)
           else ret (Returned tt)
       | _ => ret (Returned tt)
       end
     else ret (Returned tt))
    (λ _,
       do n <- gets (λ w, num_outstanding (channel w));
       assert (0 <? n) AssertOutstandingPositive ;;
       spdk_trace_record TRACE_ACCEL_DSA_OP_COMPLETE (uint32 (n - 1)) ;;
       modify (with_channel (set_num_outstanding (uint32 (n - 1)))) ;;
       spdk_accel_task_complete task status ;;
       ret (Returned tt)).

(** [cb_fn(cb_arg, status)]: the driver calls the completion callback it
    was given with the submission, which is always [dsa_done]. *)
Definition cb_fn (task : spdk_accel_task) (status : Z) : M (outcome unit) :=
  emit (EvCallback task status) ;;
  dsa_done task status.

(** Inside [spdk_idxd_process_events] the driver calls the callback once
    for each completion it reports, in order. *)
Fixpoint process_completions (cpls : list (spdk_accel_task * Z)) : M (outcome unit) :=
  match cpls with
  | [] => ret (Returned tt)
  | (task, status) :: rest =>
      and_then (cb_fn task status) (λ _, process_completions rest)
  end.

Definition idxd_poll : M (outcome Z) :=
  do ch <- gets (λ w, chan (channel w));
  do evs <- (λ w, let '(cpls, count, dr) := spdk_idxd_process_events ch (driver w) in
                  ((cpls, count), with_driver dr w));
  and_then (process_completions (fst evs)) (λ _,
    do empty <- STAILQ_EMPTY;
    (if negb empty then dsa_submit_queued_tasks ;; ret tt else ret tt) ;;
    ret (Returned (if 0 <? snd evs then SPDK_POLLER_BUSY else SPDK_POLLER_IDLE))).

(** ** Device registry and selector *)

Definition TAILQ_FIRST (devs : list idxd_device) : option nat :=
  match devs with [] => None | _ :: _ => Some 0%nat end.

Definition TAILQ_NEXT (i : nat) (devs : list idxd_device) : option nat :=
  if (S i <? length devs)%nat then Some (S i) else None.

(** [attach_cb]; [allocated] tells whether [calloc] returned memory. *)
Definition attach_cb (allocated : bool) (idxd : Z) : M unit :=
  if negb allocated then
    SPDK_ERRLOG LogAllocFailed
  else
    do devs <- gets g_dsa_devices;
    do cur <- gets g_next_dev;
    (match cur with
     | None => modify (with_next_dev (Some (length devs)))
     | Some _ => ret tt
     end) ;;
    modify (λ w, with_devices (g_dsa_devices w ++ [{| dsa := idxd |}])
                   (uint32 (g_num_devices w + 1)) w).

(** The critical section of the scan: move [g_next_dev] to the next device,
    or to the first one after the last, and read it into [dev]. *)
Definition select_next_device : M (outcome nat) :=
  do cur <- gets g_next_dev;
  do devs <- gets g_dsa_devices;
  match cur with
  | None => ret NullDeref
  | Some i =>
      let next :=
        match TAILQ_NEXT i devs with
        | Some j => Some j
        | None => TAILQ_FIRST devs
        end in
      modify (with_next_dev next) ;;
      match next with
      | None => ret NullDeref
      | Some j => emit (EvCursor j) ;; ret (Returned j)
      end
  end.

Definition idxd_get_channel (j : nat) (dv : idxd_device) : M Z :=
  do ch <- (λ w, let (ch, dr) := spdk_idxd_get_channel (dsa dv) (driver w) in
                 (ch, with_driver dr w));
  modify (with_channel (set_chan ch)) ;;
  emit (EvGetChannel j ch) ;;
  ret ch.

(** The [do { ... } while (++count < g_num_devices)] loop, entered with the
    given [count]. *)
Fixpoint select_loop (fuel : nat) (socket_id : Z) (count : Z)
  : M (outcome (option nat)) :=
  match fuel with
  | O => ret OutOfFuel
  | S fuel' =>
      let next_iteration : M (outcome (option nat)) :=
        let count' := uint32 (count + 1) in
        do n <- gets g_num_devices;
        if count' <? n then select_loop fuel' socket_id count'
        else ret (Returned None) in
      do r <- select_next_device;
      match r with
      | Returned j =>
          do devs <- gets g_dsa_devices;
          match devs !! j with
          | None => ret NullDeref
          | Some dv =>
              if negb (socket_id =? spdk_idxd_get_socket (dsa dv)) then
                next_iteration
              else
                do ch <- idxd_get_channel j dv;
                if negb (ch =? NULL) then ret (Returned (Some j))
                else next_iteration
          end
      | NullDeref => ret NullDeref
      | OutOfFuel => ret OutOfFuel
      end
  end.

Definition idxd_select_device : M (outcome (option nat)) :=
  let socket_id := spdk_env_get_socket_id spdk_env_get_current_core in
  do n <- gets g_num_devices;
  do r <- select_loop (S (Z.to_nat n)) socket_id 0;
  match r with
  | Returned None => SPDK_ERRLOG LogNoMoreDevices ;; ret (Returned None)
  | _ => ret r
  end.

(** [dsa_create_cb]; registering the poller is left to the framework. *)
Definition dsa_create_cb : M (outcome Z) :=
  do r <- idxd_select_device;
  match r with
  | Returned None =>
      SPDK_ERRLOG LogFailedGetChannel ;;
      ret (Returned (- EINVAL))
  | Returned (Some j) =>
      modify (with_channel (λ c,
        set_state IDXD_CHANNEL_ACTIVE
          (set_num_outstanding 0 (set_queued_tasks [] (set_dev (Some j) c))))) ;;
      ret (Returned 0)
  | NullDeref => ret NullDeref
  | OutOfFuel => ret OutOfFuel
  end.


(** ** Histories of a channel

    The calls that reach a channel once it exists: the framework submits a
    task, the poller runs, or, one level below, the driver calls the
    completion callback and the poller drains the FIFO. *)

Inductive call :=
  | CallSubmit (task : spdk_accel_task)
  | CallPoll
  | CallDone (task : spdk_accel_task) (status : Z)
  | CallDrain.

Definition run_call (c : call) : M (outcome unit) :=
  match c with
  | CallSubmit task => dsa_submit_task task ;; ret (Returned tt)
  | CallPoll => and_then idxd_poll (λ _, ret (Returned tt))
  | CallDone task status => cb_fn task status
  | CallDrain => dsa_submit_queued_tasks ;; ret (Returned tt)
  end.

(** A history stops at the call that faults. *)
Fixpoint run (cs : list call) : M (outcome unit) :=
  match cs with
  | [] => ret (Returned tt)
  | c :: rest => and_then (run_call c) (λ _, run rest)
  end.

(** The calls of a history that were made: all of them, or the ones up to
    and including the call that faulted. *)
Fixpoint started (cs : list call) (w : world) : list call :=
  match cs with
  | [] => []
  | c :: rest =>
      c :: match fst (run_call c w) with
           | Returned _ => started rest (snd (run_call c w))
           | _ => []
           end
  end.
(** * Views used by the statements *)

(** ** Reading the log *)

Definition completions (l : list event) : list (spdk_accel_task * Z) :=
  omap (λ e, match e with EvTaskComplete t st => Some (t, st) | _ => None end) l.

Definition driver_calls (l : list event) : list (idxd_request * Z) :=
  omap (λ e, match e with EvSubmit req rc => Some (req, rc) | _ => None end) l.

Definition cursor_moves (l : list event) : list nat :=
  omap (λ e, match e with EvCursor j => Some j | _ => None end) l.

Definition channel_requests (l : list event) : list (nat * Z) :=
  omap (λ e, match e with EvGetChannel j ch => Some (j, ch) | _ => None end) l.

(** The task a driver request will be completed with. *)
Definition request_task (req : idxd_request) : spdk_accel_task :=
  match req with
  | spdk_idxd_submit_copy _ _ _ _ _ _ tok
  | spdk_idxd_submit_dualcast _ _ _ _ _ _ tok
  | spdk_idxd_submit_compare _ _ _ _ _ _ tok
  | spdk_idxd_submit_fill _ _ _ _ _ tok
  | spdk_idxd_submit_crc32c _ _ _ _ _ _ tok
  | spdk_idxd_submit_copy_crc32c _ _ _ _ _ _ _ _ tok
  | spdk_idxd_submit_dif_check _ _ _ _ _ _ tok
  | spdk_idxd_submit_dif_insert _ _ _ _ _ _ _ _ tok => tok
  end.

(** What the world looks like after the module has appended [evs] to the log
    and the driver has moved to [dr]: the channel, the registry and the
    error records are as before. *)
Definition after_driver (dr : drv) (evs : list event) (w : world) : world :=
  with_log (log w ++ evs) (with_driver dr w).

(** The events the [switch] can leave: one driver call with the return
    code; nothing, for a dual-cast that fails validation; a failed
    assertion, for an opcode without a case. *)
Inductive switch_events (task : spdk_accel_task) (rc : Z) : list event → Prop :=
  | switch_called req :
      request_task req = task → switch_events task rc [EvSubmit req rc]
  | switch_rejected :
      rc = - EINVAL → switch_events task rc []
  | switch_unknown :
      rc = - EINVAL → switch_events task rc [EvAssertFail AssertKnownOpcode].

(** The world after [_process_single_task] returned [rc]. *)
Definition after_dispatch (rc : Z) (dr : drv) (evs : list event) (w : world) : world :=
  if rc =? 0 then
    let n := uint32 (num_outstanding (channel w) + 1) in
    with_log (log w ++ evs ++ [EvTrace TRACE_ACCEL_DSA_OP_SUBMIT n])
      (with_channel (set_num_outstanding n) (with_driver dr w))
  else after_driver dr evs w.


(** The opcodes the hardware runs without any platform requirement, and the
    ones that need the IOMMU. *)
Definition always_offloaded (opc : spdk_accel_opcode) : Prop :=
  opc = SPDK_ACCEL_OPC_COPY ∨ opc = SPDK_ACCEL_OPC_FILL
  ∨ opc = SPDK_ACCEL_OPC_DUALCAST ∨ opc = SPDK_ACCEL_OPC_COMPARE
  ∨ opc = SPDK_ACCEL_OPC_CRC32C ∨ opc = SPDK_ACCEL_OPC_COPY_CRC32C.

Definition needs_iommu (opc : spdk_accel_opcode) : Prop :=
  opc = SPDK_ACCEL_OPC_DIF_VERIFY ∨ opc = SPDK_ACCEL_OPC_DIF_GENERATE_COPY.

(** A dual-cast task whose buffers do not have the shape the hardware
    needs: some descriptor is not exactly one region, or the three regions
    differ in length. *)
Definition dualcast_malformed (task : spdk_accel_task) : Prop :=
  iovcnt (s task) ≠ 1 ∨ iovcnt (d task) ≠ 1 ∨ iovcnt (d2 task) ≠ 1
  ∨ ¬ (iov_len (iovs0 (s task)) = iov_len (iovs0 (d task))
       ∧ iov_len (iovs0 (d task)) = iov_len (iovs0 (d2 task))).

(** The world with [task] at the tail of the FIFO, with the head of the FIFO
    removed, and with [task] completed. *)
Definition enqueued (task : spdk_accel_task) (w : world) : world :=
  with_channel (λ c, set_queued_tasks (queued_tasks c ++ [task]) c) w.

Definition dequeued (w : world) : world :=
  with_channel (λ c, set_queued_tasks (tail (queued_tasks c)) c) w.

Definition completed (task : spdk_accel_task) (status : Z) (w : world) : world :=
  with_log (log w ++ [EvTaskComplete task status]) w.

(** The world after a drain of a channel in the ERROR state: every queued
    task completed with -EINVAL, in order, and the FIFO empty. *)
Definition all_failed (w : world) : world :=
  with_log (log w ++ map (λ t, EvTaskComplete t (- EINVAL)) (queued_tasks (channel w)))
    (with_channel (set_queued_tasks []) w).

(** One increment of the [uint32_t] counter. *)
Definition incr32 (n : Z) : Z := uint32 (n + 1).

(** [status == -EIO && op_code == SPDK_ACCEL_OPC_DIF_VERIFY]. *)
Definition needs_software_verify (task : spdk_accel_task) (status : Z) : bool :=
  (status =? - EIO)
  && match op_code task with SPDK_ACCEL_OPC_DIF_VERIFY => true | _ => false end.

(** The software DIF check [dsa_done] runs for [task], what it leaves in
    the callers' error records, and what the module logs around it. *)
Definition software_verify (task : spdk_accel_task) (w : world)
  : Z * option spdk_dif_error :=
  spdk_dif_verify (iovs (s task)) (int_of_uint32 (iovcnt (s task)))
    (num_blocks (dif task)) (dif_ctx (dif task)) (dif_err (dif task)) (driver w).

Definition verified_mem (task : spdk_accel_task) (w : world)
  : gmap Z spdk_dif_error :=
  match snd (software_verify task w) with
  | Some e =>
      if dif_err (dif task) =? NULL then mem w
      else <[dif_err (dif task) := e]> (mem w)
  | None => mem w
  end.

(** The call of the software check, as logged. *)
Definition verify_call (task : spdk_accel_task) (w : world) : event :=
  EvDifVerify (iovs (s task)) (int_of_uint32 (iovcnt (s task)))
    (num_blocks (dif task)) (dif_ctx (dif task)) (dif_err (dif task))
    (fst (software_verify task w)).

(** [dsa_done] reads through a null pointer: the software check ran and
    failed, and the task has no error record. *)
Definition done_faults (task : spdk_accel_task) (status : Z) (w : world) : bool :=
  needs_software_verify task status
  && negb (fst (software_verify task w) =? 0)
  && (dif_err (dif task) =? NULL).

Definition verify_events (task : spdk_accel_task) (w : world) : list event :=
  verify_call task w
  :: (if fst (software_verify task w) =? 0 then []
      else if dif_err (dif task) =? NULL then []
      else [EvErrlog (LogDifError (verified_mem task w !! dif_err (dif task)))]).

(** What every run of [dsa_done] that gets past the software check ends
    with, when it finds [n] operations outstanding. *)
Definition done_events (task : spdk_accel_task) (status n : Z) : list event :=
  (if 0 <? n then [] else [EvAssertFail AssertOutstandingPositive])
  ++ [EvTrace TRACE_ACCEL_DSA_OP_COMPLETE (uint32 (n - 1));
      EvTaskComplete task status].

Definition done_outcome (task : spdk_accel_task) (status : Z) (w : world)
  : outcome unit :=
  if done_faults task status w then NullDeref else Returned tt.

Definition after_done (task : spdk_accel_task) (status : Z) (w : world) : world :=
  let n := num_outstanding (channel w) in
  let verify := needs_software_verify task status in
  if done_faults task status w then
    with_log (log w ++ [verify_call task w]) w
  else
    with_log (log w ++ (if verify then verify_events task w else [])
                    ++ done_events task status n)
      (with_channel (set_num_outstanding (uint32 (n - 1)))
         (with_mem (if verify then verified_mem task w else mem w) w)).

(** ** Counting operations in the log *)

(** Operations the hardware accepted: driver submissions that returned 0.
    Completions observed: calls of the completion callback by the driver.
    Both are logged by the caller's side of the interface, not by the code
    that moves the counter. *)
Definition is_accepted (e : event) : bool :=
  match e with EvSubmit _ rc => rc =? 0 | _ => false end.

Definition is_observed (e : event) : bool :=
  match e with EvCallback _ _ => true | _ => false end.

Fixpoint count_events (p : event → bool) (l : list event) : Z :=
  match l with
  | [] => 0
  | e :: l' => (if p e then 1 else 0) + count_events p l'
  end.

Definition accepted (l : list event) : Z := count_events is_accepted l.
Definition observed (l : list event) : Z := count_events is_observed l.

(** The driver keeps its side of the contract along a log that starts with
    [n] operations in flight: it never reports more completions than it
    accepted operations, and it never has more than [UINT32_MAX] operations
    in flight. *)
Fixpoint in_flight_ok (n : Z) (l : list event) : bool :=
  match l with
  | [] => true
  | e :: l' =>
      let n' := n + (if is_accepted e then 1 else 0)
                  - (if is_observed e then 1 else 0) in
      (0 <=? n') && (n' <=? UINT32_MAX) && in_flight_ok n' l'
  end.

(** What the module has logged since the log was [before]. *)
Definition events_since (before : list event) (w : world) : list event :=
  drop (length before) (log w).

(** The callback that faulted was called and did not get to its
    decrement. *)
Definition faulted {A} (r : outcome A) : Z :=
  match r with Returned _ => 0 | _ => 1 end.

(** A computation keeps the count: along a log where the driver keeps its
    contract, [num_outstanding] moves with the operations in flight and the
    assertion of [dsa_done] holds.  [lost] tells from the result whether a
    callback faulted. *)
Definition keeps_count_with {A} (lost : A → Z) (m : State world A) : Prop :=
  ∀ w, ∃ evs,
    log (snd (m w)) = log w ++ evs
    ∧ (in_flight_ok (num_outstanding (channel w)) evs = true →
       num_outstanding (channel (snd (m w)))
       = num_outstanding (channel w) + accepted evs - observed evs
         + lost (fst (m w))
       ∧ EvAssertFail AssertOutstandingPositive ∉ evs).

Definition keeps_count {A} (m : State world A) : Prop :=
  keeps_count_with (λ _, 0) m.

(** The counter holds a [uint32_t]. *)
Definition counter_in_range (w w' : world) : Prop :=
  0 ≤ num_outstanding (channel w) ≤ UINT32_MAX →
  0 ≤ num_outstanding (channel w') ≤ UINT32_MAX.

(** ** The device scan *)

(** The registry as [accel_dsa_init] leaves it: the cursor points into the
    device list and [g_num_devices] is the length of the list. *)
Definition registry_wf (w : world) : bool :=
  match g_next_dev w with
  | Some i =>
      (i <? length (g_dsa_devices w))%nat
      && (g_num_devices w =? Z.of_nat (length (g_dsa_devices w)))
      && (g_num_devices w <=? UINT32_MAX)
  | None => false
  end.

(** Device [j] of the list is in the locality domain [socket]. *)
Definition on_domain (socket : Z) (devs : list idxd_device) (j : nat) : Prop :=
  ∃ dv, devs !! j = Some dv ∧ spdk_idxd_get_socket (dsa dv) = socket.

(** The first [m] steps of the round robin over [n] devices that starts
    after device [i]. *)
Definition scan_order (i n m : nat) : list nat :=
  map (λ k, (i + 1 + k) mod n)%nat (seq 0 m).

(** What a scan that started with the cursor on device [i] and at most
    [budget] iterations to go has done when it returns [r] in world [w']:
    it moved the cursor [m] times, round robin; it asked for a channel on
    devices of the domain only; it returns the device that granted one, or
    nothing once the budget is used up and every request was denied. *)
Definition scan_result (socket : Z) (i : nat) (budget : Z) (w : world)
    (r : option nat) (w' : world) : Prop :=
  let devs := g_dsa_devices w in
  let n := length devs in
  ∃ evs (m : nat),
    log w' = log w ++ evs
    ∧ g_dsa_devices w' = devs
    ∧ g_num_devices w' = g_num_devices w
    ∧ (1 ≤ m)%nat ∧ Z.of_nat m ≤ budget
    ∧ cursor_moves evs = scan_order i n m
    ∧ g_next_dev w' = Some ((i + m) mod n)%nat
    ∧ Forall (λ jc, on_domain socket devs (fst jc)) (channel_requests evs)
    ∧ match r with
      | Some j =>
          j = ((i + m) mod n)%nat
          ∧ on_domain socket devs j
          ∧ chan (channel w') ≠ NULL
          ∧ ∃ denied, channel_requests evs = denied ++ [(j, chan (channel w'))]
                      ∧ Forall (λ jc, snd jc = NULL) denied
      | None =>
          Z.of_nat m = budget
          ∧ Forall (λ jc, snd jc = NULL) (channel_requests evs)
      end.

(** * The rest of the module: definitions *)

(** ** Relations that whole computations keep *)

(** Every run of [m] takes a world to a world related to it by [R]. *)
Definition steps_in {A} (R : world → world → Prop) (m : State world A) : Prop :=
  ∀ w, R w (snd (m w)).

(** The binding of the channel: its health state, its driver channel and
    its device. *)
Definition same_binding (w w' : world) : Prop :=
  state (channel w') = state (channel w)
  ∧ chan (channel w') = chan (channel w)
  ∧ dev (channel w') = dev (channel w).

(** ** Which tasks reach the hardware *)

(** The two checks of [idxd_submit_dualcast], both passed. *)
Definition dualcast_shape_ok (task : spdk_accel_task) : bool :=
  negb (negb (iovcnt (d task) =? 1) || negb (iovcnt (d2 task) =? 1)
        || negb (iovcnt (s task) =? 1))
  && negb (negb (iov_len (iovs0 (d task)) =? iov_len (iovs0 (s task)))
           || negb (iov_len (iovs0 (d task)) =? iov_len (iovs0 (d2 task)))).

(** The tasks for which the [switch] of [_process_single_task] ends in a
    driver call: the opcode has a case, and a dual-cast has the right
    shape. *)
Definition reaches_driver (task : spdk_accel_task) : bool :=
  match op_code task with
  | SPDK_ACCEL_OPC_OTHER _ => false
  | SPDK_ACCEL_OPC_DUALCAST => dualcast_shape_ok task
  | _ => true
  end.

(** The tasks the driver was given for good, in the order of the log: the
    submissions it answered with anything but -EBUSY. *)
Definition dispatched (l : list event) : list spdk_accel_task :=
  omap (λ e, match e with
             | EvSubmit req rc =>
                 if rc =? - EBUSY then None else Some (request_task req)
             | _ => None
             end) l.

(** The log holds a submission the driver answered with -EBUSY. *)
Definition scarcity_logged (l : list event) : Prop :=
  ∃ req, EvSubmit req (- EBUSY) ∈ l.

(** The tasks a history submits, in order. *)
Definition submitted (cs : list call) : list spdk_accel_task :=
  omap (λ c, match c with CallSubmit t => Some t | _ => None end) cs.

(** ** Building the registry *)

Definition with_initialized (b : bool) (w : world) : world :=
  {| g_dsa_initialized := b; g_dsa_devices := g_dsa_devices w;
     g_next_dev := g_next_dev w; g_num_devices := g_num_devices w;
     channel := channel w; driver := driver w; mem := mem w; log := log w |}.

(** The registry before any device is attached. *)
Definition registry_pristine (w : world) : Prop :=
  g_dsa_devices w = [] ∧ g_next_dev w = None ∧ g_num_devices w = 0.

(** The calls of [attach_cb] one probe makes: for each device the driver
    attaches, whether [calloc] returns memory, and the device handle. *)
Fixpoint attach_all (ds : list (bool * Z)) : M unit :=
  match ds with
  | [] => ret tt
  | (allocated, idxd) :: rest => attach_cb allocated idxd ;; attach_all rest
  end.

(** The devices of [ds] that end up in the list. *)
Definition attached_devices (ds : list (bool * Z)) : list idxd_device :=
  omap (λ d : bool * Z, if fst d then Some {| dsa := snd d |} else None) ds.

(** ** The FIFO along a history *)

(** What a computation on an active channel does to the FIFO when
    [arrivals] are the tasks submitted meanwhile: the tasks [P] that left
    did so from the head, the arrivals joined at the tail, the tasks of [P]
    that reach the driver were given to it in that order, and the FIFO is
    only populated when it was already or when the driver reported
    scarcity. *)
Definition fifo_step (arrivals : list spdk_accel_task) (w w' : world) : Prop :=
  state (channel w) = IDXD_CHANNEL_ACTIVE →
  ∃ P evs,
    log w' = log w ++ evs
    ∧ state (channel w') = state (channel w)
    ∧ queued_tasks (channel w) ++ arrivals = P ++ queued_tasks (channel w')
    ∧ dispatched evs = List.filter reaches_driver P
    ∧ (queued_tasks (channel w') ≠ [] →
       queued_tasks (channel w) ≠ [] ∨ scarcity_logged evs).

(** ** What a device scan leaves alone *)

(** Everything but the cursor, the driver, the log and [chan->chan]. *)
Definition scan_frame (w w' : world) : Prop :=
  g_dsa_initialized w' = g_dsa_initialized w
  ∧ g_dsa_devices w' = g_dsa_devices w
  ∧ g_num_devices w' = g_num_devices w
  ∧ mem w' = mem w
  ∧ state (channel w') = state (channel w)
  ∧ dev (channel w') = dev (channel w)
  ∧ num_outstanding (channel w') = num_outstanding (channel w)
  ∧ queued_tasks (channel w') = queued_tasks (channel w).

(** [chan->chan] holds the answer to the last channel request logged since
    [w], and is as in [w] when there was none. *)
Definition chan_follows_requests (w w' : world) : Prop :=
  ∃ evs, log w' = log w ++ evs
         ∧ chan (channel w')
           = match last (channel_requests evs) with
             | Some jc => snd jc
             | None => chan (channel w)
             end.

(** ** Creating channels one after the other *)

Fixpoint create_many (k : nat) : M (list (outcome Z)) :=
  match k with
  | O => ret []
  | S k' =>
      do r <- dsa_create_cb;
      do rs <- create_many k';
      ret (r :: rs)
  end.
End Model.


(** * Module lifecycle: enabling, initialisation, teardown, configuration

    These functions use two more globals, [g_dsa_enable] and
    [g_kernel_mode], and more of the driver and of the framework.  They run
    on a [module]: the two globals, the [world] of the first part, and the
    calls made to the outside, in order. *)

Definition EALREADY : Z := 114.

(** The calls of the JSON writer the module makes. *)
Inductive json_write :=
  | spdk_json_write_object_begin
  | spdk_json_write_named_string (name val : string)
  | spdk_json_write_named_object_begin (name : string)
  | spdk_json_write_named_bool (name : string) (val : bool)
  | spdk_json_write_object_end.

(** Calls to the framework and to the teardown side of the driver. *)
Inductive outside_call :=
  | spdk_accel_module_list_add
  | spdk_io_device_register
  | spdk_io_device_unregister
  | spdk_accel_module_finish
  | spdk_poller_unregister
  | spdk_idxd_detach_call (dsa_handle : Z)
  | spdk_idxd_put_channel_call (ch : Z)
  | errlog_probe_failed
  | json (j : json_write).

(** The rest of the driver interface.  [spdk_idxd_probe] is given the
    module's [probe_cb]; it returns the devices it attaches, each with the
    outcome of the [calloc] in [attach_cb], and its return code.
    [PCI_DEVICE_ID_INTEL_DSA] comes from the PCI id header. *)
Class Platform {E : Env} := {
  PCI_DEVICE_ID_INTEL_DSA : Z;
  spdk_idxd_set_config : bool → drv → Z * drv;
  spdk_idxd_probe : (Z → bool) → drv → list (bool * Z) * Z * drv;
  spdk_idxd_detach : Z → drv → drv;
  spdk_idxd_put_channel : Z → drv → drv
}.

Section Lifecycle.
Context {E : Env} {P : Platform}.

Record module := {
  g_dsa_enable : bool;
  g_kernel_mode : bool;
  core : world;
  outside : list outside_call
}.

Definition with_core (w : world) (md : module) : module :=
  {| g_dsa_enable := g_dsa_enable md; g_kernel_mode := g_kernel_mode md;
     core := w; outside := outside md |}.

Definition with_enable (enable kernel_mode : bool) (md : module) : module :=
  {| g_dsa_enable := enable; g_kernel_mode := kernel_mode;
     core := core md; outside := outside md |}.

Definition with_outside (l : list outside_call) (md : module) : module :=
  {| g_dsa_enable := g_dsa_enable md; g_kernel_mode := g_kernel_mode md;
     core := core md; outside := l |}.

Local Abbreviation L := (State module).

(** A computation of the first part, run on the world of the module. *)
Definition on_core {A} (m : State world A) : L A :=
  λ md, let (a, w) := m (core md) in (a, with_core w md).

Definition call_outside (c : outside_call) : L unit :=
  modify (λ md, with_outside (outside md ++ [c]) md).

(** A driver call that only changes the driver. *)
Definition on_driver (f : drv → drv) : L unit :=
  on_core (modify (λ w, with_driver (f (driver w)) w)).

(** [probe_cb]; the PCI device is its device id. *)
Definition probe_cb (device_id : Z) : bool :=
  if device_id =? PCI_DEVICE_ID_INTEL_DSA then true else false.

Definition accel_dsa_enable_probe (kernel_mode : bool) : L Z :=
  do enabled <- gets g_dsa_enable;
  if enabled then ret (- EALREADY)
  else
    do rc <- on_core (λ w, let (rc, dr) := spdk_idxd_set_config kernel_mode (driver w) in
                           (rc, with_driver dr w));
    if negb (rc =? 0) then ret rc
    else
      call_outside spdk_accel_module_list_add ;;
      modify (with_enable true kernel_mode) ;;
      ret 0.

Definition accel_dsa_init : L Z :=
  do enabled <- gets g_dsa_enable;
  if negb enabled then ret (- EINVAL)
  else
    do probed <- on_core (λ w, let '(ds, rc, dr) := spdk_idxd_probe probe_cb (driver w) in
                               ((ds, rc), with_driver dr w));
    on_core (attach_all (fst probed)) ;;
    if negb (snd probed =? 0) then
      call_outside errlog_probe_failed ;;
      ret (- EINVAL)
    else
      do devs <- gets (λ md, g_dsa_devices (core md));
      match devs with
      | [] => ret (- ENODEV)
      | _ :: _ =>
          on_core (modify (with_initialized true)) ;;
          call_outside spdk_io_device_register ;;
          ret 0
      end.

(** [while (!TAILQ_EMPTY(&g_dsa_devices)) { ... }] of [accel_dsa_exit].
    Every iteration removes the first device, so the length of the list is
    enough fuel.  The loop writes neither [g_next_dev] nor [g_num_devices]. *)
Fixpoint detach_devices (fuel : nat) : L unit :=
  match fuel with
  | O => ret tt
  | S fuel' =>
      do devs <- gets (λ md, g_dsa_devices (core md));
      match devs with
      | [] => ret tt
      | dv :: rest =>
          on_core (modify (λ w, with_devices rest (g_num_devices w) w)) ;;
          on_driver (spdk_idxd_detach (dsa dv)) ;;
          call_outside (spdk_idxd_detach_call (dsa dv)) ;;
          detach_devices fuel'
      end
  end.

Definition accel_dsa_exit : L unit :=
  do initialized <- gets (λ md, g_dsa_initialized (core md));
  (if initialized then
     call_outside spdk_io_device_unregister ;;
     on_core (modify (with_initialized false))
   else ret tt) ;;
  do devs <- gets (λ md, g_dsa_devices (core md));
  detach_devices (length devs) ;;
  call_outside spdk_accel_module_finish.

Definition accel_dsa_write_config_json : L unit :=
  do enabled <- gets g_dsa_enable;
  if enabled then
    do km <- gets g_kernel_mode;
    call_outside (json spdk_json_write_object_begin) ;;
    call_outside (json (spdk_json_write_named_string "method" "dsa_scan_accel_module")) ;;
    call_outside (json (spdk_json_write_named_object_begin "params")) ;;
    call_outside (json (spdk_json_write_named_bool "config_kernel_mode" km)) ;;
    call_outside (json spdk_json_write_object_end) ;;
    call_outside (json spdk_json_write_object_end)
  else ret tt.

Definition dsa_destroy_cb : L unit :=
  call_outside spdk_poller_unregister ;;
  do ch <- gets (λ md, chan (channel (core md)));
  on_driver (spdk_idxd_put_channel ch) ;;
  call_outside (spdk_idxd_put_channel_call ch).

(** What the probe of [accel_dsa_init] reports on a module: the devices
    that end up in the list, the return code, the driver afterwards. *)
Definition probed (md : module) : list (bool * Z) * Z * drv :=
  spdk_idxd_probe probe_cb (driver (core md)).

Definition found (md : module) : list idxd_device :=
  attached_devices (fst (fst (probed md))).

Definition probe_rc (md : module) : Z := snd (fst (probed md)).

(** The driver after it detached the devices of [devs], first to last. *)
Definition detach_all (devs : list idxd_device) (dr : drv) : drv :=
  foldl (λ dr dv, spdk_idxd_detach (dsa dv) dr) dr devs.

(** The outside calls made since the module was [md]. *)
Definition outside_since (md md' : module) : list outside_call :=
  drop (length (outside md)) (outside md').

(** The JSON the module has written. *)
Definition json_written (l : list outside_call) : list json_write :=
  omap (λ c, match c with json j => Some j | _ => None end) l.

(** The devices the module has detached, in order. *)
Definition detached (l : list outside_call) : list Z :=
  omap (λ c, match c with spdk_idxd_detach_call h => Some h | _ => None end) l.

End Lifecycle.
(** ** A simulated platform

    Device handles [10 * socket + k]; every device binds at most
    [sim_channel_cap] channels; submissions return the codes of a script
    and are accepted once the script is used up; each poll reports the next
    batch of scripted completions. *)

Record sim_drv := {
  sim_script : list Z;
  sim_bound : gmap Z nat;
  sim_completions : list (list (spdk_accel_task * Z))
}.

Definition sim_channel_cap : nat := 2.

Definition sim_get_channel (h : Z) (st : sim_drv) : Z * sim_drv :=
  let n := default 0%nat (sim_bound st !! h) in
  if (n <? sim_channel_cap)%nat then
    (100 * h + Z.of_nat n + 1,
     {| sim_script := sim_script st; sim_bound := <[h := S n]> (sim_bound st);
        sim_completions := sim_completions st |})
  else (NULL, st).

Definition sim_submit (req : idxd_request) (st : sim_drv) : Z * sim_drv :=
  match sim_script st with
  | [] => (0, st)
  | rc :: rest =>
      (rc, {| sim_script := rest; sim_bound := sim_bound st;
              sim_completions := sim_completions st |})
  end.

Definition sim_process_events (ch : Z) (st : sim_drv)
  : list (spdk_accel_task * Z) * Z * sim_drv :=
  match sim_completions st with
  | [] => ([], 0, st)
  | batch :: rest =>
      (batch, Z.of_nat (length batch),
       {| sim_script := sim_script st; sim_bound := sim_bound st;
          sim_completions := rest |})
  end.

(** A software DIF check that always finds a guard error at offset 3. *)
Definition sim_dif_error : spdk_dif_error :=
  {| err_type := 1; expected := 43981; actual := 0; err_offset := 3 |}.

Definition sim_env (socket : Z) (iommu : bool) : Env := {|
  drv := sim_drv;
  spdk_idxd_get_socket := λ h, h / 10;
  spdk_idxd_get_channel := sim_get_channel;
  spdk_idxd_submit := sim_submit;
  spdk_idxd_process_events := sim_process_events;
  spdk_env_get_current_core := 0;
  spdk_env_get_socket_id := λ _, socket;
  spdk_dif_verify := λ _ _ _ _ _ _, (- 1, Some sim_dif_error);
  spdk_iommu_is_enabled := iommu
|}.

Definition sim_task (id : Z) (opc : spdk_accel_opcode) : spdk_accel_task :=
  let buf := {| iovs := [{| iov_base := 4096 * id; iov_len := 512 |}]; iovcnt := 1 |} in
  {| cb_arg := id; op_code := opc; s := buf; s2 := buf; d := buf; d2 := buf;
     fill_pattern := 0; seed := 0; crc_dst := 0;
     dif := {| dif_ctx := 64; dif_err := 128 + id; num_blocks := 1 |} |}.

Definition sim_channel (st : channel_state) (q : list spdk_accel_task) : idxd_io_channel :=
  {| chan := 1001; dev := Some 0%nat; state := st; num_outstanding := 0;
     queued_tasks := q |}.

Definition sim_driver (script : list Z)
    (cpls : list (list (spdk_accel_task * Z))) : sim_drv :=
  {| sim_script := script; sim_bound := ∅; sim_completions := cpls |}.

Definition sim_devices : list idxd_device :=
  [{| dsa := 10 |}; {| dsa := 20 |}; {| dsa := 11 |}].

(** The platform seen from a thread on socket 1, with the IOMMU on: three
    devices, the second one on socket 2, and the cursor on the first. *)
Abbreviation sim := (sim_env 1 true).

Definition sim_world (script : list Z) (cpls : list (list (spdk_accel_task * Z)))
    (c : idxd_io_channel) : @world sim :=
  @Build_world sim true sim_devices (Some 0%nat) 3 c (sim_driver script cpls) ∅ [].

(** The module before [accel_dsa_init]: no device, nothing initialised. *)
Definition sim_world_uninitialized : @world sim :=
  @Build_world sim false [] None 0 (sim_channel IDXD_CHANNEL_ACTIVE [])
    (sim_driver [] []) ∅ [].

Definition T1 : spdk_accel_task := sim_task 1 SPDK_ACCEL_OPC_COPY.
Definition T2 : spdk_accel_task := sim_task 2 SPDK_ACCEL_OPC_DIF_VERIFY.
Definition T3 : spdk_accel_task := sim_task 3 SPDK_ACCEL_OPC_FILL.

(** A dual-cast task whose destination has two regions. *)
Definition T_dualcast_bad : spdk_accel_task :=
  {| cb_arg := 4; op_code := SPDK_ACCEL_OPC_DUALCAST;
     s := s T1; s2 := s2 T1;
     d := {| iovs := [{| iov_base := 0; iov_len := 256 |};
                      {| iov_base := 256; iov_len := 256 |}]; iovcnt := 2 |};
     d2 := d2 T1; fill_pattern := 0; seed := 0; crc_dst := 0; dif := dif T1 |}.

(** Scenario A: a backlog of three tasks; the hardware is full at the first
    drain, then takes one task and is full again. *)
Definition scenario_a : @world sim :=
  sim_world [- EBUSY; 0; - EBUSY] [] (sim_channel IDXD_CHANNEL_ACTIVE [T1; T2; T3]).

(** A channel in the ERROR state with a backlog. *)
Definition scenario_error : @world sim :=
  sim_world [] [] (sim_channel IDXD_CHANNEL_ERROR [T1; T2]).

(** An idle channel on hardware that refuses the first submission with
    -ENODEV. *)
Definition scenario_idle : @world sim :=
  sim_world [- ENODEV] [] (sim_channel IDXD_CHANNEL_ACTIVE []).

(** [T2] has been accepted by the hardware and is in flight. *)
Definition scenario_in_flight : @world sim :=
  snd (dsa_submit_task T2 (sim_world [] [] (sim_channel IDXD_CHANNEL_ACTIVE []))).

(** A DIF verify task that comes without an error record. *)
Definition T_no_record : spdk_accel_task :=
  {| cb_arg := 5; op_code := SPDK_ACCEL_OPC_DIF_VERIFY;
     s := s T2; s2 := s2 T2; d := d T2; d2 := d2 T2;
     fill_pattern := 0; seed := 0; crc_dst := 0;
     dif := {| dif_ctx := 64; dif_err := NULL; num_blocks := 1 |} |}.

(** [T_no_record] has been accepted by the hardware and is in flight. *)
Definition scenario_no_record : @world sim :=
  snd (dsa_submit_task T_no_record
         (sim_world [] [] (sim_channel IDXD_CHANNEL_ACTIVE []))).

(** A history: the hardware accepts [T1], is full for [T2], later reports
    [T1] done and takes the backlog, then reports [T2] failed with -EIO.
    Before [dsa_create_cb] the channel context holds leftovers. *)
Definition history_start : @world sim :=
  sim_world [0; - EBUSY] [[(T1, 0)]; [(T2, - EIO)]]
    (sim_channel IDXD_CHANNEL_ERROR [T3]).

Definition history : list call :=
  [CallSubmit T1; CallSubmit T2; CallSubmit T3; CallPoll; CallPoll].

(** Creating a channel [k] times in a row. *)
Fixpoint create_channels (k : nat) (w : @world sim) : list (outcome Z) * @world sim :=
  match k with
  | O => ([], w)
  | S k' =>
      let (r, w1) := dsa_create_cb w in
      let (rs, w2) := create_channels k' w1 in
      (r :: rs, w2)
  end.

(** ** The simulated platform, continued *)

Definition sim_put_channel (ch : Z) (st : sim_drv) : sim_drv :=
  let h := ch / 100 in
  {| sim_script := sim_script st;
     sim_bound := <[h := pred (default 0%nat (sim_bound st !! h))]> (sim_bound st);
     sim_completions := sim_completions st |}.

(** The probe finds four devices; the allocation for the third fails. *)
Definition sim_probed : list (bool * Z) :=
  [(true, 10); (true, 20); (false, 30); (true, 11)].

#[global] Instance sim_platform : @Platform sim :=
  @Build_Platform sim 2853
    (λ _ (st : sim_drv), (0, st))
    (λ _ (st : sim_drv), (sim_probed, 0, st))
    (λ _ (st : sim_drv), st)
    sim_put_channel.

(** The module as the program starts: nothing enabled, no device. *)
Definition sim_module : @module sim :=
  @Build_module sim false false sim_world_uninitialized [].

(** A module around a world of the first part. *)
Definition sim_module_of (w : @world sim) : @module sim :=
  @Build_module sim true false w [].

(** A history that ends with a backlog: the hardware is full for [T1]. *)
Definition scenario_backlog : @world sim :=
  sim_world [- EBUSY] [] (sim_channel IDXD_CHANNEL_ACTIVE []).

(** The module after [accel_dsa_enable_probe false]. *)
Definition sim_module_enabled : @module sim :=
  snd (accel_dsa_enable_probe false sim_module).

(** A thread submits two tasks and polls once. *)
Definition backlog_history : list call :=
  [CallSubmit T1; CallSubmit T2; CallPoll].
(** * Properties *)

Section Properties.
Context {E : Env}.
Implicit Types (w : world) (task t : spdk_accel_task) (q : list spdk_accel_task).

Local Abbreviation M := (State world).

Lemma after_driver_nil w : after_driver (driver w) [] w = w.
Proof. destruct w; unfold after_driver; simpl. by rewrite app_nil_r. Qed.

Lemma idxd_submit_spec req w :
  ∃ dr, idxd_submit req w
        = (fst (spdk_idxd_submit req (driver w)),
           after_driver dr [EvSubmit req (fst (spdk_idxd_submit req (driver w)))] w).
Proof.
  unfold idxd_submit. destruct (spdk_idxd_submit req (driver w)) as [rc dr].
  by exists dr.
Qed.

Lemma idxd_submit_dualcast_spec task flags w :
  ∃ rc dr evs, idxd_submit_dualcast task flags w = (rc, after_driver dr evs w)
               ∧ switch_events task rc evs.
Proof.
  unfold idxd_submit_dualcast.
  destruct (_ || _ || _).
  { exists (- EINVAL), (driver w), []. rewrite after_driver_nil.
    split; [done | by constructor]. }
  destruct (_ || _).
  { exists (- EINVAL), (driver w), []. rewrite after_driver_nil.
    split; [done | by constructor]. }
  unfold bind, gets.
  match goal with |- context [idxd_submit ?r w] =>
    destruct (idxd_submit_spec r w) as [dr ->] end.
  eexists _, dr, _. split; [done | by constructor].
Qed.

Lemma process_switch_spec task flags w :
  ∃ rc dr evs, process_switch task flags w = (rc, after_driver dr evs w)
               ∧ switch_events task rc evs.
Proof.
  unfold process_switch, bind, gets.
  destruct (op_code task);
    try (match goal with |- context [idxd_submit ?r w] =>
           destruct (idxd_submit_spec r w) as [dr ->] end;
         eexists _, dr, _; split; [done | by constructor]).
  - apply idxd_submit_dualcast_spec.
  - exists (- EINVAL), (driver w), [EvAssertFail AssertKnownOpcode].
    split; [done | by constructor].
Qed.

Lemma process_single_task_spec task w :
  ∃ rc dr evs, _process_single_task task w = (rc, after_dispatch rc dr evs w)
               ∧ switch_events task rc evs.
Proof.
  destruct (process_switch_spec task 0 w) as (rc & dr & evs & Hsw & Hev).
  exists rc, dr, evs. split; [|done].
  unfold _process_single_task, bind. rewrite Hsw.
  unfold after_dispatch. destruct (rc =? 0); [|done].
  unfold modify, gets, spdk_trace_record, emit, modify, after_driver; simpl.
  by rewrite <- app_assoc.
Qed.


(** ** Capability query *)

(** C7.  The capability query of an initialised module (a query before
    initialisation is a contract violation, which the function guards with
    an assertion) answers true for copy, fill, dual-cast, compare, crc32c
    and copy+crc32c whatever the platform; for DIF verify and DIF
    generate-copy it answers whether the IOMMU is enabled; for every other
    opcode it answers false.  It changes nothing. *)
Theorem dsa_supports_opcode_initialized w opc :
  g_dsa_initialized w = true →
  snd (dsa_supports_opcode opc w) = w
  ∧ (always_offloaded opc → fst (dsa_supports_opcode opc w) = true)
  ∧ (needs_iommu opc → fst (dsa_supports_opcode opc w) = spdk_iommu_is_enabled)
  ∧ (¬ always_offloaded opc → ¬ needs_iommu opc →
     fst (dsa_supports_opcode opc w) = false).
Proof.
  intros Hinit. unfold dsa_supports_opcode, bind, gets. rewrite Hinit. simpl.
  unfold always_offloaded, needs_iommu.
  destruct opc; simpl; (split; [done|]);
    (split; [intros H; by repeat destruct H as [H|H]|]);
    (split; [intros H; by repeat destruct H as [H|H]|]);
    intros H1 H2; try done; exfalso; try (apply H1; tauto); apply H2; tauto.
Qed.

(** Before initialisation the query answers false for every opcode and
    trips its assertion. *)
Lemma dsa_supports_opcode_uninitialized w opc :
  g_dsa_initialized w = false →
  dsa_supports_opcode opc w
  = (false, with_log (log w ++ [EvAssertFail AssertInitialized]) w).
Proof.
  intros Hinit. unfold dsa_supports_opcode, bind, gets. by rewrite Hinit.
Qed.

(** ** Dual-cast validation *)

Lemma dualcast_malformed_guard task :
  dualcast_malformed task →
  negb (iovcnt (d task) =? 1) || negb (iovcnt (d2 task) =? 1)
    || negb (iovcnt (s task) =? 1) = true
  ∨ negb (iov_len (iovs0 (d task)) =? iov_len (iovs0 (s task)))
    || negb (iov_len (iovs0 (d task)) =? iov_len (iovs0 (d2 task))) = true.
Proof.
  unfold dualcast_malformed.
  destruct (Z.eqb_spec (iovcnt (d task)) 1), (Z.eqb_spec (iovcnt (d2 task)) 1),
    (Z.eqb_spec (iovcnt (s task)) 1); simpl; try tauto.
  destruct (Z.eqb_spec (iov_len (iovs0 (d task))) (iov_len (iovs0 (s task)))),
    (Z.eqb_spec (iov_len (iovs0 (d task))) (iov_len (iovs0 (d2 task))));
    simpl; try tauto.
  intros [?|[?|[?|H]]]; try done. exfalso. apply H. split; congruence.
Qed.

(** C6.  A dual-cast task with a source, destination or second destination
    that is not exactly one region, or with regions of different lengths, is
    refused with -EINVAL by the dual-cast helper and by the dispatcher, and
    the world is as before: the driver was not called (its state and the
    log are unchanged) and nothing became outstanding. *)
Theorem dualcast_validation task flags w :
  dualcast_malformed task →
  idxd_submit_dualcast task flags w = (- EINVAL, w)
  ∧ (op_code task = SPDK_ACCEL_OPC_DUALCAST →
     _process_single_task task w = (- EINVAL, w)).
Proof.
  intros Hbad.
  assert (Hd : ∀ fl, idxd_submit_dualcast task fl w = (- EINVAL, w)).
  { intros fl. unfold idxd_submit_dualcast.
    destruct (dualcast_malformed_guard task Hbad) as [->| H]; [done|].
    rewrite H. by destruct (_ || _ || _). }
  split; [apply Hd|].
  intros Hop. unfold _process_single_task, process_switch, bind, gets.
  rewrite Hop, Hd. reflexivity.
Qed.

(** ** Submission *)

Lemma after_dispatch_channel rc dr evs w :
  state (channel (after_dispatch rc dr evs w)) = state (channel w)
  ∧ queued_tasks (channel (after_dispatch rc dr evs w)) = queued_tasks (channel w)
  ∧ num_outstanding (channel (after_dispatch rc dr evs w))
    = (if rc =? 0 then uint32 (num_outstanding (channel w) + 1)
       else num_outstanding (channel w)).
Proof. unfold after_dispatch. by destruct (rc =? 0). Qed.

Lemma stailq_empty_spec w :
  fst (STAILQ_EMPTY w) = true ↔ queued_tasks (channel w) = [].
Proof.
  unfold STAILQ_EMPTY, gets; simpl. by destruct (queued_tasks (channel w)).
Qed.

(** [dsa_submit_task] on a channel that is not in the ERROR state, in one
    equation. *)
Lemma dsa_submit_task_unfold task w :
  state (channel w) = IDXD_CHANNEL_ACTIVE →
  dsa_submit_task task w
  = match queued_tasks (channel w) with
    | _ :: _ => (0, enqueued task w)
    | [] =>
        let (rc, w1) := _process_single_task task w in
        (0, if rc =? - EBUSY then enqueued task w1
            else if negb (rc =? 0) then completed task rc w1
            else w1)
    end.
Proof.
  intros Hst. unfold dsa_submit_task, bind, gets. rewrite Hst.
  unfold STAILQ_EMPTY, gets. destruct (queued_tasks (channel w)); [|done].
  simpl. destruct (_process_single_task task w) as [rc w1].
  destruct (rc =? - EBUSY); [done|]. by destruct (rc =? 0).
Qed.

Lemma after_dispatch_completions task rc dr evs w :
  switch_events task rc evs →
  completions (log (after_dispatch rc dr evs w)) = completions (log w).
Proof.
  intros Hev. unfold after_dispatch, after_driver, completions.
  destruct (rc =? 0); simpl; rewrite !omap_app;
    destruct Hev; simpl; by rewrite ?app_nil_r.
Qed.

Lemma completed_completions task rc w :
  completions (log (completed task rc w)) = completions (log w) ++ [(task, rc)].
Proof. unfold completed, completions; simpl. by rewrite omap_app. Qed.

(** C3.  On a channel that is not in the ERROR state: with a backlog,
    [dsa_submit_task] only appends the task to the FIFO (no dispatch: the
    driver and the log are untouched); without a backlog it dispatches the
    task, and then -EBUSY puts the task in the FIFO without completing it,
    success increments [num_outstanding], and any other return code
    completes the task with that code without queueing it. *)
Theorem dsa_submit_task_active task w :
  state (channel w) = IDXD_CHANNEL_ACTIVE →
  (queued_tasks (channel w) ≠ [] →
   dsa_submit_task task w = (0, enqueued task w))
  ∧ (queued_tasks (channel w) = [] →
     ∃ rc w1, _process_single_task task w = (rc, w1)
       ∧ (rc = - EBUSY →
          dsa_submit_task task w = (0, enqueued task w1)
          ∧ queued_tasks (channel (enqueued task w1)) = [task]
          ∧ completions (log (enqueued task w1)) = completions (log w)
          ∧ num_outstanding (channel w1) = num_outstanding (channel w))
       ∧ (rc = 0 →
          dsa_submit_task task w = (0, w1)
          ∧ queued_tasks (channel w1) = []
          ∧ completions (log w1) = completions (log w)
          ∧ num_outstanding (channel w1) = uint32 (num_outstanding (channel w) + 1))
       ∧ (rc ≠ 0 → rc ≠ - EBUSY →
          dsa_submit_task task w = (0, completed task rc w1)
          ∧ queued_tasks (channel (completed task rc w1)) = []
          ∧ completions (log (completed task rc w1))
            = completions (log w) ++ [(task, rc)]
          ∧ num_outstanding (channel w1) = num_outstanding (channel w))).
Proof.
  intros Hst. pose proof (dsa_submit_task_unfold task w Hst) as Hsub. split.
  - intros Hq. rewrite Hsub. by destruct (queued_tasks (channel w)).
  - intros Hq. rewrite Hq in Hsub.
    destruct (process_single_task_spec task w) as (rc & dr & evs & Hp & Hev).
    rewrite Hp in Hsub.
    exists rc, (after_dispatch rc dr evs w). split; [done|].
    destruct (after_dispatch_channel rc dr evs w) as (_ & Hq1 & Hn1).
    pose proof (after_dispatch_completions task rc dr evs w Hev) as Hc.
    rewrite Hq in Hq1.
    split; [|split].
    + intros ->. split; [done|]. split.
      { change (queued_tasks (channel (after_dispatch (- EBUSY) dr evs w)) ++ [task]
                = [task]). by rewrite Hq1. }
      split; [done|]. by rewrite Hn1.
    + intros ->. split; [done|]. split; [done|]. split; [done|]. by rewrite Hn1.
    + intros H0 Hb. rewrite Hn1 in *.
      destruct (Z.eqb_spec rc (- EBUSY)); [done|].
      destruct (Z.eqb_spec rc 0); [done|]. simpl in Hsub.
      split; [done|]. split; [done|]. split; [|done].
      by rewrite completed_completions, Hc.
Qed.

(** C9.  [dsa_submit_task] returns 0 for every task in every state of the
    channel.  The failures are delivered through the completion of the task:
    -EINVAL on a channel in the ERROR state, and, when the task is
    dispatched at once, whatever the dispatcher returned other than 0 and
    -EBUSY (validation failures and driver errors). *)
Theorem dsa_submit_task_returns_zero task w :
  fst (dsa_submit_task task w) = 0
  ∧ (state (channel w) = IDXD_CHANNEL_ERROR →
     completions (log (snd (dsa_submit_task task w)))
     = completions (log w) ++ [(task, - EINVAL)])
  ∧ (state (channel w) = IDXD_CHANNEL_ACTIVE →
     queued_tasks (channel w) = [] →
     let rc := fst (_process_single_task task w) in
     rc ≠ 0 → rc ≠ - EBUSY →
     completions (log (snd (dsa_submit_task task w)))
     = completions (log w) ++ [(task, rc)]).
Proof.
  split; [|split].
  - unfold dsa_submit_task, bind, gets, STAILQ_EMPTY, gets.
    destruct (state (channel w)); [|done].
    destruct (queued_tasks (channel w)); [|done]. simpl.
    destruct (_process_single_task task w) as [rc w2].
    destruct (rc =? - EBUSY); [done|]. by destruct (rc =? 0).
  - intros Hst. unfold dsa_submit_task, bind, gets. rewrite Hst. simpl.
    unfold completions. by rewrite omap_app.
  - intros Hst Hq rc H0 Hb. subst rc.
    rewrite (dsa_submit_task_unfold task w Hst), Hq.
    destruct (process_single_task_spec task w) as (rc & dr & evs & Hp & Hev).
    rewrite Hp in *. cbn [fst snd negb] in *.
    destruct (Z.eqb_spec rc (- EBUSY)); [done|].
    destruct (Z.eqb_spec rc 0); [done|]. cbn [fst snd negb].
    by rewrite completed_completions, (after_dispatch_completions task).
Qed.

(** ** Draining *)

Lemma fail_queued_tasks_spec q : ∀ w,
  queued_tasks (channel w) = q →
  fail_queued_tasks (length q) w = (tt, all_failed w).
Proof.
  induction q as [|t q IH]; intros w Hq.
  - unfold all_failed. rewrite Hq. simpl. unfold ret.
    destruct w as [? ? ? ? c ? ? ?], c; simpl in *; subst.
    by rewrite app_nil_r.
  - simpl. unfold bind, STAILQ_FIRST, gets. rewrite Hq. simpl.
    rewrite IH by (simpl; by rewrite Hq).
    unfold all_failed. simpl. rewrite Hq. simpl.
    by rewrite <- app_assoc.
Qed.

(** C2.  On a channel in the ERROR state, [dsa_submit_task] completes the
    task with -EINVAL and [dsa_submit_queued_tasks] completes every queued
    task with -EINVAL, in order, and leaves the FIFO empty.  In both cases
    nothing else changes: the driver is not called. *)
Theorem error_state_fails_everything task w :
  state (channel w) = IDXD_CHANNEL_ERROR →
  dsa_submit_task task w = (0, completed task (- EINVAL) w)
  ∧ dsa_submit_queued_tasks w = (0, all_failed w)
  ∧ queued_tasks (channel (all_failed w)) = []
  ∧ completions (log (all_failed w))
    = completions (log w) ++ map (λ t, (t, - EINVAL)) (queued_tasks (channel w))
  ∧ driver_calls (log (all_failed w)) = driver_calls (log w)
  ∧ driver (all_failed w) = driver w.
Proof.
  intros Hst. split; [|split; [|split; [|split; [|split]]]]; try done.
  - unfold dsa_submit_task, bind, gets. by rewrite Hst.
  - unfold dsa_submit_queued_tasks, bind, gets. rewrite Hst.
    by rewrite (fail_queued_tasks_spec _ w eq_refl).
  - unfold all_failed, completions. simpl. rewrite omap_app. f_equal.
    induction (queued_tasks (channel w)); simpl; by f_equal.
  - unfold all_failed, driver_calls. simpl. rewrite omap_app.
    rewrite <- (app_nil_r (omap _ (log w))) at 2. f_equal.
    by induction (queued_tasks (channel w)).
Qed.

Lemma completions_app l1 l2 :
  completions (l1 ++ l2) = completions l1 ++ completions l2.
Proof. apply omap_app. Qed.

Lemma driver_calls_app l1 l2 :
  driver_calls (l1 ++ l2) = driver_calls l1 ++ driver_calls l2.
Proof. apply omap_app. Qed.

Lemma after_dispatch_log rc dr evs w :
  ∃ tr, log (after_dispatch rc dr evs w) = log w ++ evs ++ tr
        ∧ completions tr = [] ∧ driver_calls tr = []
        ∧ (rc = 0 → tr = [EvTrace TRACE_ACCEL_DSA_OP_SUBMIT
                            (incr32 (num_outstanding (channel w)))])
        ∧ (rc ≠ 0 → tr = []).
Proof.
  unfold after_dispatch, after_driver. destruct (Z.eqb_spec rc 0).
  - eexists; by repeat split.
  - exists []. simpl. by rewrite app_nil_r.
Qed.

Lemma switch_events_completions task rc evs :
  switch_events task rc evs → completions evs = [].
Proof. by destruct 1. Qed.

Lemma switch_events_driver_calls task rc evs :
  switch_events task rc evs →
  map (request_task ∘ fst) (driver_calls evs) `sublist_of` [task].
Proof.
  destruct 1 as [req <-| |]; simpl; [done| |]; by apply sublist_nil_l.
Qed.

Lemma iter_incr32_shift (m : nat) (n : Z) :
  Nat.iter m incr32 (incr32 n) = Nat.iter (S m) incr32 n.
Proof. induction m; simpl in *; congruence. Qed.

(** The walk of [STAILQ_FOREACH_SAFE] over a queue [q], as a whole: [k]
    entries leave the FIFO, from the head; the ones that failed were
    completed with their error, in order; the others were accepted and
    counted; and the walk either reaches the end or stops at the first
    -EBUSY. *)
Lemma submit_queued_from_spec q : ∀ w,
  queued_tasks (channel w) = q →
  ∃ (k : nat) cs evs rc w',
    submit_queued_from q w = (rc, w')
    ∧ (k ≤ length q)%nat
    ∧ queued_tasks (channel w') = drop k q
    ∧ state (channel w') = state (channel w)
    ∧ log w' = log w ++ evs
    ∧ completions evs = cs
    ∧ map fst cs `sublist_of` take k q
    ∧ Forall (λ c, snd c ≠ 0 ∧ snd c ≠ - EBUSY) cs
    ∧ map (request_task ∘ fst) (driver_calls evs) `sublist_of` q
    ∧ num_outstanding (channel w')
      = Nat.iter (k - length cs) incr32 (num_outstanding (channel w))
    ∧ (rc = 0 ∧ k = length q ∨ rc = - EBUSY ∧ (k < length q)%nat).
Proof.
  induction q as [|t q IH]; intros w Hq.
  - exists 0%nat, [], [], 0, w. simpl. rewrite app_nil_r, Hq.
    split_and!; try done. by left.
  - simpl. unfold bind at 1.
    destruct (process_single_task_spec t w) as (rc & dr & evs1 & -> & Hev).
    destruct (after_dispatch_channel rc dr evs1 w) as (Hs1 & Hq1 & Hn1).
    destruct (after_dispatch_log rc dr evs1 w) as (tr & Hl1 & Hc1 & Hd1 & Htr0 & Htr).
    pose proof (switch_events_completions _ _ _ Hev) as Hc0.
    pose proof (switch_events_driver_calls _ _ _ Hev) as Hd0.
    remember (after_dispatch rc dr evs1 w) as w1 eqn:Hw1. clear Hw1.
    destruct (Z.eqb_spec rc (- EBUSY)) as [->|Hnb].
    { exists 0%nat, [], (evs1 ++ tr), (- EBUSY), w1. rewrite Hq1, Hq, Hs1, Hn1.
      split_and!;
        [ done | simpl; lia | done | done | done
        | by rewrite completions_app, Hc1, Hc0
        | apply sublist_nil_l | done
        | rewrite driver_calls_app, Hd1, app_nil_r;
          etrans; [done|]; apply sublist_skip, sublist_nil_l
        | done
        | right; split; [done|simpl; lia] ]. }
    unfold bind, STAILQ_REMOVE_HEAD, modify.
    destruct (Z.eqb_spec rc 0) as [->|Hnz]; cbn [negb].
    + (* accepted *)
      unfold ret at 1.
      destruct (IH (dequeued w1)) as
        (k & cs & evs & rc & w' & Hrun & Hk & Hq' & Hs' & Hl' & Hc' & Hsub & Hall & Hdrv & Hn' & Hend).
      { change (tail (queued_tasks (channel w1)) = q). by rewrite Hq1, Hq. }
      unfold dequeued in Hrun. rewrite Hrun.
      exists (S k), cs, (evs1 ++ tr ++ evs), rc, w'.
      assert (Hlen : (length cs ≤ k)%nat).
      { apply sublist_length in Hsub. rewrite length_map, length_take in Hsub. lia. }
      split_and!;
        [ done | simpl; lia | done | by rewrite Hs'
        | rewrite Hl'; simpl; rewrite Hl1; by rewrite <- !app_assoc
        | by rewrite !completions_app, Hc1, Hc', Hc0
        | simpl; by apply sublist_cons
        | done
        | rewrite !driver_calls_app, Hd1; simpl;
          rewrite map_app; change (t :: q) with ([t] ++ q);
          by apply sublist_app
        | rewrite Hn'; simpl; rewrite Hn1; simpl;
          replace (S k - length cs)%nat with (S (k - length cs)) by lia;
          apply iter_incr32_shift
        | destruct Hend as [[-> ->]|[-> ?]]; [by left|right];
          split; [done|simpl; lia] ].
    + (* failed *)
      unfold spdk_accel_task_complete, emit, modify.
      destruct (IH (completed t rc (dequeued w1))) as
        (k & cs & evs & rc' & w' & Hrun & Hk & Hq' & Hs' & Hl' & Hc' & Hsub & Hall & Hdrv & Hn' & Hend).
      { change (tail (queued_tasks (channel w1)) = q). by rewrite Hq1, Hq. }
      unfold completed, dequeued in Hrun. simpl in Hrun. simpl. rewrite Hrun.
      exists (S k), ((t, rc) :: cs), (evs1 ++ tr ++ EvTaskComplete t rc :: evs), rc', w'.
      split_and!;
        [ done | simpl; lia | done | by rewrite Hs'
        | rewrite Hl'; simpl; rewrite Hl1; rewrite <- !app_assoc; by simpl
        | rewrite !completions_app, Hc1, Hc0; simpl; by rewrite <- Hc'
        | simpl; by apply sublist_skip
        | by constructor
        | rewrite !driver_calls_app, Hd1; simpl;
          rewrite map_app; change (t :: q) with ([t] ++ q);
          by apply sublist_app
        | rewrite Hn'; simpl; rewrite Hn1; by destruct (Z.eqb_spec rc 0)
        | destruct Hend as [[-> ->]|[-> ?]]; [by left|right];
          split; [done|simpl; lia] ].
Qed.

Lemma dsa_submit_queued_tasks_active w :
  state (channel w) = IDXD_CHANNEL_ACTIVE →
  dsa_submit_queued_tasks w = submit_queued_from (queued_tasks (channel w)) w.
Proof.
  intros Hst. unfold dsa_submit_queued_tasks, bind, gets. by rewrite Hst.
Qed.

(** C1.  [dsa_submit_queued_tasks] walks the FIFO from its head.

    - As a whole, in every state of the channel: the entries that leave the
      FIFO are its first [k], the rest stays in order; the tasks handed to
      the driver and the tasks completed with an error follow the order of
      the FIFO; an entry that left was either completed with an error other
      than -EBUSY or counted in [num_outstanding]; the return value is 0
      when the FIFO was emptied and -EBUSY when something is left.
    - Step by step, on a channel that is not in the ERROR state, with [t]
      at the head: -EBUSY from the dispatch of [t] ends the drain at once,
      with [t] and everything behind it still queued, nothing completed and
      [num_outstanding] as the dispatch found it; success removes [t],
      increments [num_outstanding] and goes on with the rest; any other
      error removes [t], completes it with that error and goes on with the
      rest. *)
Theorem dsa_submit_queued_tasks_walk w :
  (∃ (k : nat) cs evs rc w',
      dsa_submit_queued_tasks w = (rc, w')
      ∧ (k ≤ length (queued_tasks (channel w)))%nat
      ∧ queued_tasks (channel w') = drop k (queued_tasks (channel w))
      ∧ log w' = log w ++ evs
      ∧ completions evs = cs
      ∧ map fst cs `sublist_of` take k (queued_tasks (channel w))
      ∧ Forall (λ c, snd c ≠ 0 ∧ snd c ≠ - EBUSY) cs
      ∧ map (request_task ∘ fst) (driver_calls evs)
          `sublist_of` queued_tasks (channel w)
      ∧ num_outstanding (channel w')
        = Nat.iter (k - length cs) incr32 (num_outstanding (channel w))
      ∧ (rc = 0 ∧ k = length (queued_tasks (channel w))
         ∨ rc = - EBUSY ∧ (k < length (queued_tasks (channel w)))%nat))
  ∧ (state (channel w) = IDXD_CHANNEL_ACTIVE →
     ∀ t rest, queued_tasks (channel w) = t :: rest →
     ∃ rc w1, _process_single_task t w = (rc, w1)
       ∧ (rc = - EBUSY →
          dsa_submit_queued_tasks w = (- EBUSY, w1)
          ∧ queued_tasks (channel w1) = t :: rest
          ∧ num_outstanding (channel w1) = num_outstanding (channel w)
          ∧ completions (log w1) = completions (log w))
       ∧ (rc = 0 →
          dsa_submit_queued_tasks w = dsa_submit_queued_tasks (dequeued w1)
          ∧ queued_tasks (channel (dequeued w1)) = rest
          ∧ num_outstanding (channel (dequeued w1))
            = incr32 (num_outstanding (channel w))
          ∧ completions (log (dequeued w1)) = completions (log w))
       ∧ (rc ≠ 0 → rc ≠ - EBUSY →
          dsa_submit_queued_tasks w
          = dsa_submit_queued_tasks (completed t rc (dequeued w1))
          ∧ queued_tasks (channel (completed t rc (dequeued w1))) = rest
          ∧ num_outstanding (channel (completed t rc (dequeued w1)))
            = num_outstanding (channel w)
          ∧ completions (log (completed t rc (dequeued w1)))
            = completions (log w) ++ [(t, rc)])).
Proof.
  split.
  - destruct (state (channel w)) eqn:Hst.
    + destruct (submit_queued_from_spec _ w eq_refl) as
        (k & cs & evs & rc & w' & Hrun & Hk & Hq' & _ & Hrest).
      exists k, cs, evs, rc, w'.
      by rewrite (dsa_submit_queued_tasks_active w Hst).
    + set (q := queued_tasks (channel w)).
      exists (length q), (map (λ t, (t, - EINVAL)) q),
        (map (λ t, EvTaskComplete t (- EINVAL)) q), 0, (all_failed w).
      split_and!.
      * unfold dsa_submit_queued_tasks, bind, gets. rewrite Hst.
        by rewrite (fail_queued_tasks_spec _ w eq_refl).
      * done.
      * by rewrite drop_all.
      * done.
      * by induction q; simpl; [|f_equal].
      * rewrite firstn_all, map_map. simpl. by rewrite map_id.
      * apply Forall_forall. intros [t st] Hin.
        apply list_elem_of_fmap in Hin as (t' & [= -> ->] & _). done.
      * replace (driver_calls _) with (@nil (idxd_request * Z));
          [apply sublist_nil_l|]. by induction q.
      * rewrite length_map, Nat.sub_diag. done.
      * by left.
  - intros Hst t rest Hq.
    destruct (process_single_task_spec t w) as (rc & dr & evs & Hp & Hev).
    destruct (after_dispatch_channel rc dr evs w) as (Hs1 & Hq1 & Hn1).
    pose proof (after_dispatch_completions t rc dr evs w Hev) as Hc.
    remember (after_dispatch rc dr evs w) as w1 eqn:Hw1. clear Hw1.
    exists rc, w1. split; [done|].
    assert (Hrun : dsa_submit_queued_tasks w
      = if rc =? - EBUSY then (rc, w1)
        else submit_queued_from rest
               (if negb (rc =? 0) then completed t rc (dequeued w1)
                else dequeued w1)).
    { rewrite (dsa_submit_queued_tasks_active w Hst), Hq.
      cbn [submit_queued_from]. unfold bind at 1. rewrite Hp.
      destruct (rc =? - EBUSY); [done|].
      unfold bind, STAILQ_REMOVE_HEAD, modify. by destruct (rc =? 0). }
    rewrite Hrun. clear Hrun. rewrite Hq in Hq1.
    assert (Hq2 : tail (queued_tasks (channel w1)) = rest) by (by rewrite Hq1).
    assert (Hact : ∀ w2, state (channel w2) = state (channel w1) →
                         queued_tasks (channel w2) = rest →
                         submit_queued_from rest w2 = dsa_submit_queued_tasks w2).
    { intros w2 Hs2 <-. symmetry. apply dsa_submit_queued_tasks_active. congruence. }
    split_and!.
    + intros ->. split_and!; try done; by rewrite Hn1.
    + intros ->. cbn [Z.eqb negb].
      split_and!; [by apply Hact | done | | done].
      change (num_outstanding (channel w1) = incr32 (num_outstanding (channel w))).
      by rewrite Hn1.
    + intros H0 Hb.
      destruct (Z.eqb_spec rc (- EBUSY)); [done|].
      destruct (Z.eqb_spec rc 0); [done|]. cbn [negb].
      split_and!; [by apply Hact | done | done |].
      rewrite completed_completions.
      change (log (dequeued w1)) with (log w1). by rewrite Hc.
Qed.

(** ** Completion handler *)

Lemma with_mem_same w : with_mem (mem w) w = w.
Proof. by destruct w. Qed.

Lemma dsa_done_unfold task status w :
  dsa_done task status w = (done_outcome task status w, after_done task status w).
Proof.
  unfold dsa_done, and_then, done_outcome, after_done, done_faults,
    needs_software_verify, verify_events, verify_call, verified_mem,
    software_verify, done_events.
  unfold bind, ret, gets, assert, spdk_accel_task_complete, spdk_trace_record,
    SPDK_ERRLOG, emit, modify.
  destruct w as [ini devs cur nd c dr m l]; simpl.
  destruct (status =? - EIO); [destruct (op_code task)|]; simpl;
    try (destruct (0 <? num_outstanding c); simpl;
         rewrite <- ?app_assoc; reflexivity).
  destruct (spdk_dif_verify (iovs (s task)) (int_of_uint32 (iovcnt (s task)))
              (num_blocks (dif task)) (dif_ctx (dif task)) (dif_err (dif task)) dr)
    as [rc [e|]];
    simpl; destruct (rc =? 0); simpl;
    destruct (dif_err (dif task) =? NULL); simpl;
    destruct (0 <? num_outstanding c); simpl;
    rewrite <- ?app_assoc; reflexivity.
Qed.

Lemma done_faults_spec task status w :
  done_faults task status w = true
  ↔ status = - EIO ∧ op_code task = SPDK_ACCEL_OPC_DIF_VERIFY
    ∧ dif_err (dif task) = NULL ∧ fst (software_verify task w) ≠ 0.
Proof.
  unfold done_faults, needs_software_verify.
  destruct (Z.eqb_spec status (- EIO)) as [->|Hs]; cbn [andb].
  2:{ split; [done|]. by intros (? & _). }
  destruct (op_code task) eqn:Hop; cbn [andb];
    try (split; [done|]; by intros (_ & ? & _)).
  destruct (Z.eqb_spec (fst (software_verify task w)) 0) as [Hrc|Hrc]; cbn [negb andb].
  { split; [done|]. by intros (_ & _ & _ & ?). }
  destruct (Z.eqb_spec (dif_err (dif task)) NULL) as [Hn|Hn].
  - by split.
  - split; [done|]. by intros (_ & _ & ? & _).
Qed.



(** C10.  The status [dsa_done] completes a task with is the status it was
    called with, for every software DIF check: whatever the check returns
    and stores, a handler that returns has completed the task once, with
    the reported status; the check can change the error record of the task
    and nothing else in the callers' memory.  The handler returns for every
    task that has an error record; it does not return, and completes
    nothing, exactly when the status is -EIO, the task is a DIF verify
    without an error record and the software check fails. *)
Theorem dsa_done_reports_hardware_status task status w :
  let r := fst (dsa_done task status w) in
  let w' := snd (dsa_done task status w) in
  completions (log w')
  = completions (log w)
    ++ match r with Returned _ => [(task, status)] | _ => [] end
  ∧ (∀ p, p ≠ dif_err (dif task) → mem w' !! p = mem w !! p)
  ∧ (r = Returned tt ∨ r = NullDeref)
  ∧ (r = NullDeref
     ↔ status = - EIO ∧ op_code task = SPDK_ACCEL_OPC_DIF_VERIFY
       ∧ dif_err (dif task) = NULL ∧ fst (software_verify task w) ≠ 0)
  ∧ (dif_err (dif task) ≠ NULL → r = Returned tt).
Proof.
  intros r w'. subst r w'. rewrite dsa_done_unfold.
  unfold after_done, done_outcome. cbn [fst snd].
  pose proof (done_faults_spec task status w) as Hf.
  destruct (done_faults task status w) eqn:Hfaults;
    cbn [log mem with_log with_mem with_channel].
  - split_and!; try done.
    + rewrite completions_app. by cbn.
    + by right.
    + split; [intros _; by apply Hf | done].
    + intros Hn. exfalso. apply Hn. by apply Hf.
  - split_and!; try done.
    + rewrite !completions_app. f_equal.
      replace (completions (if needs_software_verify task status
                            then verify_events task w else []))
        with (@nil (spdk_accel_task * Z)).
      * unfold done_events. rewrite completions_app.
        by destruct (0 <? num_outstanding (channel w)).
      * destruct (needs_software_verify task status); [|done].
        unfold verify_events, verify_call.
        by destruct (fst (software_verify task w) =? 0),
          (dif_err (dif task) =? NULL).
    + intros p Hp. destruct (needs_software_verify task status); [|done].
      unfold verified_mem. destruct (snd (software_verify task w)); [|done].
      destruct (dif_err (dif task) =? NULL); [done|].
      by apply lookup_insert_ne.
    + by left.
    + split; [done|]. intros H. apply Hf in H. done.
Qed.

(** ** Computations and the relations they keep *)

Lemma steps_in_ret {A} (R : world → world → Prop) `{!Reflexive R} (a : A) :
  steps_in R (ret a).
Proof. intros w. simpl. reflexivity. Qed.

Lemma steps_in_gets {A} (R : world → world → Prop) `{!Reflexive R}
    (f : world → A) : steps_in R (gets f).
Proof. intros w. simpl. reflexivity. Qed.

Lemma steps_in_modify (R : world → world → Prop) (f : world → world) :
  (∀ w, R w (f w)) → steps_in R (modify f).
Proof. intros H w. apply H. Qed.

Lemma steps_in_bind {A B} (R : world → world → Prop) `{!Transitive R}
    (m : M A) (k : A → M B) :
  steps_in R m → (∀ a, steps_in R (k a)) → steps_in R (bind m k).
Proof.
  intros Hm Hk w. unfold bind. specialize (Hm w).
  destruct (m w) as [a w1]. simpl in *. etrans; [exact Hm|]. apply Hk.
Qed.

Lemma steps_in_idxd_submit (R : world → world → Prop) req :
  (∀ w dr evs, R w (after_driver dr evs w)) → steps_in R (idxd_submit req).
Proof.
  intros H w. unfold idxd_submit.
  destruct (spdk_idxd_submit req (driver w)) as [rc dr]. apply H.
Qed.

(** Takes a computation apart along its binds and branches.  [known]
    closes the calls that have a lemma of their own, [prim] the side
    conditions of the world updates. *)
Ltac steps known prim :=
  repeat first
    [ known
    | apply steps_in_ret; typeclasses eauto
    | apply steps_in_gets; typeclasses eauto
    | apply steps_in_modify; prim
    | apply steps_in_idxd_submit; prim
    | apply steps_in_bind; [ typeclasses eauto | | intros ? ]
    | match goal with
      | |- steps_in _ (match ?x with _ => _ end) => destruct x
      | |- steps_in _ (let (_, _) := ?x in _) => destruct x
      end ].

Lemma steps_in_process_events (R : world → world → Prop) ch :
  (∀ w dr, R w (with_driver dr w)) →
  steps_in R (λ w, let '(cpls, count, dr) :=
                     spdk_idxd_process_events ch (driver w) in
                   ((cpls, count), with_driver dr w)).
Proof.
  intros H w. destruct (spdk_idxd_process_events ch (driver w)) as [[? ?] ?].
  apply H.
Qed.


(** ** The outstanding counter *)

Lemma count_events_app p l1 l2 :
  count_events p (l1 ++ l2) = count_events p l1 + count_events p l2.
Proof. induction l1; simpl; lia. Qed.

Lemma in_flight_ok_app n l1 l2 :
  in_flight_ok n (l1 ++ l2)
  = in_flight_ok n l1 && in_flight_ok (n + accepted l1 - observed l1) l2.
Proof.
  revert n. induction l1 as [|e l1 IH]; intros n; simpl.
  - f_equal. unfold accepted, observed. simpl. lia.
  - rewrite IH. unfold accepted, observed. simpl.
    rewrite <- !andb_assoc. do 3 f_equal.
    destruct (is_accepted e), (is_observed e); f_equal; lia.
Qed.

Lemma in_flight_ok_nonneg l : ∀ n,
  0 ≤ n → in_flight_ok n l = true → 0 ≤ n + accepted l - observed l.
Proof.
  induction l as [|e l IH]; intros n Hn; unfold accepted, observed in *; simpl.
  - lia.
  - intros H. apply andb_prop in H as [H1 H3]. apply andb_prop in H1 as [H1 H2].
    apply Z.leb_le in H1. specialize (IH _ H1 H3).
    destruct (is_accepted e), (is_observed e); lia.
Qed.

Lemma keeps_count_quiet {A} (m : M A) :
  (∀ w, log (snd (m w)) = log w
        ∧ num_outstanding (channel (snd (m w))) = num_outstanding (channel w)) →
  keeps_count m.
Proof.
  intros H w. destruct (H w) as [Hl Hn]. exists []. rewrite app_nil_r.
  split; [done|]. intros _. rewrite Hn. unfold accepted, observed. simpl.
  split; [lia|]. apply not_elem_of_nil.
Qed.

Lemma keeps_count_ret {A} (a : A) : keeps_count (ret a).
Proof. by apply keeps_count_quiet. Qed.

Lemma keeps_count_gets {A} (f : world → A) : keeps_count (gets f).
Proof. by apply keeps_count_quiet. Qed.

Lemma keeps_count_with_bind {A B} (lost : B → Z) (m : M A) (k : A → M B) :
  keeps_count m → (∀ a, keeps_count_with lost (k a)) →
  keeps_count_with lost (bind m k).
Proof.
  intros Hm Hk w. unfold bind.
  destruct (Hm w) as (evs1 & Hl1 & H1).
  destruct (m w) as [a w1]. simpl in *.
  destruct (Hk a w1) as (evs2 & Hl2 & H2).
  exists (evs1 ++ evs2). split.
  - by rewrite Hl2, Hl1, app_assoc.
  - rewrite in_flight_ok_app. intros H. apply andb_prop in H as [Ha Hb].
    destruct (H1 Ha) as [Hn1 Hf1]. rewrite Z.add_0_r in Hn1. rewrite Hn1 in H2.
    destruct (H2 Hb) as [Hn2 Hf2]. split.
    + rewrite Hn2. unfold accepted, observed. rewrite !count_events_app.
      unfold accepted, observed in *. lia.
    + intros Hin. apply elem_of_app in Hin as [?|?]; tauto.
Qed.

Lemma keeps_count_bind {A B} (m : M A) (k : A → M B) :
  keeps_count m → (∀ a, keeps_count (k a)) → keeps_count (bind m k).
Proof. apply keeps_count_with_bind. Qed.

Lemma keeps_count_and_then {A B} (m : M (outcome A)) (k : A → M (outcome B)) :
  keeps_count_with faulted m → (∀ a, keeps_count_with faulted (k a)) →
  keeps_count_with faulted (and_then m k).
Proof.
  intros Hm Hk w. unfold and_then, bind.
  destruct (Hm w) as (evs1 & Hl1 & H1).
  destruct (m w) as [[a| |] w1]; cbn [fst snd faulted ret] in *;
    [|by exists evs1..].
  destruct (Hk a w1) as (evs2 & Hl2 & H2).
  exists (evs1 ++ evs2). split.
  - by rewrite Hl2, Hl1, app_assoc.
  - rewrite in_flight_ok_app. intros H. apply andb_prop in H as [Ha Hb].
    destruct (H1 Ha) as [Hn1 Hf1]. rewrite Z.add_0_r in Hn1. rewrite Hn1 in H2.
    destruct (H2 Hb) as [Hn2 Hf2]. split.
    + rewrite Hn2. unfold accepted, observed. rewrite !count_events_app.
      unfold accepted, observed in *. lia.
    + intros Hin. apply elem_of_app in Hin as [?|?]; tauto.
Qed.

Lemma keeps_count_returned {A B} (m : M A) (b : B) :
  keeps_count m → keeps_count_with faulted (m ;; ret (Returned b)).
Proof.
  intros Hm. apply keeps_count_with_bind; [done|]. intros _ w.
  exists []. cbn. rewrite app_nil_r. split; [done|]. intros _.
  unfold accepted, observed. cbn. split; [lia|]. apply not_elem_of_nil.
Qed.

Lemma keeps_count_complete task status :
  keeps_count (spdk_accel_task_complete task status).
Proof.
  intros w. exists [EvTaskComplete task status]. split; [done|].
  intros _. unfold accepted, observed. simpl. split; [lia|].
  intros Hin. by apply list_elem_of_singleton in Hin.
Qed.

Lemma keeps_count_insert_tail task : keeps_count (STAILQ_INSERT_TAIL task).
Proof. by apply keeps_count_quiet. Qed.

Lemma keeps_count_remove_head : keeps_count STAILQ_REMOVE_HEAD.
Proof. by apply keeps_count_quiet. Qed.

Lemma keeps_count_process_single_task task :
  keeps_count (_process_single_task task).
Proof.
  intros w.
  destruct (process_single_task_spec task w) as (rc & dr & evs & -> & Hev).
  unfold after_dispatch. cbn beta. cbn [fst snd].
  destruct (Z.eqb_spec rc 0) as [->|Hrc].
  - eexists. split; [reflexivity|]. cbn [channel with_log with_channel
      set_num_outstanding num_outstanding with_driver].
    unfold accepted, observed. rewrite in_flight_ok_app, !count_events_app.
    destruct Hev as [req _| |]; try done. simpl.
    intros H. apply andb_prop in H as [H _].
    apply andb_prop in H as [H _]. apply andb_prop in H as [H1 H2].
    apply Z.leb_le in H1, H2. unfold UINT32_MAX in H2. split.
    + unfold uint32. rewrite Z.mod_small; lia.
    + intros Hin. apply elem_of_cons in Hin as [?|Hin]; [done|].
      by apply list_elem_of_singleton in Hin.
  - exists evs. split; [done|]. intros _.
    cbn [channel after_driver with_log with_driver].
    unfold accepted, observed.
    destruct Hev as [req _| |]; simpl; (split; [|]);
      try (destruct (Z.eqb_spec rc 0); [done|lia]); try lia.
    + intros Hin. by apply list_elem_of_singleton in Hin.
    + apply not_elem_of_nil.
    + intros Hin. by apply list_elem_of_singleton in Hin.
Qed.

(** The callback moves the counter down by one when it gets to its
    decrement, and finds it positive when the driver keeps its contract. *)
Lemma keeps_count_cb_fn task status :
  keeps_count_with faulted (cb_fn task status).
Proof.
  intros w. unfold cb_fn, bind, emit, modify. rewrite dsa_done_unfold.
  cbn [fst snd]. unfold after_done, done_outcome.
  change (done_faults task status (with_log (log w ++ [EvCallback task status]) w))
    with (done_faults task status w).
  change (verify_call task (with_log (log w ++ [EvCallback task status]) w))
    with (verify_call task w).
  change (verify_events task (with_log (log w ++ [EvCallback task status]) w))
    with (verify_events task w).
  cbn [log channel with_log with_channel with_mem set_num_outstanding
       num_outstanding].
  set (n := num_outstanding (channel w)).
  destruct (done_faults task status w).
  - exists [EvCallback task status; verify_call task w].
    cbn [log with_log channel faulted]. split; [by rewrite <- app_assoc|].
    fold n. intros _. unfold accepted, observed, verify_call. cbn. split; [lia|].
    intros Hin. apply elem_of_cons in Hin as [?|Hin]; [done|].
    by apply list_elem_of_singleton in Hin.
  - set (vs := if needs_software_verify task status
               then verify_events task w else []).
    exists (EvCallback task status :: vs ++ done_events task status n).
    cbn [log with_log channel with_channel with_mem set_num_outstanding
         num_outstanding faulted].
    split; [by rewrite <- app_assoc|].
    assert (Hvs : accepted vs = 0 ∧ observed vs = 0
                  ∧ (EvAssertFail AssertOutstandingPositive ∉ vs)).
    { subst vs. destruct (needs_software_verify task status).
      - unfold verify_events, verify_call, accepted, observed.
        destruct (fst (software_verify task w) =? 0);
          [|destruct (dif_err (dif task) =? NULL)];
          simpl; split_and!; try done;
          intros Hin; repeat (apply elem_of_cons in Hin as [?|Hin]; [done|]);
          by apply elem_of_nil in Hin.
      - split_and!; try done. apply not_elem_of_nil. }
    destruct Hvs as (Hva & Hvo & Hvf).
    unfold accepted, observed in *.
    cbn [in_flight_ok is_accepted is_observed count_events].
    rewrite !count_events_app, Hva, Hvo. unfold done_events.
    intros H. apply andb_prop in H as [H Hrest].
    apply andb_prop in H as [H1 H2]. apply Z.leb_le in H1, H2.
    unfold UINT32_MAX in H2. fold n in H1, H2 |- *.
    destruct (Z.ltb_spec 0 n) as [Hpos|Hzero]; [|lia]. simpl. split.
    + unfold uint32. rewrite Z.mod_small; lia.
    + intros Hin. apply elem_of_cons in Hin as [?|Hin]; [done|].
      apply elem_of_app in Hin as [?|Hin]; [done|].
      apply elem_of_cons in Hin as [?|Hin]; [done|].
      by apply list_elem_of_singleton in Hin.
Qed.

Lemma keeps_count_dsa_submit_task task : keeps_count (dsa_submit_task task).
Proof.
  unfold dsa_submit_task. apply keeps_count_bind; [apply keeps_count_gets|].
  intros [].
  - apply keeps_count_bind; [apply keeps_count_gets|]. intros [].
    + apply keeps_count_bind; [apply keeps_count_process_single_task|].
      intros rc. apply keeps_count_bind; [|intros; apply keeps_count_ret].
      destruct (rc =? - EBUSY); [apply keeps_count_insert_tail|].
      destruct (rc =? 0); [apply keeps_count_ret|apply keeps_count_complete].
    + apply keeps_count_bind; [apply keeps_count_insert_tail|].
      intros; apply keeps_count_ret.
  - apply keeps_count_bind; [apply keeps_count_complete|].
    intros; apply keeps_count_ret.
Qed.

Lemma keeps_count_fail_queued_tasks fuel : keeps_count (fail_queued_tasks fuel).
Proof.
  induction fuel as [|fuel IH]; simpl; [apply keeps_count_ret|].
  apply keeps_count_bind; [apply keeps_count_gets|].
  intros [task|]; [|apply keeps_count_ret].
  apply keeps_count_bind; [apply keeps_count_remove_head|]. intros _.
  apply keeps_count_bind; [apply keeps_count_complete|]. intros _. apply IH.
Qed.

Lemma keeps_count_submit_queued_from q : keeps_count (submit_queued_from q).
Proof.
  induction q as [|task q IH]; simpl; [apply keeps_count_ret|].
  apply keeps_count_bind; [apply keeps_count_process_single_task|].
  intros rc. destruct (rc =? - EBUSY); [apply keeps_count_ret|].
  apply keeps_count_bind; [apply keeps_count_remove_head|]. intros _.
  apply keeps_count_bind; [|intros _; apply IH].
  destruct (rc =? 0); [apply keeps_count_ret|apply keeps_count_complete].
Qed.

Lemma keeps_count_dsa_submit_queued_tasks : keeps_count dsa_submit_queued_tasks.
Proof.
  unfold dsa_submit_queued_tasks.
  apply keeps_count_bind; [apply keeps_count_gets|]. intros [].
  - apply keeps_count_bind; [apply keeps_count_gets|]. intros q.
    apply keeps_count_submit_queued_from.
  - apply keeps_count_bind; [apply keeps_count_gets|]. intros q.
    apply keeps_count_bind; [apply keeps_count_fail_queued_tasks|].
    intros; apply keeps_count_ret.
Qed.

Lemma keeps_count_process_completions cpls :
  keeps_count_with faulted (process_completions cpls).
Proof.
  induction cpls as [|[task status] cpls IH]; cbn [process_completions].
  - apply (keeps_count_returned (ret tt) tt), keeps_count_ret.
  - apply keeps_count_and_then; [apply keeps_count_cb_fn|]. intros _. apply IH.
Qed.

Lemma keeps_count_idxd_poll : keeps_count_with faulted idxd_poll.
Proof.
  unfold idxd_poll.
  apply keeps_count_with_bind; [apply keeps_count_gets|]. intros ch.
  apply keeps_count_with_bind.
  { apply keeps_count_quiet. intros w.
    by destruct (spdk_idxd_process_events ch (driver w)) as [[cpls count] dr]. }
  intros evs.
  apply keeps_count_and_then; [apply keeps_count_process_completions|]. intros _.
  apply keeps_count_with_bind; [apply keeps_count_gets|]. intros empty.
  apply keeps_count_returned.
  destruct empty; simpl; [apply keeps_count_ret|].
  apply keeps_count_bind; [apply keeps_count_dsa_submit_queued_tasks|].
  intros; apply keeps_count_ret.
Qed.

Lemma keeps_count_run cs : keeps_count_with faulted (run cs).
Proof.
  induction cs as [|c cs IH]; cbn [run].
  - apply (keeps_count_returned (ret tt) tt), keeps_count_ret.
  - apply keeps_count_and_then; [|intros _; apply IH].
    destruct c; cbn [run_call].
    + apply keeps_count_returned, keeps_count_dsa_submit_task.
    + apply keeps_count_and_then; [apply keeps_count_idxd_poll|].
      intros _. apply (keeps_count_returned (ret tt) tt), keeps_count_ret.
    + apply keeps_count_cb_fn.
    + apply keeps_count_returned, keeps_count_dsa_submit_queued_tasks.
Qed.

(** ** The counter stays a [uint32_t] *)

#[local] Instance counter_in_range_preorder : PreOrder counter_in_range.
Proof.
  split.
  - intros w H. exact H.
  - intros w1 w2 w3 H1 H2 H. apply H2, H1, H.
Qed.

Lemma uint32_range n : 0 ≤ uint32 n ≤ UINT32_MAX.
Proof.
  unfold uint32, UINT32_MAX.
  pose proof (Z.mod_pos_bound n (2 ^ 32) ltac:(lia)). lia.
Qed.

Ltac range_prim :=
  intros; unfold counter_in_range;
  cbn [channel with_channel with_log with_driver with_mem after_driver
       num_outstanding set_num_outstanding set_queued_tasks];
  first [ done | intros _; apply uint32_range ].

Lemma counter_in_range_process_single_task task :
  steps_in counter_in_range (_process_single_task task).
Proof.
  unfold _process_single_task, process_switch, idxd_submit_dualcast, assert,
    spdk_trace_record, emit.
  steps fail range_prim.
Qed.

Lemma counter_in_range_dsa_submit_task task :
  steps_in counter_in_range (dsa_submit_task task).
Proof.
  unfold dsa_submit_task, STAILQ_EMPTY, STAILQ_INSERT_TAIL,
    spdk_accel_task_complete, emit.
  steps ltac:(apply counter_in_range_process_single_task) range_prim.
Qed.

Lemma counter_in_range_fail_queued_tasks fuel :
  steps_in counter_in_range (fail_queued_tasks fuel).
Proof.
  induction fuel as [|fuel IH]; simpl;
    unfold STAILQ_FIRST, STAILQ_REMOVE_HEAD, spdk_accel_task_complete, emit;
    steps ltac:(apply IH) range_prim.
Qed.

Lemma counter_in_range_submit_queued_from q :
  steps_in counter_in_range (submit_queued_from q).
Proof.
  induction q as [|task q IH]; simpl;
    unfold STAILQ_REMOVE_HEAD, spdk_accel_task_complete, emit;
    steps ltac:(first [apply counter_in_range_process_single_task | apply IH])
      range_prim.
Qed.

Lemma counter_in_range_dsa_submit_queued_tasks :
  steps_in counter_in_range dsa_submit_queued_tasks.
Proof.
  unfold dsa_submit_queued_tasks.
  steps ltac:(first [apply counter_in_range_submit_queued_from
                    | apply counter_in_range_fail_queued_tasks]) range_prim.
Qed.

Lemma counter_in_range_cb_fn task status :
  steps_in counter_in_range (cb_fn task status).
Proof.
  intros w. unfold cb_fn, bind, emit, modify. rewrite dsa_done_unfold.
  cbn [snd]. unfold after_done, counter_in_range.
  destruct (done_faults task status _); cbn; [done|].
  intros _. apply uint32_range.
Qed.

Lemma counter_in_range_process_completions cpls :
  steps_in counter_in_range (process_completions cpls).
Proof.
  induction cpls as [|[task status] cpls IH]; cbn [process_completions];
    unfold and_then;
    steps ltac:(first [apply counter_in_range_cb_fn | apply IH]) range_prim.
Qed.

Lemma counter_in_range_idxd_poll : steps_in counter_in_range idxd_poll.
Proof.
  unfold idxd_poll, and_then, STAILQ_EMPTY.
  steps ltac:(first [apply counter_in_range_process_completions
                    | apply counter_in_range_dsa_submit_queued_tasks
                    | apply steps_in_process_events; range_prim])
    range_prim.
Qed.

Lemma counter_in_range_run cs : steps_in counter_in_range (run cs).
Proof.
  induction cs as [|c cs IH]; cbn [run];
    [apply steps_in_ret; typeclasses eauto|].
  unfold and_then. apply steps_in_bind; [typeclasses eauto| |].
  - destruct c; cbn [run_call]; unfold and_then;
      steps ltac:(first [apply counter_in_range_dsa_submit_task
                        | apply counter_in_range_idxd_poll
                        | apply counter_in_range_cb_fn
                        | apply counter_in_range_dsa_submit_queued_tasks])
        range_prim.
  - intros []; [apply IH|apply steps_in_ret; typeclasses eauto..].
Qed.

(** A channel that [dsa_create_cb] has set up is active, has an empty FIFO
    and nothing outstanding. *)
Lemma dsa_create_cb_success w0 w1 :
  dsa_create_cb w0 = (Returned 0, w1) →
  state (channel w1) = IDXD_CHANNEL_ACTIVE
  ∧ queued_tasks (channel w1) = []
  ∧ num_outstanding (channel w1) = 0.
Proof.
  unfold dsa_create_cb, bind.
  destruct (idxd_select_device w0) as [[[j|]| |] w]; simpl;
    intros [= <-]; done.
Qed.

(** C4.  Take a channel as [dsa_create_cb] leaves it and any history of
    calls on it (submissions, polls, completion callbacks, drains).
    [num_outstanding] is never negative: it stays within the range of a
    [uint32_t].  As long as the driver keeps its contract along the history
    (it calls the completion callback only for operations it has accepted
    and whose completion it has not reported yet, and it never holds more
    than UINT32_MAX operations), [num_outstanding] equals the number of
    submissions the driver accepted minus the number of times the driver
    called the completion callback, and every call of the callback finds
    the counter positive: the assertion [chan->num_outstanding > 0] of
    [dsa_done] never fails.  (A callback that faults has been called and has
    not decremented the counter; the history ends there.) *)
Theorem outstanding_count_invariant w0 w1 cs :
  dsa_create_cb w0 = (Returned 0, w1) →
  let w' := snd (run cs w1) in
  let evs := events_since (log w1) w' in
  0 ≤ num_outstanding (channel w') ≤ UINT32_MAX
  ∧ (in_flight_ok 0 evs = true →
     num_outstanding (channel w')
     = accepted evs - observed evs + faulted (fst (run cs w1))
     ∧ EvAssertFail AssertOutstandingPositive ∉ evs).
Proof.
  intros Hcreate w' evs. subst w' evs.
  destruct (dsa_create_cb_success w0 w1 Hcreate) as (_ & _ & Hn).
  split.
  - apply (counter_in_range_run cs w1). rewrite Hn. unfold UINT32_MAX. lia.
  - destruct (keeps_count_run cs w1) as (evs & Hl & H).
    unfold events_since. rewrite Hl, drop_app_length. rewrite Hn in H.
    intros Hok. destruct (H Hok) as [Hc Hf]. split; [lia | done].
Qed.

(** ** Device selection *)

Lemma cursor_moves_app l1 l2 :
  cursor_moves (l1 ++ l2) = cursor_moves l1 ++ cursor_moves l2.
Proof. apply omap_app. Qed.

Lemma channel_requests_app l1 l2 :
  channel_requests (l1 ++ l2) = channel_requests l1 ++ channel_requests l2.
Proof. apply omap_app. Qed.

Lemma scan_order_S i n m :
  scan_order i n (S m) = ((i + 1) mod n)%nat :: scan_order ((i + 1) mod n) n m.
Proof.
  unfold scan_order. simpl. f_equal; [f_equal; lia|].
  rewrite <- seq_shift, map_map. apply map_ext. intros k.
  rewrite <- (Nat.add_assoc (_ mod _)), Nat.Div0.add_mod_idemp_l. f_equal; lia.
Qed.

Lemma scan_position_S i n m :
  (((i + 1) mod n + m) mod n = (i + S m) mod n)%nat.
Proof. rewrite Nat.Div0.add_mod_idemp_l. f_equal. lia. Qed.

Lemma select_next_device_spec w i :
  g_next_dev w = Some i →
  (i < length (g_dsa_devices w))%nat →
  let j := ((i + 1) mod length (g_dsa_devices w))%nat in
  select_next_device w
  = (Returned j, with_log (log w ++ [EvCursor j]) (with_next_dev (Some j) w))
  ∧ (j < length (g_dsa_devices w))%nat.
Proof.
  intros Hcur Hi j. subst j. unfold select_next_device, bind, gets.
  rewrite Hcur. unfold TAILQ_NEXT.
  destruct (Nat.ltb_spec (S i) (length (g_dsa_devices w))) as [Hlt|Hge].
  - replace (i + 1)%nat with (S i) by lia. rewrite Nat.mod_small by done.
    split; [done|lia].
  - assert (S i = length (g_dsa_devices w)) as Hlen by lia.
    replace (i + 1)%nat with (S i) by lia. rewrite Hlen, Nat.Div0.mod_same.
    destruct (g_dsa_devices w); simpl in *; [lia|]. split; [done|lia].
Qed.

(** The scan loop, entered with [count] iterations done and the cursor on
    device [i]. *)
Lemma select_loop_spec socket : ∀ fuel count i w,
  g_next_dev w = Some i →
  (i < length (g_dsa_devices w))%nat →
  g_num_devices w = Z.of_nat (length (g_dsa_devices w)) →
  g_num_devices w ≤ UINT32_MAX →
  0 ≤ count < g_num_devices w →
  g_num_devices w - count ≤ Z.of_nat fuel →
  ∃ r w', select_loop fuel socket count w = (Returned r, w')
          ∧ scan_result socket i (g_num_devices w - count) w r w'.
Proof.
  induction fuel as [|fuel IH]; intros count i w Hcur Hi Hnum Hmax Hcount Hfuel;
    [simpl in Hfuel; lia|].
  destruct (select_next_device_spec w i Hcur Hi) as [Hsel Hj].
  set (devs := g_dsa_devices w) in *. set (n := length devs) in *.
  set (j := ((i + 1) mod n)%nat) in *.
  destruct (lookup_lt_is_Some_2 devs j Hj) as [dv Hdv].
  (* going round the loop once more, from a world [wx] that has logged [evx] *)
  assert (Hnext : ∀ wx evx,
    g_next_dev wx = Some j → g_dsa_devices wx = devs →
    g_num_devices wx = g_num_devices w →
    log wx = log w ++ evx →
    cursor_moves evx = [j] →
    Forall (λ jc, on_domain socket devs (fst jc)) (channel_requests evx) →
    Forall (λ jc, snd jc = NULL) (channel_requests evx) →
    ∃ r w',
      (do n0 <- gets g_num_devices;
       if uint32 (count + 1) <? n0
       then select_loop fuel socket (uint32 (count + 1))
       else ret (Returned None)) wx = (Returned r, w')
      ∧ scan_result socket i (g_num_devices w - count) w r w').
  { intros wx evx Hcx Hdx Hnx Hlx Hmx Hondx Hnullx.
    unfold bind, gets. rewrite Hnx.
    assert (uint32 (count + 1) = count + 1) as ->.
    { unfold uint32. apply Z.mod_small. unfold UINT32_MAX in Hmax. lia. }
    destruct (Z.ltb_spec (count + 1) (g_num_devices w)) as [Hlt|Hge].
    - destruct (IH (count + 1) j wx) as (r & w' & Hrun & Hres);
        try (rewrite ?Hdx, ?Hnx; done || lia).
      exists r, w'. split; [done|].
      destruct Hres as (evs & m & Hl & Hd & Hn & Hm1 & Hmb & Hcm & Hc' & Hon & Hr).
      rewrite Hdx, Hnx in *. fold n in Hcm, Hc', Hr.
      exists (evx ++ evs), (S m).
      rewrite cursor_moves_app, channel_requests_app, Hmx, Hcm, scan_order_S.
      subst j. rewrite scan_position_S in Hc', Hr.
      split_and!; try done; try lia.
      + by rewrite Hl, Hlx, app_assoc.
      + by apply Forall_app.
      + destruct r as [j'|].
        * destruct Hr as (-> & Hdom & Hch & denied & Hreq & Hden).
          split_and!; try done. exists (channel_requests evx ++ denied).
          split; [by rewrite Hreq, app_assoc|by apply Forall_app].
        * destruct Hr as [Hmm Hden]. split; [lia|by apply Forall_app].
    - exists None, wx. split; [done|]. exists evx, 1%nat.
      rewrite Hmx. unfold scan_order. cbn [seq map]. rewrite Nat.add_0_r.
      split_and!; try done; try lia. }
  simpl select_loop. unfold bind at 1. rewrite Hsel.
  unfold bind at 1, gets at 1.
  cbn [g_dsa_devices with_log with_next_dev]. fold devs. rewrite Hdv.
  destruct (Z.eqb_spec socket (spdk_idxd_get_socket (dsa dv))) as [Hsock|Hsock];
    cbn [negb].
  - (* on the domain: ask for a channel *)
    unfold bind at 1, idxd_get_channel, bind, modify, emit, modify, ret.
    cbn [driver with_log with_next_dev].
    destruct (spdk_idxd_get_channel (dsa dv) (driver w)) as [ch dr].
    assert (Hdom : on_domain socket devs j) by (by exists dv).
    destruct (Z.eqb_spec ch NULL) as [Hch|Hch]; cbn [negb].
    + apply Hnext with (evx := [EvCursor j; EvGetChannel j ch]); try done.
      * cbn. by rewrite <- app_assoc.
      * cbn. by repeat constructor.
      * cbn. by repeat constructor.
    + eexists (Some j), _. split; [reflexivity|].
      exists [EvCursor j; EvGetChannel j ch], 1%nat.
      unfold scan_order. cbn. rewrite <- app_assoc, Nat.add_0_r.
      split_and!; try done; try lia.
      * by repeat constructor.
      * exists []. by split.
  - (* off the domain: skip *)
    apply Hnext with (evx := [EvCursor j]); try done; by constructor.
Qed.

Lemma registry_wf_spec w :
  registry_wf w = true ↔
  ∃ i, g_next_dev w = Some i
       ∧ (i < length (g_dsa_devices w))%nat
       ∧ g_num_devices w = Z.of_nat (length (g_dsa_devices w))
       ∧ g_num_devices w ≤ UINT32_MAX.
Proof.
  unfold registry_wf. destruct (g_next_dev w) as [i|]; split.
  - intros H. apply andb_prop in H as [H H3]. apply andb_prop in H as [H1 H2].
    apply Nat.ltb_lt in H1. apply Z.eqb_eq in H2. apply Z.leb_le in H3.
    by exists i.
  - intros (i' & [= <-] & H1 & H2 & H3).
    apply andb_true_intro. split; [apply andb_true_intro; split|].
    + by apply Nat.ltb_lt.
    + by apply Z.eqb_eq.
    + by apply Z.leb_le.
  - done.
  - by intros (i' & [=] & _).
Qed.

(** Attaching a device to a registry that is in order, or to the empty
    registry the module starts with, leaves the registry in order. *)
Lemma attach_cb_registry_wf idxd w :
  (registry_wf w = true
   ∨ g_dsa_devices w = [] ∧ g_next_dev w = None ∧ g_num_devices w = 0) →
  Z.of_nat (length (g_dsa_devices w)) < UINT32_MAX →
  registry_wf (snd (attach_cb true idxd w)) = true.
Proof.
  intros Hw Hlen. apply registry_wf_spec.
  unfold attach_cb, bind, gets, modify, ret. cbn [negb].
  destruct Hw as [Hw|(Hd & Hc & Hn)].
  - apply registry_wf_spec in Hw as (i & Hc & Hi & Hn & Hmax).
    destruct w as [ini devs cur nd c dr m l]. simpl in *. subst cur nd.
    exists i. simpl. rewrite length_app. simpl.
    unfold uint32. rewrite Z.mod_small by (unfold UINT32_MAX in *; lia).
    split_and!; [done | lia | lia | unfold UINT32_MAX in *; lia].
  - destruct w as [ini devs cur nd c dr m l]. simpl in *. subst devs cur nd.
    simpl. exists 0%nat. split_and!; [done | lia | done | done].
Qed.

(** C5.  On a registry in order, [idxd_select_device] returns, after
    between one and (number of devices) iterations.  Each iteration moves
    the shared cursor to the next device of the list, the first one coming
    after the last.  A channel is only ever requested from a device of the
    caller's socket, so a device that is returned is on the caller's socket
    and has granted a channel.  When every request is denied (or no device
    is on the socket), the scan has visited each device once and returns no
    device. *)
Theorem idxd_select_device_locality w :
  registry_wf w = true →
  let socket := spdk_env_get_socket_id spdk_env_get_current_core in
  let devs := g_dsa_devices w in
  let n := length devs in
  ∃ i r w' evs (m : nat),
    g_next_dev w = Some i
    ∧ idxd_select_device w = (Returned r, w')
    ∧ log w' = log w ++ evs
    ∧ (1 ≤ m ≤ n)%nat
    ∧ cursor_moves evs = scan_order i n m
    ∧ g_next_dev w' = Some ((i + m) mod n)%nat
    ∧ Forall (λ jc, on_domain socket devs (fst jc)) (channel_requests evs)
    ∧ (∀ j, r = Some j →
         on_domain socket devs j
         ∧ chan (channel w') ≠ NULL
         ∧ last (channel_requests evs) = Some (j, chan (channel w')))
    ∧ (r = None → m = n)
    ∧ (r = None ↔ Forall (λ jc, snd jc = NULL) (channel_requests evs))
    ∧ registry_wf w' = true.
Proof.
  intros Hwf socket devs n.
  apply registry_wf_spec in Hwf as (i & Hcur & Hi & Hnum & Hmax).
  fold devs in Hi, Hnum. fold n in Hi, Hnum.
  destruct (select_loop_spec socket (S (Z.to_nat (g_num_devices w))) 0 i w)
    as (r & w1 & Hrun & evs & m & Hl & Hd & Hn & Hm1 & Hmb & Hcm & Hc' & Hon & Hr);
    try done; try lia.
  fold devs in Hd, Hcm, Hc', Hon, Hr. fold n in Hcm, Hc', Hr.
  assert (Hwf' : ∀ w2, g_dsa_devices w2 = devs → g_num_devices w2 = g_num_devices w →
                       g_next_dev w2 = Some ((i + m) mod n)%nat →
                       registry_wf w2 = true).
  { intros w2 H1 H2 H3. apply registry_wf_spec. exists ((i + m) mod n)%nat.
    rewrite H1, H2. fold n. split_and!; try done.
    apply Nat.mod_upper_bound. lia. }
  exists i, r.
  unfold idxd_select_device, bind, gets. fold socket. rewrite Hrun.
  destruct r as [j|].
  - destruct Hr as (-> & Hdom & Hch & denied & Hreq & Hden).
    exists w1, evs, m. split_and!; try done; try lia.
    + intros j [= <-]. split_and!; try done. rewrite Hreq. apply last_snoc.
    + split; [done|]. rewrite Hreq. intros Hall.
      apply Forall_app in Hall as [_ Hall]. by inversion Hall.
    + by apply Hwf'.
  - destruct Hr as [Hm Hden].
    eexists _, (evs ++ [EvErrlog LogNoMoreDevices]), m.
    rewrite cursor_moves_app, channel_requests_app. cbn. rewrite !app_nil_r.
    split_and!; try done; try lia.
    + by rewrite Hl, app_assoc.
    + by apply Hwf'.
Qed.

(** * The rest of the module: properties *)

(** ** The binding of a channel never changes *)

#[local] Instance same_binding_preorder : PreOrder same_binding.
Proof.
  split.
  - by intros w.
  - intros w1 w2 w3 (H1 & H2 & H3) (H4 & H5 & H6). unfold same_binding.
    by rewrite H4, H5, H6.
Qed.

Ltac binding_prim := by intros; unfold same_binding.

Lemma same_binding_process_single_task task :
  steps_in same_binding (_process_single_task task).
Proof.
  unfold _process_single_task, process_switch, idxd_submit_dualcast, assert,
    spdk_trace_record, emit.
  steps fail binding_prim.
Qed.

Lemma same_binding_dsa_submit_task task :
  steps_in same_binding (dsa_submit_task task).
Proof.
  unfold dsa_submit_task, STAILQ_EMPTY, STAILQ_INSERT_TAIL,
    spdk_accel_task_complete, emit.
  steps ltac:(apply same_binding_process_single_task) binding_prim.
Qed.

Lemma same_binding_fail_queued_tasks fuel :
  steps_in same_binding (fail_queued_tasks fuel).
Proof.
  induction fuel as [|fuel IH]; simpl;
    unfold STAILQ_FIRST, STAILQ_REMOVE_HEAD, spdk_accel_task_complete, emit;
    steps ltac:(apply IH) binding_prim.
Qed.

Lemma same_binding_submit_queued_from q :
  steps_in same_binding (submit_queued_from q).
Proof.
  induction q as [|task q IH]; simpl;
    unfold STAILQ_REMOVE_HEAD, spdk_accel_task_complete, emit;
    steps ltac:(first [apply same_binding_process_single_task | apply IH])
      binding_prim.
Qed.

Lemma same_binding_dsa_submit_queued_tasks :
  steps_in same_binding dsa_submit_queued_tasks.
Proof.
  unfold dsa_submit_queued_tasks.
  steps ltac:(first [apply same_binding_submit_queued_from
                    | apply same_binding_fail_queued_tasks]) binding_prim.
Qed.

Lemma same_binding_cb_fn task status :
  steps_in same_binding (cb_fn task status).
Proof.
  intros w. unfold cb_fn, bind, emit, modify. rewrite dsa_done_unfold.
  cbn [snd]. unfold after_done. by destruct (done_faults task status _).
Qed.

Lemma same_binding_process_completions cpls :
  steps_in same_binding (process_completions cpls).
Proof.
  induction cpls as [|[task status] cpls IH]; cbn [process_completions];
    unfold and_then;
    steps ltac:(first [apply same_binding_cb_fn | apply IH]) binding_prim.
Qed.

Lemma same_binding_idxd_poll : steps_in same_binding idxd_poll.
Proof.
  unfold idxd_poll, and_then, STAILQ_EMPTY.
  steps ltac:(first [apply same_binding_process_completions
                    | apply same_binding_dsa_submit_queued_tasks
                    | apply steps_in_process_events; binding_prim])
    binding_prim.
Qed.

Lemma same_binding_run cs : steps_in same_binding (run cs).
Proof.
  induction cs as [|c cs IH]; cbn [run];
    [apply steps_in_ret; typeclasses eauto|].
  unfold and_then. apply steps_in_bind; [typeclasses eauto| |].
  - destruct c; cbn [run_call]; unfold and_then;
      steps ltac:(first [apply same_binding_dsa_submit_task
                        | apply same_binding_idxd_poll
                        | apply same_binding_cb_fn
                        | apply same_binding_dsa_submit_queued_tasks])
        binding_prim.
  - intros []; [apply IH|apply steps_in_ret; typeclasses eauto..].
Qed.

(** X1.  No call on a channel changes its health state, its driver channel
    or its device: after any history of submissions, polls, completion
    callbacks and drains the three are what they were.  In particular none
    of these calls puts a channel into the ERROR state, and none takes a
    channel out of it. *)
Theorem channel_binding_invariant cs w :
  state (channel (snd (run cs w))) = state (channel w)
  ∧ chan (channel (snd (run cs w))) = chan (channel w)
  ∧ dev (channel (snd (run cs w))) = dev (channel w).
Proof. apply same_binding_run. Qed.

(** ** Which tasks reach the driver *)

Lemma dispatched_app l1 l2 : dispatched (l1 ++ l2) = dispatched l1 ++ dispatched l2.
Proof. apply omap_app. Qed.

Lemma dualcast_shape_ok_spec task :
  dualcast_shape_ok task = true ↔ ¬ dualcast_malformed task.
Proof.
  split.
  - intros Hok Hbad. unfold dualcast_shape_ok in Hok.
    destruct (dualcast_malformed_guard task Hbad) as [Hg|Hg];
      rewrite Hg in Hok; [done|]. by rewrite andb_false_r in Hok.
  - intros Hgood. unfold dualcast_shape_ok, dualcast_malformed in *.
    destruct (Z.eqb_spec (iovcnt (d task)) 1); [|tauto].
    destruct (Z.eqb_spec (iovcnt (d2 task)) 1); [|tauto].
    destruct (Z.eqb_spec (iovcnt (s task)) 1); [|tauto].
    destruct (Z.eqb_spec (iov_len (iovs0 (d task))) (iov_len (iovs0 (s task))));
      [|exfalso; apply Hgood; do 3 right; intros [? ?]; congruence].
    destruct (Z.eqb_spec (iov_len (iovs0 (d task))) (iov_len (iovs0 (d2 task))));
      [done|exfalso; apply Hgood; do 3 right; intros [? ?]; congruence].
Qed.

(** The [switch], by whether the task reaches the driver. *)
Lemma process_switch_reaches task flags w :
  if reaches_driver task then
    ∃ req, request_task req = task
           ∧ process_switch task flags w
             = (fst (spdk_idxd_submit req (driver w)),
                after_driver (snd (spdk_idxd_submit req (driver w)))
                  [EvSubmit req (fst (spdk_idxd_submit req (driver w)))] w)
  else
    ∃ evs, process_switch task flags w = (- EINVAL, after_driver (driver w) evs w)
           ∧ driver_calls evs = [] ∧ completions evs = []
           ∧ (evs = [] ∨ evs = [EvAssertFail AssertKnownOpcode]
                         ∧ ∃ code, op_code task = SPDK_ACCEL_OPC_OTHER code).
Proof.
  unfold reaches_driver, process_switch, bind, gets.
  assert (Hsub : ∀ req, idxd_submit req w
    = (fst (spdk_idxd_submit req (driver w)),
       after_driver (snd (spdk_idxd_submit req (driver w)))
         [EvSubmit req (fst (spdk_idxd_submit req (driver w)))] w)).
  { intros req. unfold idxd_submit. by destruct (spdk_idxd_submit req (driver w)). }
  destruct (op_code task) eqn:Hop; try (eexists; split; [|apply Hsub]; done).
  - unfold dualcast_shape_ok, idxd_submit_dualcast.
    destruct (_ || _ || _); cbn [negb andb].
    { exists []. rewrite after_driver_nil. split_and!; try done. by left. }
    destruct (_ || _); cbn [negb andb].
    { exists []. rewrite after_driver_nil. split_and!; try done. by left. }
    unfold bind, gets. eexists; split; [|apply Hsub]; done.
  - exists [EvAssertFail AssertKnownOpcode]. split_and!; try done.
    right. split; [done|]. by exists code.
Qed.

(** [_process_single_task], by whether the task reaches the driver. *)
Lemma process_single_task_reaches task w :
  ∃ rc w' evs,
    _process_single_task task w = (rc, w')
    ∧ log w' = log w ++ evs
    ∧ state (channel w') = state (channel w)
    ∧ queued_tasks (channel w') = queued_tasks (channel w)
    ∧ completions evs = []
    ∧ (if reaches_driver task then
         ∃ req, request_task req = task
                ∧ spdk_idxd_submit req (driver w) = (rc, driver w')
                ∧ driver_calls evs = [(req, rc)]
       else
         rc = - EINVAL ∧ driver w' = driver w ∧ driver_calls evs = []
         ∧ num_outstanding (channel w') = num_outstanding (channel w))
    ∧ (EvAssertFail AssertKnownOpcode ∈ evs →
       ∃ code, op_code task = SPDK_ACCEL_OPC_OTHER code).
Proof.
  pose proof (process_switch_reaches task 0 w) as Hsw.
  unfold _process_single_task, bind.
  destruct (reaches_driver task).
  - destruct Hsw as (req & Hreq & ->).
    destruct (spdk_idxd_submit req (driver w)) as [rc dr] eqn:Hdrv. cbn [fst snd].
    destruct (Z.eqb_spec rc 0) as [->|Hrc].
    + eexists 0, _, _. split; [reflexivity|]. cbn.
      rewrite <- app_assoc. split_and!; try done.
      * by exists req.
      * intros Hin. apply elem_of_cons in Hin as [?|Hin]; [done|].
        by apply list_elem_of_singleton in Hin.
    + eexists rc, _, _. split; [reflexivity|]. cbn. split_and!; try done.
      * by exists req.
      * intros Hin. by apply list_elem_of_singleton in Hin.
  - destruct Hsw as (evs & -> & Hd & Hc & Hevs). cbn.
    eexists (- EINVAL), _, evs. split; [reflexivity|]. cbn.
    split_and!; try done.
    intros Hin. destruct Hevs as [->|[_ Hcode]]; [|done].
    by apply elem_of_nil in Hin.
Qed.

(** X2.  The hardware is contacted for a task exactly when the opcode has a
    case in the [switch] and, for a dual-cast, the buffers pass the shape
    check.  For such a task [_process_single_task] makes one driver call,
    carrying the task as completion token, and returns what the driver
    returned; for any other task it returns -EINVAL and leaves the driver,
    the driver-call log and [num_outstanding] as they were. *)
Theorem dispatcher_contacts_driver task w :
  let rc := fst (_process_single_task task w) in
  let w' := snd (_process_single_task task w) in
  if reaches_driver task then
    ∃ req, request_task req = task
           ∧ spdk_idxd_submit req (driver w) = (rc, driver w')
           ∧ driver_calls (log w') = driver_calls (log w) ++ [(req, rc)]
  else
    rc = - EINVAL
    ∧ driver w' = driver w
    ∧ driver_calls (log w') = driver_calls (log w)
    ∧ num_outstanding (channel w') = num_outstanding (channel w).
Proof.
  destruct (process_single_task_reaches task w)
    as (rc & w' & evs & Hrun & Hl & _ & _ & _ & H & _).
  rewrite Hrun. cbn [fst snd]. rewrite Hl, driver_calls_app.
  destruct (reaches_driver task).
  - destruct H as (req & Hreq & Hdrv & Hcalls). exists req. by rewrite Hcalls.
  - destruct H as (-> & Hdr & Hcalls & Hn). by rewrite Hcalls, app_nil_r.
Qed.

Lemma supported_opcode_has_case w0 task :
  g_dsa_initialized w0 = true →
  fst (dsa_supports_opcode (op_code task) w0) = true →
  ∀ code, op_code task ≠ SPDK_ACCEL_OPC_OTHER code.
Proof.
  intros Hinit. unfold dsa_supports_opcode, bind, gets. rewrite Hinit. simpl.
  by destruct (op_code task).
Qed.

(** X3.  The capability query and the dispatcher agree: a task whose opcode
    an initialised module reports as supported never runs into the default
    case of the [switch] (the assertion there does not fail), and unless it
    is a malformed dual-cast it is handed to the driver with exactly one
    call. *)
Theorem supported_opcode_is_dispatched w0 task w :
  g_dsa_initialized w0 = true →
  fst (dsa_supports_opcode (op_code task) w0) = true →
  let rc := fst (_process_single_task task w) in
  let evs := events_since (log w) (snd (_process_single_task task w)) in
  (EvAssertFail AssertKnownOpcode ∉ evs)
  ∧ (¬ dualcast_malformed task →
     ∃ req, request_task req = task ∧ driver_calls evs = [(req, rc)]).
Proof.
  intros Hinit Hsup. pose proof (supported_opcode_has_case w0 task Hinit Hsup) as Hcase.
  destruct (process_single_task_reaches task w)
    as (rc & w' & evs & Hrun & Hl & _ & _ & _ & H & Hassert).
  rewrite Hrun. cbn [fst snd]. unfold events_since. rewrite Hl, drop_app_length.
  split.
  - intros Hin. destruct (Hassert Hin) as [code Hcode]. by apply (Hcase code).
  - intros Hshape. apply dualcast_shape_ok_spec in Hshape.
    unfold reaches_driver in H. rewrite Hshape in H.
    destruct (op_code task) eqn:Hop;
      try (destruct H as (req & Hreq & _ & Hcalls); by exists req).
    by destruct (Hcase code).
Qed.

(** ** The FIFO along a history *)

Lemma scarcity_logged_app_l l1 l2 : scarcity_logged l1 → scarcity_logged (l1 ++ l2).
Proof. intros [req H]. exists req. apply elem_of_app. by left. Qed.

Lemma scarcity_logged_app_r l1 l2 : scarcity_logged l2 → scarcity_logged (l1 ++ l2).
Proof. intros [req H]. exists req. apply elem_of_app. by right. Qed.

Lemma fifo_step_refl w : fifo_step [] w w.
Proof.
  intros _. exists [], []. rewrite !app_nil_r. split_and!; try done. by left.
Qed.

Lemma fifo_step_trans a1 a2 w1 w2 w3 :
  fifo_step a1 w1 w2 → fifo_step a2 w2 w3 → fifo_step (a1 ++ a2) w1 w3.
Proof.
  intros H1 H2 Hact.
  destruct (H1 Hact) as (P1 & evs1 & Hl1 & Hs1 & Hq1 & Hd1 & Hb1).
  destruct H2 as (P2 & evs2 & Hl2 & Hs2 & Hq2 & Hd2 & Hb2); [congruence|].
  exists (P1 ++ P2), (evs1 ++ evs2). split_and!.
  - by rewrite Hl2, Hl1, app_assoc.
  - congruence.
  - by rewrite app_assoc, Hq1, <- !app_assoc, Hq2.
  - by rewrite dispatched_app, List.filter_app, Hd1, Hd2.
  - intros Hne. destruct (Hb2 Hne) as [Hne2|Hbusy].
    + destruct (Hb1 Hne2) as [?|Hbusy]; [by left|right].
      by apply scarcity_logged_app_l.
    + right. by apply scarcity_logged_app_r.
Qed.

#[local] Instance fifo_step_preorder : PreOrder (fifo_step []).
Proof.
  split.
  - intros w. apply fifo_step_refl.
  - intros w1 w2 w3 H1 H2. apply (fifo_step_trans [] [] w1 w2 w3 H1 H2).
Qed.

(** A world that differs in nothing the FIFO relation looks at. *)
Lemma fifo_step_quiet w w' :
  log w' = log w → channel w' = channel w → fifo_step [] w w'.
Proof.
  intros Hl Hc _. exists [], []. rewrite Hl, Hc, !app_nil_r.
  split_and!; try done. by left.
Qed.

Lemma dispatched_of_driver_calls l :
  dispatched l
  = omap (λ c : idxd_request * Z,
            if snd c =? - EBUSY then None else Some (request_task (fst c)))
      (driver_calls l).
Proof.
  induction l as [|e l IH]; [done|].
  destruct e; simpl; try done. destruct (rc =? - EBUSY); simpl; by rewrite IH.
Qed.

Lemma scarcity_logged_of_driver_calls l req :
  (req, - EBUSY) ∈ driver_calls l → scarcity_logged l.
Proof.
  intros Hin. exists req. induction l as [|e l IH]; [by apply elem_of_nil in Hin|].
  destruct e; simpl in Hin; try (apply elem_of_cons; right; by apply IH).
  apply elem_of_cons in Hin as [[= <- <-]|Hin].
  - apply elem_of_cons. by left.
  - apply elem_of_cons. right. by apply IH.
Qed.

(** One dispatch attempt, seen from the FIFO. *)
Lemma process_single_task_fifo task w :
  ∃ rc w' evs,
    _process_single_task task w = (rc, w')
    ∧ log w' = log w ++ evs
    ∧ state (channel w') = state (channel w)
    ∧ queued_tasks (channel w') = queued_tasks (channel w)
    ∧ dispatched evs
      = (if rc =? - EBUSY then [] else List.filter reaches_driver [task])
    ∧ (rc = - EBUSY → scarcity_logged evs).
Proof.
  destruct (process_single_task_reaches task w)
    as (rc & w' & evs & Hrun & Hl & Hs & Hq & _ & H & _).
  exists rc, w', evs. split_and!; try done.
  - rewrite dispatched_of_driver_calls. cbn [List.filter].
    destruct (reaches_driver task).
    + destruct H as (req & Hreq & _ & ->). cbn.
      destruct (rc =? - EBUSY); by rewrite ?Hreq.
    + destruct H as (-> & _ & -> & _). done.
  - intros ->. destruct (reaches_driver task).
    + destruct H as (req & _ & _ & Hcalls).
      apply (scarcity_logged_of_driver_calls _ req). rewrite Hcalls.
      by apply list_elem_of_singleton.
    + by destruct H as (? & _).
Qed.

Lemma submit_queued_from_fifo q : ∀ w,
  queued_tasks (channel w) = q →
  ∃ P evs rc w',
    submit_queued_from q w = (rc, w')
    ∧ log w' = log w ++ evs
    ∧ state (channel w') = state (channel w)
    ∧ q = P ++ queued_tasks (channel w')
    ∧ dispatched evs = List.filter reaches_driver P.
Proof.
  induction q as [|t q IH]; intros w Hq.
  - exists [], [], 0, w. simpl. by rewrite app_nil_r, Hq.
  - simpl. unfold bind at 1.
    destruct (process_single_task_fifo t w)
      as (rc & w1 & evs1 & -> & Hl1 & Hs1 & Hq1 & Hd1 & _).
    destruct (Z.eqb_spec rc (- EBUSY)) as [->|Hnb].
    { exists [], evs1, (- EBUSY), w1. rewrite Hq1, Hq. by split_and!. }
    unfold bind, STAILQ_REMOVE_HEAD, modify.
    set (w2 := with_channel (λ c, set_queued_tasks (tail (queued_tasks c)) c) w1).
    assert (Hq2 : queued_tasks (channel w2) = q).
    { change (tail (queued_tasks (channel w1)) = q). by rewrite Hq1, Hq. }
    destruct (rc =? 0); cbn [negb].
    + unfold ret at 1.
      destruct (IH w2 Hq2) as (P & evs & rc' & w' & -> & Hl & Hs & HP & Hd).
      exists (t :: P), (evs1 ++ evs), rc', w'. split_and!.
      * done.
      * rewrite Hl. change (log w2) with (log w1). by rewrite Hl1, app_assoc.
      * rewrite Hs. change (state (channel w2)) with (state (channel w1)). done.
      * by rewrite <- app_comm_cons, <- HP.
      * rewrite dispatched_app, Hd1, Hd.
        change (t :: P) with ([t] ++ P). by rewrite List.filter_app.
    + unfold spdk_accel_task_complete, emit, modify.
      set (w3 := with_log (log w2 ++ [EvTaskComplete t rc]) w2).
      destruct (IH w3 Hq2) as (P & evs & rc' & w' & Hrun & Hl & Hs & HP & Hd).
      exists (t :: P), (evs1 ++ EvTaskComplete t rc :: evs), rc', w'. split_and!.
      * exact Hrun.
      * rewrite Hl. change (log w3) with (log w1 ++ [EvTaskComplete t rc]).
        rewrite Hl1, <- !app_assoc. done.
      * rewrite Hs. change (state (channel w3)) with (state (channel w1)). done.
      * by rewrite <- app_comm_cons, <- HP.
      * rewrite dispatched_app, Hd1.
        change (dispatched (EvTaskComplete t rc :: evs)) with (dispatched evs).
        rewrite Hd. change (t :: P) with ([t] ++ P). by rewrite List.filter_app.
Qed.

Lemma fifo_step_dsa_submit_queued_tasks : steps_in (fifo_step []) dsa_submit_queued_tasks.
Proof.
  intros w Hact. rewrite (dsa_submit_queued_tasks_active w Hact).
  destruct (submit_queued_from_fifo _ w eq_refl)
    as (P & evs & rc & w' & -> & Hl & Hs & HP & Hd).
  exists P, evs. rewrite app_nil_r. cbn [snd]. split_and!; try done.
  intros Hne. left. intros Hq. rewrite Hq in HP.
  symmetry in HP. apply app_eq_nil in HP as [_ HP]. done.
Qed.

Lemma dispatched_verify_events task w :
  dispatched (verify_events task w) = [].
Proof.
  unfold verify_events, verify_call.
  by destruct (fst (software_verify task w) =? 0), (dif_err (dif task) =? NULL).
Qed.

Lemma dispatched_done_events task status n :
  dispatched (done_events task status n) = [].
Proof. unfold done_events. by destruct (0 <? n). Qed.

Lemma fifo_step_cb_fn task status : steps_in (fifo_step []) (cb_fn task status).
Proof.
  intros w _. unfold cb_fn, bind, emit, modify. rewrite dsa_done_unfold.
  cbn [snd]. unfold after_done.
  set (w0 := with_log (log w ++ [EvCallback task status]) w).
  destruct (done_faults task status w0).
  - exists [], [EvCallback task status; verify_call task w0].
    cbn. rewrite app_nil_r, <- app_assoc. split_and!; try done. by left.
  - eexists [], (EvCallback task status :: _).
    cbn [log with_log with_channel with_mem channel state queued_tasks
         set_num_outstanding w0].
    rewrite app_nil_r, <- app_assoc. split; [reflexivity|].
    split_and!; try done.
    + change (dispatched (EvCallback task status :: ?l)) with (dispatched l).
      rewrite dispatched_app, dispatched_done_events.
      destruct (needs_software_verify task status); [|done].
      by rewrite dispatched_verify_events.
    + by left.
Qed.

Lemma fifo_step_process_completions cpls :
  steps_in (fifo_step []) (process_completions cpls).
Proof.
  induction cpls as [|[task status] cpls IH]; cbn [process_completions];
    unfold and_then;
    steps ltac:(first [apply fifo_step_cb_fn | apply IH]) fail.
Qed.

Lemma fifo_step_idxd_poll : steps_in (fifo_step []) idxd_poll.
Proof.
  unfold idxd_poll, and_then, STAILQ_EMPTY.
  steps ltac:(first [apply fifo_step_process_completions
                    | apply fifo_step_dsa_submit_queued_tasks
                    | apply steps_in_process_events; intros;
                      by apply fifo_step_quiet])
    fail.
Qed.

Lemma fifo_step_dsa_submit_task task w :
  fifo_step [task] w (snd (dsa_submit_task task w)).
Proof.
  intros Hact. rewrite (dsa_submit_task_unfold task w Hact).
  destruct (queued_tasks (channel w)) as [|t0 q] eqn:Hq.
  - destruct (process_single_task_fifo task w)
      as (rc & w1 & evs1 & -> & Hl1 & Hs1 & Hq1 & Hd1 & Hb1).
    rewrite Hq in Hq1. cbn [snd].
    destruct (Z.eqb_spec rc (- EBUSY)) as [->|Hnb].
    + exists [], evs1. split_and!; try done.
      * change (queued_tasks (channel (enqueued task w1)))
          with (queued_tasks (channel w1) ++ [task]). by rewrite Hq1.
      * intros _. right. by apply Hb1.
    + destruct (rc =? 0); cbn [negb].
      * exists [task], evs1. rewrite Hq1, app_nil_r. by split_and!.
      * exists [task], (evs1 ++ [EvTaskComplete task rc]).
        change (queued_tasks (channel (completed task rc w1)))
          with (queued_tasks (channel w1)).
        rewrite Hq1, app_nil_r, dispatched_app, Hd1. cbn. rewrite app_nil_r.
        split_and!; try done. cbn. by rewrite Hl1, app_assoc.
  - cbn [snd]. exists [], []. cbn. rewrite app_nil_r, Hq.
    split_and!; try done. intros _. by left.
Qed.

Lemma fifo_step_run_call c w :
  fifo_step (submitted [c]) w (snd (run_call c w)).
Proof.
  destruct c; cbn [run_call submitted omap].
  - pose proof (fifo_step_dsa_submit_task task w) as H.
    unfold bind, ret. by destruct (dsa_submit_task task w).
  - pose proof (fifo_step_idxd_poll w) as H.
    unfold and_then, bind, ret. by destruct (idxd_poll w) as [[| |] ?].
  - apply fifo_step_cb_fn.
  - pose proof (fifo_step_dsa_submit_queued_tasks w) as H.
    unfold bind, ret. by destruct (dsa_submit_queued_tasks w).
Qed.

Lemma fifo_step_run cs : ∀ w,
  fifo_step (submitted (started cs w)) w (snd (run cs w)).
Proof.
  induction cs as [|c cs IH]; intros w; [apply fifo_step_refl|].
  cbn [run started]. unfold and_then, bind.
  pose proof (fifo_step_run_call c w) as H1.
  destruct (run_call c w) as [[[]| |] w1]; cbn [fst snd ret] in *.
  - change (c :: started cs w1) with ([c] ++ started cs w1).
    unfold submitted. rewrite omap_app.
    apply (fifo_step_trans _ _ w w1); [exact H1 | apply IH].
  - exact H1.
  - exact H1.
Qed.

Lemma started_all cs : ∀ w, fst (run cs w) = Returned tt → started cs w = cs.
Proof.
  induction cs as [|c cs IH]; intros w; [done|].
  cbn [run started]. unfold and_then, bind.
  destruct (run_call c w) as [[[]| |] w1]; cbn [fst snd ret]; try done.
  intros H. f_equal. by apply IH.
Qed.

(** X4.  FIFO order.  On an active channel, after any history of calls, the
    tasks that were queued at the start followed by the tasks submitted
    since, in order, are the tasks [P] that have left the submission path
    followed by the tasks still in the FIFO: nothing is lost, duplicated or
    reordered.  The driver has been given for good (any answer but -EBUSY)
    exactly the tasks of [P] that reach the driver, in arrival order.  When
    a completion callback faults the history ends there, and the same holds
    of the calls that were made. *)
Theorem fifo_order_preserved cs w :
  state (channel w) = IDXD_CHANNEL_ACTIVE →
  (fst (run cs w) = Returned tt →
   ∃ P, queued_tasks (channel w) ++ submitted cs
        = P ++ queued_tasks (channel (snd (run cs w)))
        ∧ dispatched (events_since (log w) (snd (run cs w)))
          = List.filter reaches_driver P)
  ∧ (∃ P, queued_tasks (channel w) ++ submitted (started cs w)
          = P ++ queued_tasks (channel (snd (run cs w)))
          ∧ dispatched (events_since (log w) (snd (run cs w)))
            = List.filter reaches_driver P).
Proof.
  intros Hact.
  destruct (fifo_step_run cs w Hact) as (P & evs & Hl & _ & HP & Hd & _).
  assert (Hev : events_since (log w) (snd (run cs w)) = evs).
  { unfold events_since. by rewrite Hl, drop_app_length. }
  split.
  - intros Hret. exists P. rewrite (started_all cs w Hret) in HP.
    by rewrite Hev.
  - exists P. by rewrite Hev.
Qed.

(** X5.  A task is only ever queued because of scarcity: on an active
    channel that starts with an empty FIFO, if the FIFO is not empty after
    a history of calls, the driver has answered a submission with -EBUSY
    during that history. *)
Theorem backlog_only_after_scarcity cs w :
  state (channel w) = IDXD_CHANNEL_ACTIVE →
  queued_tasks (channel w) = [] →
  queued_tasks (channel (snd (run cs w))) ≠ [] →
  scarcity_logged (events_since (log w) (snd (run cs w))).
Proof.
  intros Hact Hq Hne.
  destruct (fifo_step_run cs w Hact) as (P & evs & Hl & _ & _ & _ & Hb).
  unfold events_since. rewrite Hl, drop_app_length.
  by destruct (Hb Hne).
Qed.

(** ** One tick of the poller *)

Lemma completions_verify_events task w : completions (verify_events task w) = [].
Proof.
  unfold verify_events, verify_call.
  by destruct (fst (software_verify task w) =? 0), (dif_err (dif task) =? NULL).
Qed.

Lemma driver_calls_verify_events task w : driver_calls (verify_events task w) = [].
Proof.
  unfold verify_events, verify_call.
  by destruct (fst (software_verify task w) =? 0), (dif_err (dif task) =? NULL).
Qed.

Lemma completions_done_events task status n :
  completions (done_events task status n) = [(task, status)].
Proof. unfold done_events. by destruct (0 <? n). Qed.

Lemma driver_calls_done_events task status n :
  driver_calls (done_events task status n) = [].
Proof. unfold done_events. by destruct (0 <? n). Qed.

(** One call of the callback by the driver. *)
Lemma cb_fn_spec task status w :
  ∃ evs,
    log (snd (cb_fn task status w)) = log w ++ evs
    ∧ driver_calls evs = []
    ∧ driver (snd (cb_fn task status w)) = driver w
    ∧ state (channel (snd (cb_fn task status w))) = state (channel w)
    ∧ queued_tasks (channel (snd (cb_fn task status w))) = queued_tasks (channel w)
    ∧ match fst (cb_fn task status w) with
      | Returned _ => completions evs = [(task, status)]
      | NullDeref =>
          status = - EIO ∧ op_code task = SPDK_ACCEL_OPC_DIF_VERIFY
          ∧ dif_err (dif task) = NULL ∧ completions evs = []
      | OutOfFuel => False
      end
    ∧ (dif_err (dif task) ≠ NULL → fst (cb_fn task status w) = Returned tt).
Proof.
  unfold cb_fn, bind, emit, modify. rewrite dsa_done_unfold.
  cbn [fst snd]. unfold after_done, done_outcome.
  set (w0 := with_log (log w ++ [EvCallback task status]) w).
  pose proof (done_faults_spec task status w0) as Hf.
  destruct (done_faults task status w0).
  - destruct (proj1 Hf eq_refl) as (Hs & Hop & Hnull & _).
    exists [EvCallback task status; verify_call task w0].
    cbn [log with_log w0 driver channel]. rewrite <- app_assoc.
    split_and!; try done.
  - exists (EvCallback task status
            :: (if needs_software_verify task status
                then verify_events task w0 else [])
               ++ done_events task status (num_outstanding (channel w))).
    cbn [log with_log with_channel with_mem w0 driver channel state
         queued_tasks set_num_outstanding].
    rewrite <- app_assoc. split_and!; try done.
    + change (driver_calls (EvCallback task status :: ?l)) with (driver_calls l).
      rewrite driver_calls_app, driver_calls_done_events.
      destruct (needs_software_verify task status); [|done].
      by rewrite driver_calls_verify_events.
    + change (completions (EvCallback task status :: ?l)) with (completions l).
      rewrite completions_app, completions_done_events.
      destruct (needs_software_verify task status); [|done].
      by rewrite completions_verify_events.
Qed.

(** The callbacks of one [spdk_idxd_process_events]: every completion the
    driver reports is delivered, in order, unless one of the callbacks
    faults; the completions before that one have been delivered. *)
Lemma process_completions_spec cpls : ∀ w,
  ∃ evs,
    log (snd (process_completions cpls w)) = log w ++ evs
    ∧ driver_calls evs = []
    ∧ driver (snd (process_completions cpls w)) = driver w
    ∧ state (channel (snd (process_completions cpls w))) = state (channel w)
    ∧ queued_tasks (channel (snd (process_completions cpls w)))
      = queued_tasks (channel w)
    ∧ match fst (process_completions cpls w) with
      | Returned _ => completions evs = cpls
      | NullDeref =>
          ∃ before t rest,
            cpls = before ++ (t, - EIO) :: rest
            ∧ op_code t = SPDK_ACCEL_OPC_DIF_VERIFY
            ∧ dif_err (dif t) = NULL
            ∧ completions evs = before
      | OutOfFuel => False
      end
    ∧ (Forall (λ c, dif_err (dif (fst c)) ≠ NULL) cpls →
       fst (process_completions cpls w) = Returned tt).
Proof.
  induction cpls as [|[task status] cpls IH]; intros w.
  - exists []. cbn. rewrite app_nil_r. by split_and!.
  - cbn [process_completions]. unfold and_then, bind.
    destruct (cb_fn_spec task status w)
      as (evs1 & Hl1 & Hd1 & Hdr1 & Hs1 & Hq1 & Hr1 & Hok1).
    destruct (cb_fn task status w) as [[[]| |] w1]; cbn [fst snd ret] in *.
    + destruct (IH w1) as (evs & Hl & Hd & Hdr & Hs & Hq & Hr & Hok).
      exists (evs1 ++ evs).
      rewrite Hl, Hl1, Hdr, Hdr1, Hs, Hs1, Hq, Hq1, <- app_assoc,
        driver_calls_app, Hd1, Hd.
      split_and!; try done.
      * destruct (fst (process_completions cpls w1)).
        -- by rewrite completions_app, Hr1, Hr.
        -- destruct Hr as (before & t & rest & -> & Hop & Hnull & Hc).
           exists ((task, status) :: before), t, rest.
           rewrite completions_app, Hr1, Hc. by split_and!.
        -- done.
      * intros Hall. apply Hok. by inversion Hall.
    + exists evs1. destruct Hr1 as (-> & Hop & Hnull & Hc).
      split_and!; try done.
      * by exists [], task, cpls.
      * intros Hall. inversion Hall as [|? ? Hhd _]; subst.
        exfalso. by apply Hhd.
    + done.
Qed.

(** A drain, in either state of the channel: what it completes and what it
    hands to the driver are tasks of the FIFO, in its order, and what is
    left is the tail end of the FIFO. *)
Lemma dsa_submit_queued_tasks_summary w :
  ∃ evs,
    log (snd (dsa_submit_queued_tasks w)) = log w ++ evs
    ∧ map fst (completions evs) `sublist_of` queued_tasks (channel w)
    ∧ map (request_task ∘ fst) (driver_calls evs) `sublist_of` queued_tasks (channel w)
    ∧ queued_tasks (channel (snd (dsa_submit_queued_tasks w)))
        `suffix_of` queued_tasks (channel w)
    ∧ (state (channel w) = IDXD_CHANNEL_ERROR →
       queued_tasks (channel (snd (dsa_submit_queued_tasks w))) = []
       ∧ completions evs = map (λ t, (t, - EINVAL)) (queued_tasks (channel w))).
Proof.
  destruct (state (channel w)) eqn:Hst.
  - rewrite (dsa_submit_queued_tasks_active w Hst).
    destruct (submit_queued_from_spec _ w eq_refl)
      as (k & cs & evs & rc & w' & -> & Hk & Hq & _ & Hl & Hc & Hsub & _ & Hdrv & _).
    exists evs. cbn [snd]. rewrite Hc, Hq. split_and!; try done.
    + etrans; [exact Hsub|]. apply sublist_take.
    + apply suffix_drop.
  - unfold dsa_submit_queued_tasks, bind, gets. rewrite Hst.
    rewrite (fail_queued_tasks_spec _ w eq_refl). cbn [snd ret].
    assert (Hc : ∀ q, completions (map (λ t, EvTaskComplete t (- EINVAL)) q)
                      = map (λ t, (t, - EINVAL)) q).
    { intros q. induction q; simpl; by f_equal. }
    assert (Hd : ∀ q, driver_calls (map (λ t, EvTaskComplete t (- EINVAL)) q) = []).
    { intros q. by induction q. }
    exists (map (λ t, EvTaskComplete t (- EINVAL)) (queued_tasks (channel w))).
    rewrite Hc, Hd, map_map. cbn. rewrite map_id. split_and!; try done.
    + apply sublist_nil_l.
    + apply suffix_nil.
Qed.

(** X6.  One tick of [idxd_poll].  The completions the driver reports are
    delivered first, in the order reported, without any driver submission;
    only then is the backlog drained, and what the drain completes or hands
    to the driver are tasks of the FIFO in FIFO order.  The tick adds
    nothing to the FIFO: what is left is its tail end, and nothing at all
    on a channel in the ERROR state.  The return value is busy exactly when
    the count returned by [spdk_idxd_process_events] is positive, whatever
    the drain did.  The tick returns whenever every task reported has an
    error record.  It faults only in the callback of a DIF verify task
    without an error record that is reported with -EIO: the completions
    reported before that one have been delivered, and the backlog is not
    drained. *)
Theorem idxd_poll_tick w :
  let cpls := fst (fst (spdk_idxd_process_events (chan (channel w)) (driver w))) in
  let count := snd (fst (spdk_idxd_process_events (chan (channel w)) (driver w))) in
  let q := queued_tasks (channel w) in
  match fst (idxd_poll w) with
  | Returned v =>
      v = (if 0 <? count then SPDK_POLLER_BUSY else SPDK_POLLER_IDLE)
      ∧ (∃ delivered drained,
           events_since (log w) (snd (idxd_poll w)) = delivered ++ drained
           ∧ completions delivered = cpls
           ∧ driver_calls delivered = []
           ∧ map fst (completions drained) `sublist_of` q
           ∧ map (request_task ∘ fst) (driver_calls drained) `sublist_of` q)
      ∧ queued_tasks (channel (snd (idxd_poll w))) `suffix_of` q
      ∧ (state (channel w) = IDXD_CHANNEL_ERROR →
         queued_tasks (channel (snd (idxd_poll w))) = [])
  | NullDeref =>
      ∃ before t rest,
        cpls = before ++ (t, - EIO) :: rest
        ∧ op_code t = SPDK_ACCEL_OPC_DIF_VERIFY
        ∧ dif_err (dif t) = NULL
        ∧ completions (events_since (log w) (snd (idxd_poll w))) = before
        ∧ driver_calls (events_since (log w) (snd (idxd_poll w))) = []
        ∧ queued_tasks (channel (snd (idxd_poll w))) = q
  | OutOfFuel => False
  end
  ∧ (Forall (λ c, dif_err (dif (fst c)) ≠ NULL) cpls →
     ∃ v, fst (idxd_poll w) = Returned v).
Proof.
  intros cpls count q. subst cpls count q.
  unfold idxd_poll, and_then, STAILQ_EMPTY, bind, gets, ret.
  destruct (spdk_idxd_process_events (chan (channel w)) (driver w))
    as [[cpls count] dr]. cbn [fst snd].
  destruct (process_completions_spec cpls (with_driver dr w))
    as (evs1 & Hl1 & Hd1 & _ & Hs1 & Hq1 & Hr1 & Hok1).
  destruct (process_completions cpls (with_driver dr w)) as [[[]| |] w1];
    cbn [fst snd log with_driver channel] in *; [| |done].
  2:{ split.
      - destruct Hr1 as (before & t & rest & Hc & Hop & Hnull & Hcpl).
        exists before, t, rest. unfold events_since.
        rewrite Hl1, drop_app_length. by split_and!.
      - intros Hall. by specialize (Hok1 Hall). }
  split.
  2:{ intros _. exists (if 0 <? count then SPDK_POLLER_BUSY else SPDK_POLLER_IDLE).
      destruct (negb _); [destruct (dsa_submit_queued_tasks w1)|]; reflexivity. }
  rewrite Hq1.
  destruct (queued_tasks (channel w)) as [|t q] eqn:Hq; cbn [negb].
  - cbn [fst snd]. rewrite Hq1, ?Hq. split; [done|]. split; [|done].
    exists evs1, []. unfold events_since. rewrite Hl1, drop_app_length, app_nil_r.
    split_and!; try done; apply sublist_nil_l.
  - destruct (dsa_submit_queued_tasks_summary w1)
      as (evs2 & Hl2 & Hc2 & Hd2 & Hsuf & Herr).
    destruct (dsa_submit_queued_tasks w1) as [rc w2]. cbn [fst snd] in *.
    rewrite Hq1, ?Hq in *. split; [done|]. split; [|split].
    + exists evs1, evs2. unfold events_since.
      rewrite Hl2, Hl1, <- app_assoc, drop_app_length. by split_and!.
    + done.
    + intros Hst. apply Herr. by rewrite Hs1.
Qed.

(** ** Building the registry *)

Lemma attach_cb_allocated idxd w :
  attach_cb true idxd w
  = (tt, with_devices (g_dsa_devices w ++ [{| dsa := idxd |}])
           (uint32 (g_num_devices w + 1))
           (match g_next_dev w with
            | Some _ => w
            | None => with_next_dev (Some (length (g_dsa_devices w))) w
            end)).
Proof.
  unfold attach_cb, bind, gets, modify, ret. cbn [negb].
  by destruct (g_next_dev w).
Qed.

Lemma attached_devices_cons allocated idxd ds :
  attached_devices ((allocated, idxd) :: ds)
  = (if allocated then [{| dsa := idxd |}] else []) ++ attached_devices ds.
Proof. by destruct allocated. Qed.

Lemma attach_all_spec ds : ∀ w,
  g_num_devices w = Z.of_nat (length (g_dsa_devices w)) →
  g_next_dev w = TAILQ_FIRST (g_dsa_devices w) →
  Z.of_nat (length (g_dsa_devices w) + length (attached_devices ds)) ≤ UINT32_MAX →
  ∃ w', attach_all ds w = (tt, w')
    ∧ g_dsa_devices w' = g_dsa_devices w ++ attached_devices ds
    ∧ g_num_devices w' = Z.of_nat (length (g_dsa_devices w'))
    ∧ g_next_dev w' = TAILQ_FIRST (g_dsa_devices w')
    ∧ g_dsa_initialized w' = g_dsa_initialized w
    ∧ channel w' = channel w ∧ driver w' = driver w ∧ mem w' = mem w
    ∧ completions (log w') = completions (log w)
    ∧ driver_calls (log w') = driver_calls (log w).
Proof.
  induction ds as [|[allocated idxd] ds IH]; intros w Hn Hc Hmax.
  - exists w. simpl. by rewrite app_nil_r.
  - cbn [attach_all]. unfold bind.
    rewrite attached_devices_cons in *.
    destruct allocated; cbn [app length] in *.
    + rewrite attach_cb_allocated.
      set (w1 := with_devices (g_dsa_devices w ++ [{| dsa := idxd |}])
                   (uint32 (g_num_devices w + 1))
                   (match g_next_dev w with
                    | Some _ => w
                    | None => with_next_dev (Some (length (g_dsa_devices w))) w
                    end)).
      assert (Hd1 : g_dsa_devices w1 = g_dsa_devices w ++ [{| dsa := idxd |}]).
      { subst w1. by destruct (g_next_dev w). }
      assert (Hn1 : g_num_devices w1 = Z.of_nat (length (g_dsa_devices w1))).
      { rewrite Hd1, length_app. subst w1. cbn. rewrite Hn.
        unfold uint32. rewrite Z.mod_small by (unfold UINT32_MAX in *; lia).
        cbn. lia. }
      assert (Hc1 : g_next_dev w1 = TAILQ_FIRST (g_dsa_devices w1)).
      { rewrite Hd1. subst w1. cbn. rewrite Hc.
        by destruct (g_dsa_devices w). }
      assert (Hrest : g_dsa_initialized w1 = g_dsa_initialized w
                      ∧ channel w1 = channel w ∧ driver w1 = driver w
                      ∧ mem w1 = mem w ∧ log w1 = log w).
      { subst w1. by destruct (g_next_dev w). }
      destruct Hrest as (Hi1 & Hch1 & Hdr1 & Hm1 & Hl1).
      destruct (IH w1 Hn1 Hc1)
        as (w' & -> & Hd & Hn' & Hc' & Hi & Hch & Hdr & Hm & Hl & Hdc).
      { rewrite Hd1, length_app. cbn. lia. }
      assert (Hd2 : g_dsa_devices w'
                    = g_dsa_devices w ++ {| dsa := idxd |} :: attached_devices ds).
      { by rewrite Hd, Hd1, <- app_assoc. }
      exists w'. rewrite Hn', Hc', Hd2. split_and!; try done; congruence.
    + unfold attach_cb, SPDK_ERRLOG, emit, modify. cbn [negb].
      destruct (IH (with_log (log w ++ [EvErrlog LogAllocFailed]) w))
        as (w' & -> & Hd & Hn' & Hc' & Hi & Hch & Hdr & Hm & Hl & Hdc); try done.
      exists w'. split_and!; try done.
      * rewrite Hl. cbn. rewrite completions_app. cbn. by rewrite app_nil_r.
      * rewrite Hdc. cbn. rewrite driver_calls_app. cbn. by rewrite app_nil_r.
Qed.

(** X7.  Attaching devices to the registry.  Starting from the empty
    registry, after any sequence of [attach_cb] calls the device list holds
    the devices whose allocation succeeded, in the order they were attached
    (a failed [calloc] only logs an error), [g_num_devices] is the length of
    the list and the cursor is on the first device; so the registry is in
    order as soon as one device is in the list.  Nothing else in the module
    is touched. *)
Theorem attach_builds_registry ds w :
  registry_pristine w →
  Z.of_nat (length (attached_devices ds)) ≤ UINT32_MAX →
  let w' := snd (attach_all ds w) in
  g_dsa_devices w' = attached_devices ds
  ∧ g_num_devices w' = Z.of_nat (length (attached_devices ds))
  ∧ g_next_dev w' = (if attached_devices ds is [] then None else Some 0%nat)
  ∧ (attached_devices ds ≠ [] → registry_wf w' = true)
  ∧ channel w' = channel w ∧ driver w' = driver w ∧ mem w' = mem w
  ∧ g_dsa_initialized w' = g_dsa_initialized w.
Proof.
  intros (Hd & Hc & Hn) Hmax w'. subst w'.
  destruct (attach_all_spec ds w)
    as (w' & -> & Hd' & Hn' & Hc' & Hi & Hch & Hdr & Hm & _).
  { by rewrite Hn, Hd. }
  { by rewrite Hc, Hd. }
  { by rewrite Hd. }
  cbn [snd]. rewrite Hd in Hd'. cbn in Hd'.
  split_and!; try done.
  - by rewrite Hn', Hd'.
  - rewrite Hc', Hd'. by destruct (attached_devices ds).
  - intros Hne. apply registry_wf_spec. exists 0%nat. rewrite Hc', Hn', Hd'.
    destruct (attached_devices ds); [done|]. cbn in *. split_and!; try done; lia.
Qed.

(** ** The scan, the cursor and the channel context *)

#[local] Instance scan_frame_preorder : PreOrder scan_frame.
Proof.
  split.
  - by intros w.
  - intros w1 w2 w3 (A1 & A2 & A3 & A4 & A5 & A6 & A7 & A8)
      (B1 & B2 & B3 & B4 & B5 & B6 & B7 & B8).
    unfold scan_frame. split_and!; congruence.
Qed.

#[local] Instance chan_follows_requests_preorder : PreOrder chan_follows_requests.
Proof.
  split.
  - intros w. exists []. by rewrite app_nil_r.
  - intros w1 w2 w3 (evs1 & Hl1 & Hc1) (evs2 & Hl2 & Hc2).
    exists (evs1 ++ evs2). split; [by rewrite Hl2, Hl1, app_assoc|].
    rewrite channel_requests_app, last_app, Hc2.
    destruct (last (channel_requests evs2)); [done|]. exact Hc1.
Qed.

Lemma steps_in_get_channel (R : world → world → Prop) h :
  (∀ w dr, R w (with_driver dr w)) →
  steps_in R (λ w, let (ch, dr) := spdk_idxd_get_channel h (driver w) in
                   (ch, with_driver dr w)).
Proof.
  intros H w. destruct (spdk_idxd_get_channel h (driver w)) as [ch dr]. apply H.
Qed.

Ltac frame_prim := by intros; unfold scan_frame.

Lemma scan_frame_select_loop socket fuel : ∀ count,
  steps_in scan_frame (select_loop fuel socket count).
Proof.
  induction fuel as [|fuel IH]; intros count; cbn [select_loop];
    unfold select_next_device, idxd_get_channel, emit;
    steps ltac:(first [apply IH | apply steps_in_get_channel; frame_prim])
      frame_prim.
Qed.

Lemma chan_follows_quiet w w' :
  log w' = log w → chan (channel w') = chan (channel w) →
  chan_follows_requests w w'.
Proof. intros Hl Hc. exists []. by rewrite app_nil_r. Qed.

Lemma chan_follows_emit e :
  (∀ j ch, e ≠ EvGetChannel j ch) → steps_in chan_follows_requests (emit e).
Proof.
  intros He w. exists [e]. split; [done|]. destruct e; try done.
  by destruct (He d0 ch).
Qed.

Lemma chan_follows_idxd_get_channel j dv :
  steps_in chan_follows_requests (idxd_get_channel j dv).
Proof.
  intros w. unfold idxd_get_channel, bind, modify, emit, modify, ret.
  destruct (spdk_idxd_get_channel (dsa dv) (driver w)) as [ch dr].
  by exists [EvGetChannel j ch].
Qed.

Lemma chan_follows_select_loop socket fuel : ∀ count,
  steps_in chan_follows_requests (select_loop fuel socket count).
Proof.
  induction fuel as [|fuel IH]; intros count; cbn [select_loop];
    unfold select_next_device;
    steps ltac:(first [apply IH | apply chan_follows_idxd_get_channel
                      | by apply chan_follows_emit])
      ltac:(by intros; apply chan_follows_quiet).
Qed.

(** Everything the rest of the file needs to know about a scan. *)
Lemma idxd_select_device_spec w :
  registry_wf w = true →
  ∃ i r w',
    g_next_dev w = Some i
    ∧ (i < length (g_dsa_devices w))%nat
    ∧ idxd_select_device w = (Returned r, w')
    ∧ scan_result (spdk_env_get_socket_id spdk_env_get_current_core) i
        (g_num_devices w) w r w'
    ∧ scan_frame w w'
    ∧ chan_follows_requests w w'
    ∧ (r = None → ∃ evs, log w' = log w ++ evs ++ [EvErrlog LogNoMoreDevices]).
Proof.
  intros Hwf. apply registry_wf_spec in Hwf as (i & Hcur & Hi & Hnum & Hmax).
  set (socket := spdk_env_get_socket_id spdk_env_get_current_core).
  destruct (select_loop_spec socket (S (Z.to_nat (g_num_devices w))) 0 i w)
    as (r & w1 & Hrun & Hres); try done; try lia.
  pose proof (scan_frame_select_loop socket (S (Z.to_nat (g_num_devices w))) 0 w) as Hfr.
  pose proof (chan_follows_select_loop socket (S (Z.to_nat (g_num_devices w))) 0 w) as Hch.
  rewrite Hrun in Hfr, Hch. cbn [snd] in Hfr, Hch.
  rewrite Z.sub_0_r in Hres.
  exists i, r. unfold idxd_select_device, bind, gets. fold socket. rewrite Hrun.
  destruct r as [j|].
  - exists w1. by split_and!.
  - eexists. split_and!; try done.
    + destruct Hres as (evs & m & Hl & Hd & Hn & Hm1 & Hmb & Hcm & Hc' & Hon & Hr).
      exists (evs ++ [EvErrlog LogNoMoreDevices]), m.
      rewrite cursor_moves_app, channel_requests_app. cbn. rewrite !app_nil_r.
      destruct Hr as [Hr1 Hr2].
      split_and!; try done. by rewrite Hl, app_assoc.
    + etrans; [exact Hch|]. by apply chan_follows_emit.
    + intros _. destruct Hres as (evs & m & Hl & _). exists evs. cbn.
      by rewrite Hl, app_assoc.
Qed.

Lemma scan_wraps_around i n : (i < n)%nat → ((i + n) mod n = i)%nat.
Proof.
  intros Hi. rewrite <- Nat.Div0.add_mod_idemp_r, Nat.Div0.mod_same, Nat.add_0_r.
  by apply Nat.mod_small.
Qed.

(** X8.  What a scan does to the module state.  On a registry in order,
    [idxd_select_device] leaves the shared cursor on the device it returns,
    so that the next scan starts with the device after it, and when it
    fails the cursor is back where the scan started.  The scan writes
    [chan->chan] with the answer to each channel request, so after a failed
    scan that asked at least one device it holds NULL; the rest of the
    channel context (state, FIFO, counter, device), the device list, the
    device count and the error records are untouched. *)
Theorem idxd_select_device_cursor w :
  registry_wf w = true →
  ∃ r w',
    idxd_select_device w = (Returned r, w')
    ∧ g_next_dev w' = (if r is Some j then Some j else g_next_dev w)
    ∧ scan_frame w w'
    ∧ chan (channel w')
      = match last (channel_requests (events_since (log w) w')) with
        | Some jc => snd jc
        | None => chan (channel w)
        end
    ∧ (r = None → channel_requests (events_since (log w) w') ≠ [] →
       chan (channel w') = NULL).
Proof.
  intros Hwf.
  destruct (idxd_select_device_spec w Hwf)
    as (i & r & w' & Hcur & Hi & Hrun & Hres & Hfr & (evs' & Hl' & Hch) & _).
  destruct Hres as (evs & m & Hl & Hd & Hn & Hm1 & Hmb & Hcm & Hc' & Hon & Hr).
  assert (evs' = evs) as -> by (rewrite Hl in Hl'; by apply app_inv_head in Hl').
  exists r, w'. unfold events_since. rewrite Hl, drop_app_length.
  split_and!; try done.
  - rewrite Hc'. destruct r as [j|].
    + by destruct Hr as (-> & _).
    + destruct Hr as [Hm _]. rewrite Hcur.
      apply registry_wf_spec in Hwf as (i' & Hcur' & _ & Hnum & _).
      assert (m = length (g_dsa_devices w)) as -> by lia.
      by rewrite scan_wraps_around.
  - intros -> Hne. destruct Hr as [_ Hden]. rewrite Hch.
    destruct (last (channel_requests evs)) as [jc|] eqn:Hlast.
    + apply last_Some in Hlast as [l' Hlast]. rewrite Hlast in Hden.
      apply Forall_app in Hden as [_ Hden]. by inversion Hden.
    + by apply last_None in Hlast.
Qed.

(** [dsa_create_cb] on a registry in order. *)
Lemma dsa_create_cb_spec w :
  registry_wf w = true →
  let socket := spdk_env_get_socket_id spdk_env_get_current_core in
  ∃ rc w',
    dsa_create_cb w = (Returned rc, w')
    ∧ registry_wf w' = true
    ∧ (rc = 0
       ∧ state (channel w') = IDXD_CHANNEL_ACTIVE
       ∧ queued_tasks (channel w') = []
       ∧ num_outstanding (channel w') = 0
       ∧ chan (channel w') ≠ NULL
       ∧ (∃ j, dev (channel w') = Some j
               ∧ g_next_dev w' = Some j
               ∧ on_domain socket (g_dsa_devices w) j
               ∧ last (channel_requests (events_since (log w) w'))
                 = Some (j, chan (channel w')))
       ∨ rc = - EINVAL
         ∧ Forall (λ jc, snd jc = NULL) (channel_requests (events_since (log w) w'))
         ∧ (∃ evs, events_since (log w) w'
                   = evs ++ [EvErrlog LogNoMoreDevices; EvErrlog LogFailedGetChannel])
         ∧ state (channel w') = state (channel w)
         ∧ queued_tasks (channel w') = queued_tasks (channel w)
         ∧ num_outstanding (channel w') = num_outstanding (channel w)
         ∧ dev (channel w') = dev (channel w)
         ∧ g_next_dev w' = g_next_dev w).
Proof.
  intros Hwf socket.
  destruct (idxd_select_device_spec w Hwf)
    as (i & r & w1 & Hcur & Hi & Hrun & Hres & Hfr & _ & Hlog).
  fold socket in Hres.
  destruct Hres as (evs & m & Hl & Hd & Hn & Hm1 & Hmb & Hcm & Hc' & Hon & Hr).
  destruct Hfr as (_ & _ & _ & _ & Hst & Hdev & Hno & Hq).
  pose proof Hwf as Hwf0.
  apply registry_wf_spec in Hwf0 as (i' & Hcur' & _ & Hnum & Hmax).
  assert (Hwf' : ∀ w2, g_dsa_devices w2 = g_dsa_devices w1 →
                       g_num_devices w2 = g_num_devices w1 →
                       g_next_dev w2 = g_next_dev w1 → registry_wf w2 = true).
  { intros w2 H1 H2 H3. apply registry_wf_spec.
    exists ((i + m) mod length (g_dsa_devices w))%nat.
    rewrite H1, H2, H3, Hd, Hn, Hc'. split_and!; try done.
    apply Nat.mod_upper_bound. lia. }
  unfold dsa_create_cb, bind. rewrite Hrun.
  destruct r as [j|].
  - destruct Hr as (-> & Hdom & Hch & denied & Hreq & Hden).
    eexists 0, _. split; [reflexivity|]. split; [by apply Hwf'|]. left.
    unfold events_since. cbn. rewrite Hl, drop_app_length, Hreq.
    split_and!; try done. eexists. split_and!; try done. apply last_snoc.
  - destruct Hr as [Hm Hden]. destruct (Hlog eq_refl) as (evs0 & Hl0).
    eexists (- EINVAL), _. split; [reflexivity|]. split; [by apply Hwf'|]. right.
    unfold events_since. cbn. rewrite Hl0, <- !app_assoc, drop_app_length.
    assert (evs = evs0 ++ [EvErrlog LogNoMoreDevices]) as Hevs.
    { rewrite Hl in Hl0. by apply app_inv_head in Hl0. }
    rewrite Hevs, channel_requests_app in Hden. cbn in Hden.
    rewrite app_nil_r in Hden.
    rewrite channel_requests_app. cbn. rewrite app_nil_r.
    split_and!; try done.
    + by exists evs0.
    + rewrite Hc', Hcur. assert (m = length (g_dsa_devices w)) as -> by lia.
      by rewrite scan_wraps_around.
Qed.

(** X9.  Creating a channel on a registry in order always returns, with 0
    or -EINVAL, and leaves the registry in order.  With 0 the channel is
    active with an empty FIFO and nothing outstanding, bound to a device of
    the caller's socket and to the channel that device granted, and the
    cursor is on that device.  With -EINVAL every channel request was
    denied, both error lines are logged, and the state, the FIFO, the
    counter and the device of the context are not initialised: they are
    what they were. *)
Theorem dsa_create_cb_outcome w :
  registry_wf w = true →
  let socket := spdk_env_get_socket_id spdk_env_get_current_core in
  ∃ rc w',
    dsa_create_cb w = (Returned rc, w')
    ∧ registry_wf w' = true
    ∧ (rc = 0
       ∧ state (channel w') = IDXD_CHANNEL_ACTIVE
       ∧ queued_tasks (channel w') = []
       ∧ num_outstanding (channel w') = 0
       ∧ chan (channel w') ≠ NULL
       ∧ (∃ j, dev (channel w') = Some j
               ∧ g_next_dev w' = Some j
               ∧ on_domain socket (g_dsa_devices w) j
               ∧ last (channel_requests (events_since (log w) w'))
                 = Some (j, chan (channel w')))
       ∨ rc = - EINVAL
         ∧ Forall (λ jc, snd jc = NULL) (channel_requests (events_since (log w) w'))
         ∧ (∃ evs, events_since (log w) w'
                   = evs ++ [EvErrlog LogNoMoreDevices; EvErrlog LogFailedGetChannel])
         ∧ state (channel w') = state (channel w)
         ∧ queued_tasks (channel w') = queued_tasks (channel w)
         ∧ num_outstanding (channel w') = num_outstanding (channel w)
         ∧ dev (channel w') = dev (channel w)
         ∧ g_next_dev w' = g_next_dev w).
Proof. apply dsa_create_cb_spec. Qed.

Lemma create_many_returns k : ∀ w,
  registry_wf w = true →
  Forall (λ o, o = Returned 0 ∨ o = Returned (- EINVAL)) (fst (create_many k w)).
Proof.
  induction k as [|k IH]; intros w Hwf; [by constructor|].
  cbn [create_many]. unfold bind.
  destruct (dsa_create_cb_spec w Hwf) as (rc & w' & -> & Hwf' & Hrc).
  specialize (IH w' Hwf'). destruct (create_many k w') as [rs w2].
  cbn [fst ret] in *. constructor; [|done].
  destruct Hrc as [(-> & _)|(-> & _)]; [by left|by right].
Qed.
End Properties.

(** * Module lifecycle: properties *)

Section LifecycleProperties.
Context {E : Env} {P : Platform}.
Implicit Types (md : module) (w : world).

Lemma json_written_app l1 l2 :
  json_written (l1 ++ l2) = json_written l1 ++ json_written l2.
Proof. apply omap_app. Qed.

Lemma detached_app l1 l2 : detached (l1 ++ l2) = detached l1 ++ detached l2.
Proof. apply omap_app. Qed.

(** [accel_dsa_enable_probe], case by case. *)
Lemma accel_dsa_enable_probe_unfold km md :
  accel_dsa_enable_probe km md
  = if g_dsa_enable md then (- EALREADY, md)
    else
      let rc := fst (spdk_idxd_set_config km (driver (core md))) in
      let md1 := with_core (with_driver (snd (spdk_idxd_set_config km (driver (core md))))
                              (core md)) md in
      if rc =? 0 then
        (0, with_enable true km
              (with_outside (outside md ++ [spdk_accel_module_list_add]) md1))
      else (rc, md1).
Proof.
  unfold accel_dsa_enable_probe, bind, gets, on_core, call_outside, modify, ret.
  destruct (g_dsa_enable md); [done|].
  destruct (spdk_idxd_set_config km (driver (core md))) as [rc dr]. cbn [fst snd].
  by destruct (rc =? 0).
Qed.

(** X10.  The module can be enabled once.  When [accel_dsa_enable_probe]
    returns 0 the module is enabled in the mode asked for and has been put
    on the framework's module list; every later call, for either mode,
    returns -EALREADY and changes nothing, so the mode stays what the first
    call made it.  When it returns anything else, the two globals and the
    module list are as before. *)
Theorem accel_dsa_enable_probe_once km km' md :
  let rc := fst (accel_dsa_enable_probe km md) in
  let md1 := snd (accel_dsa_enable_probe km md) in
  (rc = 0 →
   g_dsa_enable md = false
   ∧ g_dsa_enable md1 = true
   ∧ g_kernel_mode md1 = km
   ∧ outside md1 = outside md ++ [spdk_accel_module_list_add]
   ∧ accel_dsa_enable_probe km' md1 = (- EALREADY, md1))
  ∧ (rc ≠ 0 →
     g_dsa_enable md1 = g_dsa_enable md
     ∧ g_kernel_mode md1 = g_kernel_mode md
     ∧ outside md1 = outside md).
Proof.
  intros rc md1. subst rc md1. rewrite accel_dsa_enable_probe_unfold.
  destruct (g_dsa_enable md) eqn:Hen; cbn [fst snd]; [by split|].
  destruct (Z.eqb_spec (fst (spdk_idxd_set_config km (driver (core md)))) 0)
    as [Hrc|Hrc]; cbn [fst snd].
  - split; [|done]. intros _. split_and!;
      first [done | by rewrite accel_dsa_enable_probe_unfold].
  - by split.
Qed.

Lemma accel_dsa_write_config_json_unfold md :
  accel_dsa_write_config_json md
  = (tt, if g_dsa_enable md then
           with_outside
             (outside md
              ++ map json
                   [spdk_json_write_object_begin;
                    spdk_json_write_named_string "method" "dsa_scan_accel_module";
                    spdk_json_write_named_object_begin "params";
                    spdk_json_write_named_bool "config_kernel_mode" (g_kernel_mode md);
                    spdk_json_write_object_end;
                    spdk_json_write_object_end]) md
         else md).
Proof.
  unfold accel_dsa_write_config_json, bind, gets, call_outside, modify, ret.
  destruct (g_dsa_enable md); [|done]. cbn. by rewrite <- !app_assoc.
Qed.

(** X11.  The configuration written is the configuration in force.  A
    module that is not enabled writes nothing.  After a successful
    [accel_dsa_enable_probe km], and whatever further attempts to enable
    the module were made, [accel_dsa_write_config_json] writes the object
    for the method "dsa_scan_accel_module" with "config_kernel_mode" set to
    [km]. *)
Theorem config_json_round_trip km km' md :
  (g_dsa_enable md = false →
   snd (accel_dsa_write_config_json md) = md)
  ∧ (fst (accel_dsa_enable_probe km md) = 0 →
     let md1 := snd (accel_dsa_enable_probe km md) in
     let md2 := snd (accel_dsa_enable_probe km' md1) in
     json_written (outside (snd (accel_dsa_write_config_json md2)))
     = json_written (outside md)
       ++ [spdk_json_write_object_begin;
           spdk_json_write_named_string "method" "dsa_scan_accel_module";
           spdk_json_write_named_object_begin "params";
           spdk_json_write_named_bool "config_kernel_mode" km;
           spdk_json_write_object_end;
           spdk_json_write_object_end]).
Proof.
  split.
  - intros Hen. rewrite accel_dsa_write_config_json_unfold. by rewrite Hen.
  - rewrite !accel_dsa_enable_probe_unfold.
    destruct (g_dsa_enable md) eqn:Hen; cbn [fst snd]; [done|].
    destruct (Z.eqb_spec (fst (spdk_idxd_set_config km (driver (core md)))) 0)
      as [Hrc|Hrc]; cbn [fst snd]; [|done].
    intros _. rewrite accel_dsa_enable_probe_unfold. cbn [g_dsa_enable with_enable snd].
    rewrite accel_dsa_write_config_json_unfold. cbn.
    rewrite !json_written_app. cbn. by rewrite app_nil_r.
Qed.

(** ** Initialisation *)

Lemma outside_since_app md md' l :
  outside md' = outside md ++ l → outside_since md md' = l.
Proof. intros H. unfold outside_since. by rewrite H, drop_app_length. Qed.

(** [accel_dsa_init] on a registry nothing was attached to. *)
Lemma accel_dsa_init_spec md :
  registry_pristine (core md) →
  Z.of_nat (length (found md)) ≤ UINT32_MAX →
  ∃ r md',
    accel_dsa_init md = (r, md')
    ∧ (r = 0 ∨ r = - EINVAL ∨ r = - ENODEV)
    ∧ (r = 0 ↔ g_dsa_enable md = true ∧ probe_rc md = 0 ∧ found md ≠ [])
    ∧ (r = - ENODEV ↔ g_dsa_enable md = true ∧ probe_rc md = 0 ∧ found md = [])
    ∧ (g_dsa_enable md = false → md' = md)
    ∧ (g_dsa_enable md = true →
       g_dsa_devices (core md') = found md
       ∧ g_num_devices (core md') = Z.of_nat (length (found md))
       ∧ g_next_dev (core md') = TAILQ_FIRST (found md)
       ∧ driver (core md') = snd (probed md))
    ∧ (r = 0 →
       g_dsa_initialized (core md') = true
       ∧ registry_wf (core md') = true
       ∧ outside_since md md' = [spdk_io_device_register])
    ∧ (r ≠ 0 →
       g_dsa_initialized (core md') = g_dsa_initialized (core md)
       ∧ spdk_io_device_register ∉ outside_since md md')
    ∧ g_dsa_enable md' = g_dsa_enable md
    ∧ g_kernel_mode md' = g_kernel_mode md
    ∧ channel (core md') = channel (core md)
    ∧ completions (log (core md')) = completions (log (core md)).
Proof.
  intros (Hd & Hc & Hn) Hmax.
  unfold accel_dsa_init, bind, gets.
  destruct (g_dsa_enable md) eqn:Hen; cbn [negb]; [|].
  2:{ exists (- EINVAL), md. unfold ret, EINVAL, ENODEV.
    split_and!; try done; try (by right; left); try (by intros (? & _));
      try (split; [lia | by intros (? & _)]).
    intros _. split; [done|]. unfold outside_since. rewrite drop_all. apply not_elem_of_nil. }
  unfold found, probe_rc, probed in *.
  unfold on_core at 1.
  destruct (spdk_idxd_probe probe_cb (driver (core md))) as [[ds rc] dr] eqn:Hp.
  cbn [fst snd core with_core] in *.
  unfold on_core at 1. cbn [core with_core].
  destruct (attach_all_spec ds (with_driver dr (core md)))
    as (w' & -> & Hd' & Hn' & Hc' & Hi & Hch & Hdr & Hm & Hcp & _).
  { cbn. by rewrite Hn, Hd. }
  { cbn. by rewrite Hc, Hd. }
  { cbn. by rewrite Hd. }
  cbn [g_dsa_devices with_driver] in Hd'. rewrite Hd in Hd'. cbn [app] in Hd'.
  cbn [with_driver g_dsa_initialized channel driver log] in Hi, Hch, Hdr, Hcp.
  assert (Hfirst : g_next_dev w' = TAILQ_FIRST (attached_devices ds)) by by rewrite Hc', Hd'.
  assert (Hlen : g_num_devices w' = Z.of_nat (length (attached_devices ds)))
    by by rewrite Hn', Hd'.
  destruct (Z.eqb_spec rc 0) as [->|Hrc]; cbn [negb].
  2:{ eexists (- EINVAL), _. unfold call_outside, modify, ret. split; [reflexivity|].
      cbn [core with_core with_outside g_dsa_enable g_kernel_mode outside].
      unfold EINVAL, ENODEV.
      split_and!; try done; try (by right; left);
        try (split; [lia | by intros (_ & ? & _)]).
      intros _. split; [done|].
      erewrite outside_since_app; [|reflexivity].
      intros Hin. by apply list_elem_of_singleton in Hin. }
  cbn [core with_core]. rewrite Hd'.
  destruct (attached_devices ds) as [|dv rest] eqn:Hfound.
  - eexists (- ENODEV), _. unfold ret. split; [reflexivity|].
    cbn [core with_core with_outside g_dsa_enable g_kernel_mode outside].
    unfold EINVAL, ENODEV.
    split_and!; try done; try (by right; right);
      try (split; [lia | by intros (_ & _ & ?)]).
    intros _. split; [done|].
    erewrite outside_since_app; [|by rewrite app_nil_r]. apply not_elem_of_nil.
  - eexists 0, _. unfold on_core, call_outside, modify, ret. split; [reflexivity|].
    cbn [core with_core with_outside with_initialized g_dsa_enable g_kernel_mode outside
         g_dsa_devices g_num_devices g_next_dev driver g_dsa_initialized channel log].
    unfold EINVAL, ENODEV.
    split_and!; try done; try (by left); try (split; [lia | by intros (_ & _ & ?)]).
    intros _. split_and!; try done.
    + apply registry_wf_spec. exists 0%nat.
      cbn [g_dsa_devices g_num_devices g_next_dev with_initialized].
      rewrite Hfirst, Hlen, Hd'. cbn in *. split_and!; try done; lia.
    + by erewrite outside_since_app.
Qed.

(** X12.  What [accel_dsa_init] returns and leaves behind on a registry
    nothing was attached to.  It returns 0, -EINVAL or -ENODEV: 0 exactly
    when the module is enabled, the probe succeeds and at least one device
    is attached, -ENODEV exactly when the module is enabled and the probe
    succeeds without any device.  A module that is not enabled is left
    untouched (the driver is not probed).  Otherwise the devices the probe
    attached are in the list with the count and the cursor in line, also
    when the probe fails.  Only a return of 0 marks the module initialised
    and registers the io device, and then the registry is in order. *)
Theorem accel_dsa_init_outcome md :
  registry_pristine (core md) →
  Z.of_nat (length (found md)) ≤ UINT32_MAX →
  ∃ r md',
    accel_dsa_init md = (r, md')
    ∧ (r = 0 ∨ r = - EINVAL ∨ r = - ENODEV)
    ∧ (r = 0 ↔ g_dsa_enable md = true ∧ probe_rc md = 0 ∧ found md ≠ [])
    ∧ (r = - ENODEV ↔ g_dsa_enable md = true ∧ probe_rc md = 0 ∧ found md = [])
    ∧ (g_dsa_enable md = false → md' = md)
    ∧ (g_dsa_enable md = true →
       g_dsa_devices (core md') = found md
       ∧ g_num_devices (core md') = Z.of_nat (length (found md))
       ∧ g_next_dev (core md') = TAILQ_FIRST (found md)
       ∧ driver (core md') = snd (probed md))
    ∧ (r = 0 →
       g_dsa_initialized (core md') = true
       ∧ registry_wf (core md') = true
       ∧ outside_since md md' = [spdk_io_device_register])
    ∧ (r ≠ 0 →
       g_dsa_initialized (core md') = g_dsa_initialized (core md)
       ∧ spdk_io_device_register ∉ outside_since md md').
Proof.
  intros Hp Hmax.
  destruct (accel_dsa_init_spec md Hp Hmax)
    as (r & md' & H1 & H2 & H3 & H4 & H5 & H6 & H7 & H8 & _).
  by exists r, md'.
Qed.

(** X13.  A module brought up in the order the framework uses, enable then
    initialise, can hand out channels: when [accel_dsa_init] returns 0 on a
    registry nothing was attached to, every one of any number of channel
    creations that follow returns, with 0 or with -EINVAL; none runs into a
    null cursor or an endless scan. *)
Theorem init_then_create_channels k md :
  registry_pristine (core md) →
  Z.of_nat (length (found md)) ≤ UINT32_MAX →
  fst (accel_dsa_init md) = 0 →
  Forall (λ o, o = Returned 0 ∨ o = Returned (- EINVAL))
         (fst (create_many k (core (snd (accel_dsa_init md))))).
Proof.
  intros Hp Hmax Hr.
  destruct (accel_dsa_init_spec md Hp Hmax)
    as (r & md' & H1 & _ & _ & _ & _ & _ & H7 & _).
  rewrite H1 in *. cbn [fst snd] in *. subst r.
  apply create_many_returns. by apply H7.
Qed.

(** ** Shutdown *)

Lemma detach_devices_spec devs : ∀ fuel md,
  g_dsa_devices (core md) = devs →
  (length devs ≤ fuel)%nat →
  ∃ md',
    detach_devices fuel md = (tt, md')
    ∧ g_dsa_devices (core md') = []
    ∧ outside md' = outside md ++ map (λ dv, spdk_idxd_detach_call (dsa dv)) devs
    ∧ driver (core md') = detach_all devs (driver (core md))
    ∧ g_dsa_initialized (core md') = g_dsa_initialized (core md)
    ∧ g_num_devices (core md') = g_num_devices (core md)
    ∧ g_next_dev (core md') = g_next_dev (core md)
    ∧ channel (core md') = channel (core md)
    ∧ mem (core md') = mem (core md)
    ∧ log (core md') = log (core md)
    ∧ g_dsa_enable md' = g_dsa_enable md
    ∧ g_kernel_mode md' = g_kernel_mode md.
Proof.
  induction devs as [|dv rest IH]; intros fuel md Hd Hf.
  - exists md. destruct fuel; cbn [detach_devices]; unfold bind, gets, ret;
      rewrite ?Hd, ?app_nil_r; by split_and!.
  - destruct fuel as [|fuel]; [cbn in Hf; lia|].
    cbn [detach_devices]. unfold bind at 1, gets at 1. rewrite Hd.
    unfold on_driver, on_core, call_outside, modify, bind.
    cbn [core with_core with_outside].
    match goal with |- ∃ _, detach_devices _ ?m = _ ∧ _ => set (md1 := m) end.
    destruct (IH fuel md1) as (md' & Hrun & H1 & H2 & H3 & H4 & H5 & H6 & H7 & H8 & H9 & H10 & H11).
    { done. }
    { cbn in Hf. lia. }
    exists md'. split; [done|]. subst md1.
    cbn [core with_core with_outside outside g_dsa_enable g_kernel_mode
         with_driver with_devices driver g_dsa_initialized g_num_devices g_next_dev
         channel mem log] in *.
    split_and!; try done.
    rewrite H2. cbn [map]. by rewrite <- app_assoc.
Qed.

Lemma accel_dsa_exit_spec md :
  ∃ md',
    accel_dsa_exit md = (tt, md')
    ∧ g_dsa_devices (core md') = []
    ∧ g_dsa_initialized (core md') = false
    ∧ outside md'
      = outside md
        ++ (if g_dsa_initialized (core md) then [spdk_io_device_unregister] else [])
        ++ map (λ dv, spdk_idxd_detach_call (dsa dv)) (g_dsa_devices (core md))
        ++ [spdk_accel_module_finish]
    ∧ driver (core md') = detach_all (g_dsa_devices (core md)) (driver (core md))
    ∧ g_num_devices (core md') = g_num_devices (core md)
    ∧ g_next_dev (core md') = g_next_dev (core md)
    ∧ channel (core md') = channel (core md)
    ∧ log (core md') = log (core md)
    ∧ g_dsa_enable md' = g_dsa_enable md
    ∧ g_kernel_mode md' = g_kernel_mode md.
Proof.
  unfold accel_dsa_exit. unfold bind at 1, gets at 1.
  set (md0 := snd ((if g_dsa_initialized (core md)
                    then call_outside spdk_io_device_unregister ;;
                         on_core (modify (with_initialized false))
                    else ret tt) md)).
  assert (H0 : (if g_dsa_initialized (core md)
                then call_outside spdk_io_device_unregister ;;
                     on_core (modify (with_initialized false))
                else ret tt) md = (tt, md0)
               ∧ g_dsa_initialized (core md0) = false
               ∧ g_dsa_devices (core md0) = g_dsa_devices (core md)
               ∧ outside md0
                 = outside md
                   ++ (if g_dsa_initialized (core md)
                       then [spdk_io_device_unregister] else [])
               ∧ driver (core md0) = driver (core md)
               ∧ g_num_devices (core md0) = g_num_devices (core md)
               ∧ g_next_dev (core md0) = g_next_dev (core md)
               ∧ channel (core md0) = channel (core md)
               ∧ log (core md0) = log (core md)
               ∧ g_dsa_enable md0 = g_dsa_enable md
               ∧ g_kernel_mode md0 = g_kernel_mode md).
  { subst md0. destruct (g_dsa_initialized (core md)) eqn:Hi.
    - unfold bind, call_outside, on_core, modify. cbn. by split_and!.
    - unfold ret. cbn [snd]. rewrite app_nil_r. by split_and!. }
  clearbody md0.
  destruct H0 as (Hrun & Hi & Hd & Ho & Hdr & Hn & Hc & Hch & Hl & He & Hk).
  unfold bind at 1. rewrite Hrun.
  unfold bind at 1, gets at 1. unfold bind at 1.
  destruct (detach_devices_spec (g_dsa_devices (core md0))
              (length (g_dsa_devices (core md0))) md0 eq_refl (le_n _))
    as (md1 & Hrun1 & H1 & H2 & H3 & H4 & H5 & H6 & H7 & _ & H9 & H10 & H11).
  rewrite Hrun1. unfold call_outside, modify.
  eexists. split; [reflexivity|].
  cbn [core with_outside outside g_dsa_enable g_kernel_mode].
  split_and!; try congruence.
  rewrite H2, Ho, Hd. by rewrite <- !app_assoc.
Qed.

(** X14.  What [accel_dsa_exit] leaves behind.  The device list is empty
    and the module is no longer initialised.  The calls it makes are, in
    this order: the io device is unregistered if and only if the module was
    initialised, every device of the list is detached once, first to last,
    and the framework is told that the module has finished.  Neither
    [g_num_devices] nor [g_next_dev] is reset, so the registry is no longer
    in order, and [g_dsa_enable] stays as it was.  No task is completed,
    and every capability query that follows is answered with false. *)
Theorem accel_dsa_exit_teardown md :
  let md' := snd (accel_dsa_exit md) in
  g_dsa_devices (core md') = []
  ∧ g_dsa_initialized (core md') = false
  ∧ outside_since md md'
    = (if g_dsa_initialized (core md) then [spdk_io_device_unregister] else [])
      ++ map (λ dv, spdk_idxd_detach_call (dsa dv)) (g_dsa_devices (core md))
      ++ [spdk_accel_module_finish]
  ∧ detached (outside_since md md') = map dsa (g_dsa_devices (core md))
  ∧ driver (core md') = detach_all (g_dsa_devices (core md)) (driver (core md))
  ∧ g_num_devices (core md') = g_num_devices (core md)
  ∧ g_next_dev (core md') = g_next_dev (core md)
  ∧ registry_wf (core md') = false
  ∧ g_dsa_enable md' = g_dsa_enable md
  ∧ completions (log (core md')) = completions (log (core md))
  ∧ (∀ opc, fst (dsa_supports_opcode opc (core md')) = false).
Proof.
  intros md'. subst md'.
  destruct (accel_dsa_exit_spec md)
    as (md' & -> & Hd & Hi & Ho & Hdr & Hn & Hc & Hch & Hl & He & Hk).
  cbn [snd]. apply outside_since_app in Ho.
  split_and!; try done.
  - rewrite Ho, !detached_app.
    assert (Hmap : ∀ l : list idxd_device,
               detached (map (λ dv, spdk_idxd_detach_call (dsa dv)) l) = map dsa l).
    { induction l as [|dv l IH]; [done|]. cbn. f_equal. apply IH. }
    rewrite Hmap. destruct (g_dsa_initialized (core md)); cbn; by rewrite app_nil_r.
  - destruct (registry_wf (core md')) eqn:Hwf; [|done].
    apply registry_wf_spec in Hwf as (i & _ & Hi' & _).
    rewrite Hd in Hi'. cbn in Hi'. lia.
  - by rewrite Hl.
  - intros opc. by rewrite dsa_supports_opcode_uninitialized.
Qed.

(** ** Releasing a channel *)

(** X15.  [dsa_destroy_cb] gives back what [dsa_create_cb] took.  After a
    channel creation that returned 0 on a registry in order, destroying the
    context unregisters the poller and then returns to the driver exactly
    the channel handle the driver granted, last and not null, for the
    device the context is bound to.  Nothing else happens: no task is
    completed or submitted, the queue and the registry stay as they are. *)
Theorem create_destroy_round_trip md w1 :
  registry_wf (core md) = true →
  dsa_create_cb (core md) = (Returned 0, w1) →
  let md' := snd (dsa_destroy_cb (with_core w1 md)) in
  ∃ j ch,
    dev (channel w1) = Some j
    ∧ last (channel_requests (events_since (log (core md)) w1)) = Some (j, ch)
    ∧ ch ≠ NULL
    ∧ outside_since md md' = [spdk_poller_unregister; spdk_idxd_put_channel_call ch]
    ∧ driver (core md') = spdk_idxd_put_channel ch (driver w1)
    ∧ log (core md') = log w1
    ∧ channel (core md') = channel w1
    ∧ g_dsa_devices (core md') = g_dsa_devices w1
    ∧ g_next_dev (core md') = g_next_dev w1
    ∧ g_num_devices (core md') = g_num_devices w1
    ∧ g_dsa_initialized (core md') = g_dsa_initialized w1.
Proof.
  intros Hwf Hrun md'.
  destruct (dsa_create_cb_spec (core md) Hwf) as (rc & w' & Hrun' & _ & Hcase).
  rewrite Hrun in Hrun'. injection Hrun' as <- <-.
  destruct Hcase as [(_ & _ & _ & _ & Hch & j & Hdev & _ & _ & Hlast)|(Hrc & _)];
    [|unfold EINVAL in Hrc; lia].
  exists j, (chan (channel w1)). subst md'.
  unfold dsa_destroy_cb, bind, gets, on_driver, on_core, call_outside, modify.
  cbn [snd core with_core with_outside outside with_driver driver log channel
       g_dsa_devices g_next_dev g_num_devices g_dsa_initialized].
  split_and!; try done.
  apply outside_since_app. cbn. by rewrite <- app_assoc.
Qed.

End LifecycleProperties.

(** * The theorems at work on the simulated platform *)

(** ** Scenarios of the design document *)

(** Scenario A.  With the hardware full, the first drain leaves the FIFO
    and the counter as they are; the second drain dispatches [T1] and stops
    at [T2]. *)
Example scenario_a_two_drains :
  let (rc1, w1) := dsa_submit_queued_tasks scenario_a in
  let (rc2, w2) := dsa_submit_queued_tasks w1 in
  rc1 = - EBUSY
  ∧ queued_tasks (channel w1) = [T1; T2; T3]
  ∧ num_outstanding (channel w1) = 0
  ∧ rc2 = - EBUSY
  ∧ queued_tasks (channel w2) = [T2; T3]
  ∧ num_outstanding (channel w2) = 1
  ∧ completions (log w2) = [].
Proof. vm_compute. by repeat split. Qed.

(** Scenario B.  A DIF verify task that the hardware completes with -EIO is
    checked in software, the error record is filled in, and the task is
    completed with -EIO. *)
Example scenario_b_software_verify :
  let w0 := sim_world [] [] (sim_channel IDXD_CHANNEL_ACTIVE []) in
  let w := snd (dsa_done T2 (- EIO) (snd (dsa_submit_task T2 w0))) in
  mem w !! dif_err (dif T2) = Some sim_dif_error
  ∧ completions (log w) = [(T2, - EIO)]
  ∧ omap (λ e, match e with
               | EvDifVerify _ _ _ _ err rc => Some (inl (err, rc))
               | EvErrlog (LogDifError (Some e)) =>
                   Some (inl (err_type e, err_offset e))
               | EvTaskComplete t st => Some (inr (cb_arg t, st))
               | _ => None
               end) (log w)
    = [inl (130, - 1); inl (1, 3); inr (2, - EIO)].
Proof. by vm_compute. Qed.

(** The same completion for a task without an error record: the software
    check runs, the handler faults on the record, the task is not completed
    and the counter is not decremented. *)
Example scenario_b_without_record :
  let w0 := scenario_no_record in
  let (r, w) := dsa_done T_no_record (- EIO) w0 in
  r = NullDeref
  ∧ completions (log w) = completions (log w0)
  ∧ num_outstanding (channel w) = 1
  ∧ mem w = mem w0
  ∧ events_since (log w0) w
    = [EvDifVerify (iovs (s T_no_record)) 1 1 64 NULL (- 1)].
Proof. by vm_compute. Qed.

(** The counter relies on the driver: a callback for an operation the
    hardware never accepted finds the counter at 0, trips the assertion and
    wraps the counter around. *)
Example callback_without_operation :
  let w := snd (cb_fn T1 0 scenario_idle) in
  num_outstanding (channel scenario_idle) = 0
  ∧ num_outstanding (channel w) = UINT32_MAX
  ∧ events_since (log scenario_idle) w
    = [EvCallback T1 0; EvAssertFail AssertOutstandingPositive;
       EvTrace TRACE_ACCEL_DSA_OP_COMPLETE UINT32_MAX; EvTaskComplete T1 0]
  ∧ in_flight_ok 0 (events_since (log scenario_idle) w) = false.
Proof. by vm_compute. Qed.

(** Scenario C.  Two devices on the caller's socket with two channel slots
    each: four channels can be created, the fifth creation fails. *)
Example scenario_c_fifth_channel_fails :
  fst (create_channels 5 (sim_world [] [] (sim_channel IDXD_CHANNEL_ACTIVE [])))
  = [Returned 0; Returned 0; Returned 0; Returned 0; Returned (- EINVAL)].
Proof. by vm_compute. Qed.

(** ** Instances of the theorems *)

Lemma dsa_supports_opcode_initialized_witness :
  let w := sim_world [] [] (sim_channel IDXD_CHANNEL_ACTIVE []) in
  g_dsa_initialized w = true
  ∧ snd (dsa_supports_opcode SPDK_ACCEL_OPC_DIF_VERIFY w) = w
  ∧ (always_offloaded SPDK_ACCEL_OPC_DIF_VERIFY →
     fst (dsa_supports_opcode SPDK_ACCEL_OPC_DIF_VERIFY w) = true)
  ∧ (needs_iommu SPDK_ACCEL_OPC_DIF_VERIFY →
     fst (dsa_supports_opcode SPDK_ACCEL_OPC_DIF_VERIFY w) = true)
  ∧ (¬ always_offloaded SPDK_ACCEL_OPC_DIF_VERIFY →
     ¬ needs_iommu SPDK_ACCEL_OPC_DIF_VERIFY →
     fst (dsa_supports_opcode SPDK_ACCEL_OPC_DIF_VERIFY w) = false).
Proof.
  intros w. split; [reflexivity|].
  apply (dsa_supports_opcode_initialized w SPDK_ACCEL_OPC_DIF_VERIFY).
  reflexivity.
Defined.

Lemma dualcast_validation_witness :
  dualcast_malformed T_dualcast_bad
  ∧ idxd_submit_dualcast T_dualcast_bad 0 scenario_idle = (- EINVAL, scenario_idle)
  ∧ (op_code T_dualcast_bad = SPDK_ACCEL_OPC_DUALCAST →
     _process_single_task T_dualcast_bad scenario_idle = (- EINVAL, scenario_idle)).
Proof.
  assert (H : dualcast_malformed T_dualcast_bad).
  { right. left. simpl. lia. }
  split; [exact H|].
  apply (dualcast_validation T_dualcast_bad 0 scenario_idle H).
Defined.

Lemma dsa_submit_task_active_witness :
  state (channel scenario_idle) = IDXD_CHANNEL_ACTIVE
  ∧ queued_tasks (channel scenario_idle) = []
  ∧ ∃ rc w1, _process_single_task T1 scenario_idle = (rc, w1)
      ∧ (rc ≠ 0 → rc ≠ - EBUSY →
         dsa_submit_task T1 scenario_idle = (0, completed T1 rc w1)
         ∧ queued_tasks (channel (completed T1 rc w1)) = []
         ∧ completions (log (completed T1 rc w1))
           = completions (log scenario_idle) ++ [(T1, rc)]
         ∧ num_outstanding (channel w1) = num_outstanding (channel scenario_idle)).
Proof.
  split; [reflexivity|]. split; [reflexivity|].
  destruct (dsa_submit_task_active T1 scenario_idle eq_refl) as [_ H].
  destruct (H eq_refl) as (rc & w1 & Hp & _ & _ & Herr).
  exists rc, w1. split; [exact Hp | exact Herr].
Defined.

Lemma error_state_fails_everything_witness :
  state (channel scenario_error) = IDXD_CHANNEL_ERROR
  ∧ dsa_submit_task T3 scenario_error = (0, completed T3 (- EINVAL) scenario_error)
  ∧ dsa_submit_queued_tasks scenario_error = (0, all_failed scenario_error)
  ∧ queued_tasks (channel (all_failed scenario_error)) = []
  ∧ completions (log (all_failed scenario_error))
    = completions (log scenario_error)
      ++ map (λ t, (t, - EINVAL)) (queued_tasks (channel scenario_error))
  ∧ driver_calls (log (all_failed scenario_error)) = driver_calls (log scenario_error)
  ∧ driver (all_failed scenario_error) = driver scenario_error.
Proof.
  split; [reflexivity|].
  apply (error_state_fails_everything T3 scenario_error). reflexivity.
Defined.

Lemma dsa_submit_queued_tasks_walk_witness :
  state (channel scenario_a) = IDXD_CHANNEL_ACTIVE
  ∧ queued_tasks (channel scenario_a) = [T1; T2; T3]
  ∧ ∃ rc w1, _process_single_task T1 scenario_a = (rc, w1)
      ∧ (rc = - EBUSY →
         dsa_submit_queued_tasks scenario_a = (- EBUSY, w1)
         ∧ queued_tasks (channel w1) = [T1; T2; T3]
         ∧ num_outstanding (channel w1) = num_outstanding (channel scenario_a)
         ∧ completions (log w1) = completions (log scenario_a)).
Proof.
  split; [reflexivity|]. split; [reflexivity|].
  destruct (dsa_submit_queued_tasks_walk scenario_a) as [_ H].
  destruct (H eq_refl T1 [T2; T3] eq_refl) as (rc & w1 & Hp & Hbusy & _).
  exists rc, w1. split; [exact Hp | exact Hbusy].
Defined.

Lemma outstanding_count_invariant_witness :
  let w1 := snd (dsa_create_cb history_start) in
  let w' := snd (run history w1) in
  let evs := events_since (log w1) w' in
  dsa_create_cb history_start = (Returned 0, w1)
  ∧ in_flight_ok 0 evs = true
  ∧ fst (run history w1) = Returned tt
  ∧ accepted evs = 3 ∧ observed evs = 2
  ∧ 0 ≤ num_outstanding (channel w') ≤ UINT32_MAX
  ∧ num_outstanding (channel w')
    = accepted evs - observed evs + faulted (fst (run history w1))
  ∧ (EvAssertFail AssertOutstandingPositive ∉ evs).
Proof.
  intros w1 w' evs.
  assert (H1 : dsa_create_cb history_start = (Returned 0, w1)) by (by vm_compute).
  assert (H2 : in_flight_ok 0 evs = true) by (by vm_compute).
  assert (H3 : fst (run history w1) = Returned tt) by (by vm_compute).
  assert (H4 : accepted evs = 3) by (by vm_compute).
  assert (H5 : observed evs = 2) by (by vm_compute).
  destruct (outstanding_count_invariant history_start w1 history H1)
    as [Hrange Hcount].
  destruct (Hcount H2) as [Hn Hassert].
  split; [exact H1|]. split; [exact H2|]. split; [exact H3|].
  split; [exact H4|]. split; [exact H5|]. split; [exact Hrange|].
  split; [exact Hn | exact Hassert].
Defined.

Lemma idxd_select_device_locality_witness :
  registry_wf scenario_idle = true
  ∧ ∃ i r w', g_next_dev scenario_idle = Some i
              ∧ idxd_select_device scenario_idle = (Returned r, w')
              ∧ registry_wf w' = true.
Proof.
  split; [reflexivity|].
  destruct (idxd_select_device_locality scenario_idle eq_refl)
    as (i & r & w' & evs & m & Hi & Hrun & _ & _ & _ & _ & _ & _ & _ & _ & Hwf).
  exists i, r, w'. split; [exact Hi|]. split; [exact Hrun | exact Hwf].
Defined.


Lemma dsa_submit_task_returns_zero_witness :
  state (channel scenario_error) = IDXD_CHANNEL_ERROR
  ∧ fst (dsa_submit_task T3 scenario_error) = 0
  ∧ completions (log (snd (dsa_submit_task T3 scenario_error)))
    = completions (log scenario_error) ++ [(T3, - EINVAL)].
Proof.
  split; [reflexivity|].
  destruct (dsa_submit_task_returns_zero T3 scenario_error) as (H0 & Herr & _).
  split; [exact H0 | exact (Herr eq_refl)].
Defined.

Lemma dsa_done_reports_hardware_status_witness :
  let w := scenario_in_flight in
  dif_err (dif T2) ≠ NULL
  ∧ num_outstanding (channel w) = 1
  ∧ fst (software_verify T2 w) = - 1
  ∧ fst (dsa_done T2 (- EIO) w) = Returned tt
  ∧ completions (log (snd (dsa_done T2 (- EIO) w)))
    = completions (log w) ++ [(T2, - EIO)].
Proof.
  intros w.
  assert (Hrec : dif_err (dif T2) ≠ NULL) by discriminate.
  destruct (dsa_done_reports_hardware_status T2 (- EIO) w)
    as (Hc & _ & _ & _ & Hret).
  specialize (Hret Hrec).
  split; [exact Hrec|]. split; [reflexivity|]. split; [reflexivity|].
  split; [exact Hret|]. rewrite Hret in Hc. exact Hc.
Defined.

(** ** The further properties on the simulated platform *)

Lemma supported_opcode_is_dispatched_witness :
  let evs := events_since (log scenario_idle)
               (snd (_process_single_task T1 scenario_idle)) in
  g_dsa_initialized scenario_idle = true
  ∧ fst (dsa_supports_opcode (op_code T1) scenario_idle) = true
  ∧ (EvAssertFail AssertKnownOpcode ∉ evs)
  ∧ ∃ req, request_task req = T1
           ∧ driver_calls evs
             = [(req, fst (_process_single_task T1 scenario_idle))].
Proof.
  intros evs. split; [reflexivity|]. split; [reflexivity|].
  destruct (supported_opcode_is_dispatched scenario_idle T1 scenario_idle
              eq_refl eq_refl) as [Hno Hcall].
  split; [exact Hno|]. apply Hcall.
  intros [H|[H|[H|H]]]; vm_compute in H; first [discriminate H | by destruct H].
Defined.

Lemma fifo_order_preserved_witness :
  state (channel scenario_backlog) = IDXD_CHANNEL_ACTIVE
  ∧ fst (run backlog_history scenario_backlog) = Returned tt
  ∧ ∃ P, queued_tasks (channel scenario_backlog) ++ submitted backlog_history
         = P ++ queued_tasks (channel (snd (run backlog_history scenario_backlog)))
         ∧ dispatched (events_since (log scenario_backlog)
                         (snd (run backlog_history scenario_backlog)))
           = List.filter reaches_driver P.
Proof.
  assert (Hret : fst (run backlog_history scenario_backlog) = Returned tt)
    by (by vm_compute).
  split; [reflexivity|]. split; [exact Hret|].
  exact (proj1 (fifo_order_preserved backlog_history scenario_backlog eq_refl) Hret).
Defined.

Lemma backlog_only_after_scarcity_witness :
  state (channel scenario_backlog) = IDXD_CHANNEL_ACTIVE
  ∧ queued_tasks (channel scenario_backlog) = []
  ∧ queued_tasks (channel (snd (run [CallSubmit T1] scenario_backlog))) = [T1]
  ∧ scarcity_logged (events_since (log scenario_backlog)
                       (snd (run [CallSubmit T1] scenario_backlog))).
Proof.
  assert (H : queued_tasks (channel (snd (run [CallSubmit T1] scenario_backlog))) = [T1])
    by (by vm_compute).
  split; [reflexivity|]. split; [reflexivity|]. split; [exact H|].
  apply (backlog_only_after_scarcity [CallSubmit T1] scenario_backlog);
    [reflexivity | reflexivity | rewrite H; discriminate].
Defined.

Lemma attach_builds_registry_witness :
  let w' := snd (attach_all sim_probed sim_world_uninitialized) in
  registry_pristine sim_world_uninitialized
  ∧ Z.of_nat (length (attached_devices sim_probed)) ≤ UINT32_MAX
  ∧ g_dsa_devices w' = sim_devices
  ∧ g_num_devices w' = 3
  ∧ registry_wf w' = true.
Proof.
  intros w'.
  assert (H1 : registry_pristine sim_world_uninitialized) by (by repeat split).
  assert (H2 : Z.of_nat (length (attached_devices sim_probed)) ≤ UINT32_MAX)
    by (by vm_compute).
  destruct (attach_builds_registry sim_probed sim_world_uninitialized H1 H2)
    as (Hd & Hn & _ & Hwf & _).
  split; [exact H1|]. split; [exact H2|]. split; [exact Hd|]. split; [exact Hn|].
  apply Hwf. discriminate.
Defined.

Lemma idxd_select_device_cursor_witness :
  registry_wf scenario_idle = true
  ∧ ∃ r w', idxd_select_device scenario_idle = (Returned r, w')
            ∧ g_next_dev w' = (if r is Some j then Some j else g_next_dev scenario_idle)
            ∧ scan_frame scenario_idle w'.
Proof.
  split; [reflexivity|].
  destruct (idxd_select_device_cursor scenario_idle eq_refl)
    as (r & w' & Hrun & Hcur & Hfr & _).
  exists r, w'. split; [exact Hrun|]. split; [exact Hcur | exact Hfr].
Defined.

Lemma dsa_create_cb_outcome_witness :
  registry_wf scenario_idle = true
  ∧ ∃ rc w', dsa_create_cb scenario_idle = (Returned rc, w')
             ∧ registry_wf w' = true.
Proof.
  split; [reflexivity|].
  destruct (dsa_create_cb_outcome scenario_idle eq_refl) as (rc & w' & Hrun & Hwf & _).
  exists rc, w'. split; [exact Hrun | exact Hwf].
Defined.

Lemma accel_dsa_enable_probe_once_witness :
  fst (accel_dsa_enable_probe false sim_module) = 0
  ∧ g_kernel_mode sim_module_enabled = false
  ∧ accel_dsa_enable_probe true sim_module_enabled = (- EALREADY, sim_module_enabled).
Proof.
  split; [reflexivity|].
  destruct (accel_dsa_enable_probe_once false true sim_module) as [H _].
  destruct (H eq_refl) as (_ & _ & Hk & _ & Hagain).
  split; [exact Hk | exact Hagain].
Defined.

Lemma config_json_round_trip_witness :
  fst (accel_dsa_enable_probe false sim_module) = 0
  ∧ snd (accel_dsa_write_config_json sim_module) = sim_module
  ∧ json_written
      (outside (snd (accel_dsa_write_config_json
                       (snd (accel_dsa_enable_probe true sim_module_enabled)))))
    = [spdk_json_write_object_begin;
       spdk_json_write_named_string "method" "dsa_scan_accel_module";
       spdk_json_write_named_object_begin "params";
       spdk_json_write_named_bool "config_kernel_mode" false;
       spdk_json_write_object_end;
       spdk_json_write_object_end].
Proof.
  split; [reflexivity|].
  destruct (config_json_round_trip false true sim_module) as [Hoff Hon].
  split; [exact (Hoff eq_refl) | exact (Hon eq_refl)].
Defined.

Lemma accel_dsa_init_outcome_witness :
  registry_pristine (core sim_module_enabled)
  ∧ Z.of_nat (length (found sim_module_enabled)) ≤ UINT32_MAX
  ∧ ∃ md', accel_dsa_init sim_module_enabled = (0, md')
           ∧ g_dsa_initialized (core md') = true
           ∧ registry_wf (core md') = true
           ∧ g_dsa_devices (core md') = sim_devices.
Proof.
  assert (H1 : registry_pristine (core sim_module_enabled)) by (by repeat split).
  assert (H2 : Z.of_nat (length (found sim_module_enabled)) ≤ UINT32_MAX)
    by (by vm_compute).
  split; [exact H1|]. split; [exact H2|].
  destruct (accel_dsa_init_outcome sim_module_enabled H1 H2)
    as (r & md' & Hrun & _ & H0 & _ & _ & Hdevs & Hok & _).
  assert (Hr : r = 0).
  { apply H0. split; [reflexivity|]. split; [reflexivity | discriminate]. }
  subst r. exists md'. split; [exact Hrun|].
  destruct (Hok eq_refl) as (Hi & Hwf & _).
  split; [exact Hi|]. split; [exact Hwf|]. exact (proj1 (Hdevs eq_refl)).
Defined.

Lemma init_then_create_channels_witness :
  registry_pristine (core sim_module_enabled)
  ∧ Z.of_nat (length (found sim_module_enabled)) ≤ UINT32_MAX
  ∧ fst (accel_dsa_init sim_module_enabled) = 0
  ∧ Forall (λ o, o = Returned 0 ∨ o = Returned (- EINVAL))
           (fst (create_many 5 (core (snd (accel_dsa_init sim_module_enabled))))).
Proof.
  assert (H1 : registry_pristine (core sim_module_enabled)) by (by repeat split).
  assert (H2 : Z.of_nat (length (found sim_module_enabled)) ≤ UINT32_MAX)
    by (by vm_compute).
  assert (H3 : fst (accel_dsa_init sim_module_enabled) = 0) by (by vm_compute).
  split; [exact H1|]. split; [exact H2|]. split; [exact H3|].
  exact (init_then_create_channels 5 sim_module_enabled H1 H2 H3).
Defined.

Lemma create_destroy_round_trip_witness :
  let md := sim_module_of scenario_idle in
  let w1 := snd (dsa_create_cb scenario_idle) in
  let md' := snd (dsa_destroy_cb (with_core w1 md)) in
  registry_wf (core md) = true
  ∧ dsa_create_cb (core md) = (Returned 0, w1)
  ∧ ∃ j ch, dev (channel w1) = Some j
            ∧ last (channel_requests (events_since (log (core md)) w1)) = Some (j, ch)
            ∧ ch ≠ NULL
            ∧ outside_since md md'
              = [spdk_poller_unregister; spdk_idxd_put_channel_call ch]
            ∧ driver (core md') = spdk_idxd_put_channel ch (driver w1).
Proof.
  intros md w1 md'.
  assert (H1 : registry_wf (core md) = true) by reflexivity.
  assert (H2 : dsa_create_cb (core md) = (Returned 0, w1)) by (by vm_compute).
  split; [exact H1|]. split; [exact H2|].
  destruct (create_destroy_round_trip md w1 H1 H2)
    as (j & ch & Hdev & Hlast & Hch & Hout & Hdr & _).
  exists j, ch. split; [exact Hdev|]. split; [exact Hlast|]. split; [exact Hch|].
  split; [exact Hout | exact Hdr].
Defined.
